(** * Hamiltonian Monte Carlo samplers (hmc/samplers.py)

    A shallow embedding of the sampler classes of [hmc/samplers.py]:
    the chain driver [sample_chain], the Metropolis transition shared by the
    static and random integration time samplers, the correlated momentum
    refresh and the dynamic multinomial (doubling tree) sampler.

    Python objects that are mutated through several names ([ChainState]
    instances: [state_p = state], [state.dir *= -1]) live in an object
    store; the accumulators handed down the recursion of [build_tree]
    ([sum_mom], [sum_weight], [stats]) have a single owner at every point and
    are passed in and handed back.  Exceptions keep the effects that happened
    before they were raised. *)

From stdpp Require Import base option list strings gmap.
From Stdlib Require Import ZArith QArith Qround.
Open Scope Z_scope.

(** ** Numbers

    The samplers only add, subtract, multiply, divide, exponentiate and
    compare floating point numbers; none of the properties below depends on
    how these operations round, so they are an interface. *)

Class Float64 := {
  F : Type;
  of_Z : Z → F;                 (* an integer used where a float is expected *)
  fhalf : F;                    (* the literal 0.5 *)
  fadd : F → F → F;
  fsub : F → F → F;
  fmul : F → F → F;
  fdiv : F → F → F;
  fneg : F → F;
  fexp : F → F;                 (* np.exp *)
  fpow : F → F → F;             (* x ** y *)
  fltb : F → F → bool;          (* x < y *)
  feqb : F → F → bool;          (* x == y *)
  to_Z : F → Z;                 (* conversion on a store into an int64 array *)
}.

(** Modelled from the spec: [hmc.utils.LogRepFloat] is imported by the
    samplers and not part of the sources at hand.  Its operations are the
    ones the samplers call; [a += b] updates the number [a] names, which is
    how the running weights are carried through the recursion. *)
Class LogRepFloatOps `{Float64} := {
  LogRepFloat : Type;
  lrf_val : F → LogRepFloat;                          (* LogRepFloat(x) *)
  lrf_log_val : F → LogRepFloat;                      (* LogRepFloat(log_val=x) *)
  lrf_add : LogRepFloat → LogRepFloat → LogRepFloat;  (* a + b, a += b *)
  lrf_div : LogRepFloat → LogRepFloat → LogRepFloat;  (* a / b *)
  float_lt_lrf : F → LogRepFloat → bool;              (* u < a, u a float *)
}.

(** [numpy.random.RandomState]: the generator is advanced by every draw. *)
Class RandomStateOps `{Float64} := {
  RandomState : Type;
  uniform : RandomState → F * RandomState;
  random_integers : Z → Z → RandomState → Z * RandomState;
}.

Section Values.
Context `{Float64}.

(** One dimensional numpy arrays of floats. *)
Definition Vec := list F.

Definition np_zeros (n : nat) : Vec := replicate n (of_Z 0).
Definition vec_add (a b : Vec) : Vec := zip_with fadd a b.
Definition vec_scale (c : F) (a : Vec) : Vec := map (fmul c) a.
Definition vec_dot (a b : Vec) : F :=
  foldr fadd (of_Z 0) (zip_with fmul a b).

(** Modelled from the spec: the class of chain states is not part of the
    sources at hand.  A state has a position, a momentum (possibly [None]),
    an integration direction and a dimension; the samplers read [pos],
    [mom], [dir] and [n_dim], assign [mom] and [dir], and call [copy()]. *)
Record ChainState := mkState {
  pos : Vec;
  mom : option Vec;
  dir : Z;
  n_dim : nat;
}.

Definition set_dir (d : Z) (s : ChainState) : ChainState :=
  {| pos := pos s; mom := mom s; dir := d; n_dim := n_dim s |}.
Definition set_mom (m : Vec) (s : ChainState) : ChainState :=
  {| pos := pos s; mom := Some m; dir := dir s; n_dim := n_dim s |}.

(** Entries of the statistics dictionaries. *)
Inductive val := VInt (z : Z) | VFloat (x : F) | VBool (b : bool).

(** What a variable that usually names a state can hold: a reference to a
    [ChainState] object, [None], or a numpy array. *)
Inductive pyval := PNone | PState (l : nat) | PArray (v : Vec).

(** [min(a, b)] of Python returns [a] unless [b < a]; here [a] is the
    integer [1] of [min(1, np.exp(...))]. *)
Definition min_1 (x : F) : val :=
  if fltb x (of_Z 1) then VFloat x else VInt 1.
(** [min(1., x)] *)
Definition fmin_1 (x : F) : F :=
  if fltb x (of_Z 1) then x else of_Z 1.

(** Arithmetic of Python on dictionary entries: booleans count as
    integers, an integer meeting a float becomes a float. *)
Definition val_as_int (v : val) : option Z :=
  match v with
  | VInt z => Some z
  | VBool b => Some (if b then 1 else 0)
  | VFloat _ => None
  end.
Definition val_to_float (v : val) : F :=
  match v with
  | VInt z => of_Z z
  | VBool b => of_Z (if b then 1 else 0)
  | VFloat x => x
  end.
(** [a + b] *)
Definition val_add (a b : val) : val :=
  match val_as_int a, val_as_int b with
  | Some x, Some y => VInt (x + y)
  | _, _ => VFloat (fadd (val_to_float a) (val_to_float b))
  end.
(** [a / b], with a float numerator as everywhere in the samplers *)
Definition val_truediv (a b : val) : val :=
  VFloat (fdiv (val_to_float a) (val_to_float b)).
(** [a > 0] *)
Definition val_positive (a : val) : bool :=
  match val_as_int a with
  | Some x => x >? 0
  | None => fltb (of_Z 0) (val_to_float a)
  end.

(** [u < v] for a float [u] and an int or float [v]. *)
Definition float_lt_val (u : F) (v : val) : bool :=
  match v with
  | VInt z => fltb u (of_Z z)
  | VFloat y => fltb u y
  | VBool b => fltb u (of_Z (if b then 1 else 0))
  end.
End Values.

(** ** Collaborators *)

(** The Hamiltonian system: energy, gradient with respect to the momentum,
    and a momentum sampler drawing from the generator. *)
Class System `{RandomStateOps} := {
  h : ChainState → F;
  dh_dmom : ChainState → Vec;
  sample_momentum : ChainState → RandomState → Vec * RandomState;
}.

(** Modelled from the spec: the integrator ([hmc.integrators]) is not part of
    the sources at hand.  [step(state)] returns a new state object and leaves
    the object it was given as it is; a failed step raises a [RuntimeError]
    carrying a message ([inl]). *)
Class Integrator `{Float64} := {
  step : ChainState → string + ChainState;
}.

(** ** Effects *)

Inductive exn :=
  | RuntimeError (msg : string)
  | AssertionError
  | UnboundLocalError (var : string)
  | AttributeError
  | TypeError
  | KeyError (key : string)
  | IndexError
  | ValueError
  | NotImplementedError.

Section Effects.
Context `{RandomStateOps}.

(** Records of [logger.warning]. *)
Inductive log_entry :=
  | TrajectoryIntegratorError (msg : string)
  | BuildTreeDivergence (delta_h : F)
  | BuildTreeIntegratorError (msg : string).

Record World := mkWorld {
  objects : list ChainState;      (* the ChainState objects, by address *)
  rng : RandomState;              (* self.rng *)
  warnings : list log_entry;      (* newest first *)
}.

Inductive Res (A : Type) :=
  | Ok (a : A) (w : World)
  | Raise (e : exn) (w : World).
Global Arguments Ok {A} a w.
Global Arguments Raise {A} e w.

Definition M (A : Type) := World → Res A.

Global Instance M_ret : MRet M := λ A a w, Ok a w.
Global Instance M_bind : MBind M := λ A B k m w,
  match m w with
  | Ok a w' => k a w'
  | Raise e w' => Raise e w'
  end.
Definition raise {A} (e : exn) : M A := λ w, Raise e w.

(** [state.attr] for a variable holding [v]. *)
Definition deref (v : pyval) : M ChainState :=
  fun w => match v with
           | PState l =>
               match objects w !! l with
               | Some s => Ok s w
               | None => Raise AttributeError w
               end
           | _ => Raise AttributeError w
           end.

(** An in-place update of the object [v] refers to. *)
Definition update (v : pyval) (f : ChainState → ChainState) : M unit :=
  fun w => match v with
           | PState l =>
               match objects w !! l with
               | Some s =>
                   Ok tt {| objects := <[l := f s]> (objects w);
                            rng := rng w; warnings := warnings w |}
               | None => Raise AttributeError w
               end
           | _ => Raise AttributeError w
           end.

(** A new object. *)
Definition alloc (s : ChainState) : M pyval :=
  fun w => Ok (PState (length (objects w)))
              {| objects := objects w ++ [s];
                 rng := rng w; warnings := warnings w |}.

(** [state.copy()]: a new object with the same contents. *)
Definition copy (v : pyval) : M pyval :=
  deref v ≫= alloc.

(** A draw from [self.rng]: the generator moves on. *)
Definition draw {A} (f : RandomState → A * RandomState) : M A :=
  fun w => let '(a, r) := f (rng w) in
           Ok a {| objects := objects w; rng := r; warnings := warnings w |}.

Definition rng_uniform : M F := draw uniform.

Definition rng_random_integers (lo hi : Z) : M Z :=
  draw (random_integers lo hi).

Definition logger_warning (e : log_entry) : M unit :=
  fun w => Ok tt {| objects := objects w; rng := rng w;
                    warnings := e :: warnings w |}.
End Effects.

(** Dictionaries with string keys. *)
Abbreviation dict := (gmap string val).

Section Dicts.
Context `{RandomStateOps}.

(** [d[k]] *)
Definition getitem (d : dict) (k : string) : M val :=
  match d !! k with
  | Some v => mret v
  | None => raise (KeyError k)
  end.
End Dicts.

(** ** Arrays of a chain

    A cell of an array keeps every value that was stored into it, newest
    first, so that the number of stores into a cell can be stated;
    [np.empty] gives cells nothing was stored into yet. *)

Inductive dtype := float64 | int64 | np_bool.

Record ndarray (A : Type) := mkArray { cells : list (list A) }.
Arguments mkArray {A} cells.
Arguments cells {A} _.

(** The number of cells. *)
Definition len {A} (a : ndarray A) : nat := length (cells a).
(** How often index [i] was stored into. *)
Definition writes {A} (a : ndarray A) (i : nat) : option nat :=
  length <$> cells a !! i.

(** Python's index rule: [-len <= i < 0] counts from the end. *)
Definition py_index (n : nat) (i : Z) : option nat :=
  if 0 <=? i then
    if i <? Z.of_nat n then Some (Z.to_nat i) else None
  else
    if - Z.of_nat n <=? i then Some (Z.to_nat (Z.of_nat n + i)) else None.

(** The dictionary of statistics arrays of a chain. *)
Abbreviation chain_stats_t := (gmap string (dtype * ndarray val)).

Section Arrays.
Context `{RandomStateOps}.

(** [np.empty(n)]; a negative dimension is a [ValueError]. *)
Definition np_empty {A} (n : Z) : M (ndarray A) :=
  if n <? 0 then raise ValueError
  else mret (mkArray (replicate (Z.to_nat n) [])).

(** [a[i] = x] *)
Definition setitem {A} (a : ndarray A) (i : Z) (x : A) : M (ndarray A) :=
  match py_index (len a) i with
  | Some j => mret (mkArray (alter (cons x) j (cells a)))
  | None => raise IndexError
  end.

(** The conversion numpy applies when [v] is stored into an array of the
    given type. *)
Definition cast (t : dtype) (v : val) : val :=
  match t, v with
  | float64, VInt z => VFloat (of_Z z)
  | float64, VFloat x => VFloat x
  | float64, VBool b => VFloat (of_Z (if b then 1 else 0))
  | int64, VInt z => VInt z
  | int64, VFloat x => VInt (to_Z x)
  | int64, VBool b => VInt (if b then 1 else 0)
  | np_bool, VInt z => VBool (negb (z =? 0))
  | np_bool, VFloat x => VBool (negb (feqb x (of_Z 0)))
  | np_bool, VBool b => VBool b
  end.

(** [chain_stats[key][i] = v] *)
Definition setstat (chain_stats : chain_stats_t) (key : string) (i : Z)
    (v : val) : M chain_stats_t :=
  match chain_stats !! key with
  | Some (t, a) =>
      a' ← setitem a i (cast t v);
      mret (<[key := (t, a')]> chain_stats)
  | None => raise (KeyError key)
  end.
End Arrays.

(** ** class BaseHamiltonianMonteCarlo *)

Module BaseHamiltonianMonteCarlo.
Section Methods.
Context `{System}.

(** The methods a sampler class provides; [sample_chain] calls them on
    [self]. *)
Record methods := {
  self_sample_momentum_transition : pyval → M pyval;
  self_sample_dynamics_transition : pyval → M (pyval * dict);
  self_initialise_chain_stats : pyval → Z → M chain_stats_t;
  self_update_chain_stats : Z → chain_stats_t → dict → M chain_stats_t;
}.

(** [self.system.h(state)] *)
Definition system_h (state : pyval) : M F :=
  s ← deref state; mret (h s).

(** [self.system.sample_momentum(state, self.rng)] *)
Definition system_sample_momentum (state : pyval) : M Vec :=
  s ← deref state; draw (sample_momentum s).

Definition sample_momentum_transition (state : pyval) : M pyval :=
  m ← system_sample_momentum state;
  update state (set_mom m);;
  mret state.

Definition sample_dynamics_transition (state : pyval) : M (pyval * dict) :=
  raise NotImplementedError.

Definition initialise_chain_stats (init_state : pyval) (n_sample : Z)
    : M chain_stats_t :=
  raise NotImplementedError.

Definition update_chain_stats (s : Z) (chain_stats : chain_stats_t)
    (trans_stats : dict) : M chain_stats_t :=
  raise NotImplementedError.

(** [extract_pos], [extract_mom] and their like: what a chain records of a
    state. *)
Definition extract_pos (s : ChainState) : option Vec := Some (pos s).
Definition extract_mom (s : ChainState) : option Vec := mom s.

Definition call_chain_func (chain_func : ChainState → option Vec)
    (state : pyval) : M Vec :=
  s ← deref state;
  match chain_func s with
  | Some var => mret var
  | None => raise AttributeError
  end.

(** The first loop of [sample_chain]: one array per recorded variable, its
    first row set from the initial state. *)
Fixpoint init_var_chains (chain_var_funcs : list (ChainState → option Vec))
    (n_sample : Z) (state : pyval) (var_chains : list (ndarray Vec))
    : M (list (ndarray Vec)) :=
  match chain_var_funcs with
  | [] => mret var_chains
  | chain_func :: rest =>
      var ← call_chain_func chain_func state;
      a ← np_empty n_sample;
      a ← setitem a 0 var;
      init_var_chains rest n_sample state (var_chains ++ [a])
  end.

(** The inner loop over [zip(chain_var_funcs, var_chains)]. *)
Fixpoint record_vars (pairs : list ((ChainState → option Vec) * ndarray Vec))
    (s : Z) (state : pyval) : M (list (ndarray Vec)) :=
  match pairs with
  | [] => mret []
  | (chain_func, var_chain) :: rest =>
      var ← call_chain_func chain_func state;
      a ← setitem var_chain (s + 1) var;
      rest' ← record_vars rest s state;
      mret (a :: rest')
  end.

(** The main loop of [sample_chain] over [s_range]. *)
Fixpoint chain_loop (self : methods)
    (chain_var_funcs : list (ChainState → option Vec)) (s_range : list Z)
    (state : pyval) (chain_stats : chain_stats_t)
    (var_chains : list (ndarray Vec))
    : M (list (ndarray Vec) * chain_stats_t) :=
  match s_range with
  | [] => mret (var_chains, chain_stats)
  | s :: rest =>
      state ← self_sample_momentum_transition self state;
      '(state, trans_stats) ← self_sample_dynamics_transition self state;
      chain_stats ← self_update_chain_stats self (s + 1) chain_stats
                      trans_stats;
      recorded ← record_vars (zip chain_var_funcs var_chains) s state;
      (* zip stops at the shorter list; arrays beyond it stay as they are *)
      let var_chains := recorded ++ drop (length recorded) var_chains in
      chain_loop self chain_var_funcs rest state chain_stats var_chains
  end.

Definition sample_chain (self : methods) (n_sample : Z) (state : pyval)
    (chain_var_funcs : list (ChainState → option Vec))
    : M (list (ndarray Vec) * chain_stats_t) :=
  s0 ← deref state;
  (if mom s0 is None then
     m ← system_sample_momentum state; update state (set_mom m)
   else mret tt);;
  chain_stats ← self_initialise_chain_stats self state n_sample;
  var_chains ← init_var_chains chain_var_funcs n_sample state [];
  chain_loop self chain_var_funcs (seqZ 0 (n_sample - 1)) state chain_stats
    var_chains.
End Methods.
End BaseHamiltonianMonteCarlo.

(** ** Calls into the integrator *)

Section IntegratorCalls.
Context `{RandomStateOps} `{!Integrator}.

(** [self.integrator.step(state)] *)
Definition integrator_step (state : pyval) : M pyval :=
  s ← deref state;
  match step s with
  | inl msg => raise (RuntimeError msg)
  | inr s' => alloc s'
  end.

(** [try: body / except RuntimeError as e: ...]: a [RuntimeError] raised
    by [body] is handed over with its message, any other exception goes
    on. *)
Definition try_RuntimeError {A} (body : M A) : M (string + A) :=
  λ w, match body w with
       | Ok a w' => Ok (inr a) w'
       | Raise (RuntimeError msg) w' => Ok (inl msg) w'
       | Raise e w' => Raise e w'
       end.

(** [k] integrator steps in a row, as values. *)
Fixpoint run_steps (k : nat) (s : ChainState) : string + ChainState :=
  match k with
  | O => inr s
  | S k' =>
      match step s with
      | inl msg => inl msg
      | inr s' => run_steps k' s'
      end
  end.
End IntegratorCalls.

(** ** class BaseMetropolisHMC *)

Module BaseMetropolisHMC.
Section Methods.
Context `{System} `{!Integrator}.

Definition initialise_chain_stats (init_state : pyval) (n_sample : Z)
    : M chain_stats_t :=
  a_hamiltonian ← np_empty n_sample;
  a_n_step ← np_empty (n_sample - 1);
  a_accept_prob ← np_empty (n_sample - 1);
  let chain_stats : chain_stats_t :=
    <["hamiltonian" := (float64, a_hamiltonian)]>
    (<["n_step" := (int64, a_n_step)]>
    (<["accept_prob" := (float64, a_accept_prob)]> ∅)) in
  h_init ← BaseHamiltonianMonteCarlo.system_h init_state;
  setstat chain_stats "hamiltonian" 0 (VFloat h_init).

Definition update_chain_stats (s : Z) (chain_stats : chain_stats_t)
    (trans_stats : dict) : M chain_stats_t :=
  v ← getitem trans_stats "hamiltonian";
  chain_stats ← setstat chain_stats "hamiltonian" s v;
  v ← getitem trans_stats "n_step";
  chain_stats ← setstat chain_stats "n_step" (s - 1) v;
  v ← getitem trans_stats "accept_prob";
  setstat chain_stats "accept_prob" (s - 1) v.

(** How the [try] block of [_sample_dynamics_transition] ends: the loop
    ran through, or a step raised while the loop variable was [s]. *)
Inductive trajectory :=
  | Completed (state_p : pyval)
  | Failed (s : Z) (e : string).

(** [for s in range(n_step): state_p = self.integrator.step(state_p)]
    under [except RuntimeError as e]. *)
Fixpoint integrate (s_range : list Z) (state_p : pyval) : M trajectory :=
  match s_range with
  | [] => mret (Completed state_p)
  | s :: rest =>
      r ← try_RuntimeError (integrator_step state_p);
      match r with
      | inl e => mret (Failed s e)
      | inr state_p => integrate rest state_p
      end
  end.

(** [state.dir *= -1] *)
Definition negate_dir (state : pyval) : M unit :=
  update state (λ st, set_dir (dir st * -1) st).

Definition _sample_dynamics_transition (state : pyval) (n_step : Z)
    : M (pyval * dict) :=
  h_init ← BaseHamiltonianMonteCarlo.system_h state;
  r ← integrate (seqZ 0 n_step) state;
  match r with
  | Failed s e =>
      logger_warning (TrajectoryIntegratorError e);;
      mret (state,
            <["hamiltonian" := VFloat h_init]>
            (<["accept_prob" := VInt 0]>
            (<["n_step" := VInt s]> (∅ : dict))))
  | Completed state_p =>
      negate_dir state_p;;
      h_final ← BaseHamiltonianMonteCarlo.system_h state_p;
      let accept_prob := min_1 (fexp (fsub h_init h_final)) in
      u ← rng_uniform;
      let state := if float_lt_val u accept_prob then state_p else state in
      negate_dir state;;
      h_state ← BaseHamiltonianMonteCarlo.system_h state;
      mret (state,
            <["hamiltonian" := VFloat h_state]>
            (<["accept_prob" := accept_prob]>
            (<["n_step" := VInt n_step]> (∅ : dict))))
  end.
End Methods.
End BaseMetropolisHMC.

(** ** class StaticMetropolisHMC *)

Module StaticMetropolisHMC.
Section Methods.
Context `{System} `{!Integrator}.

Record self := { n_step : Z }.

Definition __init__ (n_step : Z) : exn + self :=
  inr {| n_step := n_step |}.

Definition sample_dynamics_transition (self : self) (state : pyval)
    : M (pyval * dict) :=
  BaseMetropolisHMC._sample_dynamics_transition state (n_step self).

Definition methods (self : self) : BaseHamiltonianMonteCarlo.methods := {|
  BaseHamiltonianMonteCarlo.self_sample_momentum_transition :=
    BaseHamiltonianMonteCarlo.sample_momentum_transition;
  BaseHamiltonianMonteCarlo.self_sample_dynamics_transition :=
    sample_dynamics_transition self;
  BaseHamiltonianMonteCarlo.self_initialise_chain_stats :=
    BaseMetropolisHMC.initialise_chain_stats;
  BaseHamiltonianMonteCarlo.self_update_chain_stats :=
    BaseMetropolisHMC.update_chain_stats;
|}.
End Methods.
End StaticMetropolisHMC.

(** ** class RandomMetropolisHMC *)

Module RandomMetropolisHMC.
Section Methods.
Context `{System} `{!Integrator}.

Record self := { n_step_range : Z * Z }.

Definition __init__ (n_step_range : Z * Z) : exn + self :=
  let '(n_step_lower, n_step_upper) := n_step_range in
  if (n_step_lower >? 0) && (n_step_lower <? n_step_upper) then
    inr {| n_step_range := n_step_range |}
  else inl AssertionError.

Definition sample_dynamics_transition (self : self) (state : pyval)
    : M (pyval * dict) :=
  n_step ← rng_random_integers (n_step_range self).1 (n_step_range self).2;
  BaseMetropolisHMC._sample_dynamics_transition state n_step.

Definition methods (self : self) : BaseHamiltonianMonteCarlo.methods := {|
  BaseHamiltonianMonteCarlo.self_sample_momentum_transition :=
    BaseHamiltonianMonteCarlo.sample_momentum_transition;
  BaseHamiltonianMonteCarlo.self_sample_dynamics_transition :=
    sample_dynamics_transition self;
  BaseHamiltonianMonteCarlo.self_initialise_chain_stats :=
    BaseMetropolisHMC.initialise_chain_stats;
  BaseHamiltonianMonteCarlo.self_update_chain_stats :=
    BaseMetropolisHMC.update_chain_stats;
|}.
End Methods.
End RandomMetropolisHMC.

(** ** class BaseCorrelatedMomentumHMC *)

(** A statement either hands control to the next one or returns from the
    function. *)
Inductive flow (R : Type) := Next | Return (r : R).
Arguments Next {R}.
Arguments Return {R} r.

Section Statements.
Context `{RandomStateOps}.

(** [return r] *)
Definition return_ {R} (r : R) : M (flow R) := mret (Return r).
(** A statement that is not a return. *)
Definition stmt {R} (m : M unit) : M (flow R) := m;; mret Next.
(** [s1] followed by [s2] *)
Definition then_ {R} (s1 s2 : M (flow R)) : M (flow R) :=
  f ← s1;
  match f with
  | Return r => mret (Return r)
  | Next => s2
  end.
(** A function body; falling off its end returns [None]. *)
Definition def (body : M (flow pyval)) : M pyval :=
  f ← body;
  match f with
  | Return r => mret r
  | Next => mret PNone
  end.
End Statements.

Module BaseCorrelatedMomentumHMC.
Section Methods.
Context `{System}.

Record self := { mom_resample_coeff : F }.

Definition __init__ (mom_resample_coeff : option F) : self :=
  {| mom_resample_coeff := default (of_Z 1) mom_resample_coeff |}.

(** [state.mom *= c]; the momentum must be there *)
Definition imul_mom (state : pyval) (c : F) : M unit :=
  s ← deref state;
  match mom s with
  | Some m => update state (set_mom (vec_scale c m))
  | None => raise TypeError
  end.

(** [state.mom += v] *)
Definition iadd_mom (state : pyval) (v : Vec) : M unit :=
  s ← deref state;
  match mom s with
  | Some m => update state (set_mom (vec_add m v))
  | None => raise TypeError
  end.

Definition sample_momentum_transition (self : self) (state : pyval)
    : M pyval :=
  def (
    then_ (m ← BaseHamiltonianMonteCarlo.system_sample_momentum state;
           return_ (PArray m))
   (then_ (if feqb (mom_resample_coeff self) (of_Z 1) then
             stmt (m ← BaseHamiltonianMonteCarlo.system_sample_momentum
                        state;
                   update state (set_mom m))
           else if negb (feqb (mom_resample_coeff self) (of_Z 0)) then
             stmt (mom_ind ← BaseHamiltonianMonteCarlo.system_sample_momentum
                               state;
                   imul_mom state
                     (fpow (fsub (of_Z 1)
                              (fpow (mom_resample_coeff self) (of_Z 2)))
                        fhalf);;
                   iadd_mom state
                     (vec_scale (mom_resample_coeff self) mom_ind))
           else mret Next)
          (return_ state))).
End Methods.
End BaseCorrelatedMomentumHMC.

(** ** class StaticMetropolisCorrelatedMomentumHMC
       (BaseCorrelatedMomentumHMC, StaticMetropolisHMC) *)

Module StaticMetropolisCorrelatedMomentumHMC.
Section Methods.
Context `{System} `{!Integrator}.

(** Method resolution: the momentum refresh of
    [BaseCorrelatedMomentumHMC], everything else from
    [StaticMetropolisHMC]. *)
Definition methods (cm : BaseCorrelatedMomentumHMC.self)
    (sm : StaticMetropolisHMC.self) : BaseHamiltonianMonteCarlo.methods := {|
  BaseHamiltonianMonteCarlo.self_sample_momentum_transition :=
    BaseCorrelatedMomentumHMC.sample_momentum_transition cm;
  BaseHamiltonianMonteCarlo.self_sample_dynamics_transition :=
    StaticMetropolisHMC.sample_dynamics_transition sm;
  BaseHamiltonianMonteCarlo.self_initialise_chain_stats :=
    BaseMetropolisHMC.initialise_chain_stats;
  BaseHamiltonianMonteCarlo.self_update_chain_stats :=
    BaseMetropolisHMC.update_chain_stats;
|}.
End Methods.
End StaticMetropolisCorrelatedMomentumHMC.

(** ** class RandomMetropolisCorrelatedMomentumHMC
       (BaseCorrelatedMomentumHMC, RandomMetropolisHMC) *)

Module RandomMetropolisCorrelatedMomentumHMC.
Section Methods.
Context `{System} `{!Integrator}.

Definition methods (cm : BaseCorrelatedMomentumHMC.self)
    (rm : RandomMetropolisHMC.self) : BaseHamiltonianMonteCarlo.methods := {|
  BaseHamiltonianMonteCarlo.self_sample_momentum_transition :=
    BaseCorrelatedMomentumHMC.sample_momentum_transition cm;
  BaseHamiltonianMonteCarlo.self_sample_dynamics_transition :=
    RandomMetropolisHMC.sample_dynamics_transition rm;
  BaseHamiltonianMonteCarlo.self_initialise_chain_stats :=
    BaseMetropolisHMC.initialise_chain_stats;
  BaseHamiltonianMonteCarlo.self_update_chain_stats :=
    BaseMetropolisHMC.update_chain_stats;
|}.
End Methods.
End RandomMetropolisCorrelatedMomentumHMC.

(** ** class DynamicMultinomialHMC *)

Module DynamicMultinomialHMC.
Section Methods.
Context `{System} `{!Integrator} `{!LogRepFloatOps}.

Record self := { max_tree_depth : Z; max_delta_h : F }.

Definition __init__ (max_tree_depth : option Z) (max_delta_h : option F)
    : self :=
  {| max_tree_depth := default 5 max_tree_depth;
     max_delta_h := default (of_Z 1000) max_delta_h |}.

Definition initialise_chain_stats (init_state : pyval) (n_sample : Z)
    : M chain_stats_t :=
  a_hamiltonian ← np_empty n_sample;
  a_n_step ← np_empty (n_sample - 1);
  a_accept_prob ← np_empty (n_sample - 1);
  a_tree_depth ← np_empty (n_sample - 1);
  a_divergent ← np_empty (n_sample - 1);
  let chain_stats : chain_stats_t :=
    <["hamiltonian" := (float64, a_hamiltonian)]>
    (<["n_step" := (int64, a_n_step)]>
    (<["accept_prob" := (float64, a_accept_prob)]>
    (<["tree_depth" := (int64, a_tree_depth)]>
    (<["divergent" := (np_bool, a_divergent)]> ∅)))) in
  h_init ← BaseHamiltonianMonteCarlo.system_h init_state;
  setstat chain_stats "hamiltonian" 0 (VFloat h_init).

Definition update_chain_stats (s : Z) (chain_stats : chain_stats_t)
    (trans_stats : dict) : M chain_stats_t :=
  v ← getitem trans_stats "hamiltonian";
  chain_stats ← setstat chain_stats "hamiltonian" s v;
  v ← getitem trans_stats "n_step";
  chain_stats ← setstat chain_stats "n_step" (s - 1) v;
  v ← getitem trans_stats "accept_prob";
  chain_stats ← setstat chain_stats "accept_prob" (s - 1) v;
  v ← getitem trans_stats "tree_depth";
  chain_stats ← setstat chain_stats "tree_depth" (s - 1) v;
  v ← getitem trans_stats "divergent";
  setstat chain_stats "divergent" (s - 1) v.

(** [a.dot(b) < 0 or c.dot(b) < 0]; the second state is only looked at
    when the first test fails. *)
Definition termination_criterion (state_1 state_2 : pyval) (sum_mom : Vec)
    : M bool :=
  s1 ← deref state_1;
  if fltb (vec_dot (dh_dmom s1) sum_mom) (of_Z 0) then mret true
  else
    s2 ← deref state_2;
    mret (fltb (vec_dot (dh_dmom s2) sum_mom) (of_Z 0)).

(** [stats[k] += v] *)
Definition stats_iadd (stats : dict) (k : string) (v : val) : M dict :=
  old ← getitem stats k;
  mret (<[k := val_add old v]> stats).

(** What a call of [build_tree] hands back: the returned tuple and the
    accumulators it was given, as the call left them. *)
Record built := {
  terminate : bool;
  edge_i : pyval;          (* second component of the tuple *)
  edge_o : pyval;          (* third component *)
  proposal : pyval;        (* fourth component *)
  sum_mom' : Vec;
  sum_weight' : LogRepFloat;
  stats' : dict;
}.

(** The body of the [try] block of the base case. *)
Definition leaf (self : self) (state : pyval) (sum_mom : Vec)
    (sum_weight : LogRepFloat) (stats : dict) (h_init : F) : M built :=
  state ← integrator_step state;
  hamiltonian ← BaseHamiltonianMonteCarlo.system_h state;
  s ← deref state;
  sum_mom ← (match mom s with
             | Some m => mret (vec_add sum_mom m)
             | None => raise TypeError
             end);
  let sum_weight := lrf_add sum_weight (lrf_log_val (fneg hamiltonian)) in
  stats ← stats_iadd stats "sum_acc_prob"
            (VFloat (fmin_1 (fexp (fsub h_init hamiltonian))));
  stats ← stats_iadd stats "n_step" (VInt 1);
  let terminate := fltb (max_delta_h self) (fsub hamiltonian h_init) in
  stats ← (if terminate then
             let stats := <["divergent" := VBool true]> stats in
             logger_warning (BuildTreeDivergence (fsub hamiltonian h_init));;
             mret stats
           else mret stats);
  mret {| terminate := terminate; edge_i := state; edge_o := state;
          proposal := state; sum_mom' := sum_mom;
          sum_weight' := sum_weight; stats' := stats |}.

Fixpoint build_tree (self : self) (depth : nat) (state : pyval)
    (sum_mom : Vec) (sum_weight : LogRepFloat) (stats : dict) (h_init : F)
    : M built :=
  match depth with
  | O =>
      (* recursion base case *)
      r ← try_RuntimeError (leaf self state sum_mom sum_weight stats h_init);
      match r with
      | inr b => mret b
      | inl e =>
          logger_warning (BuildTreeIntegratorError e);;
          mret {| terminate := true; edge_i := PNone; edge_o := PNone;
                  proposal := PNone; sum_mom' := sum_mom;
                  sum_weight' := sum_weight; stats' := stats |}
      end
  | S depth' =>
      s ← deref state;
      let sum_mom_i := np_zeros (n_dim s) in
      let sum_mom_o := np_zeros (n_dim s) in
      let sum_weight_i := lrf_val (of_Z 0) in
      let sum_weight_o := lrf_val (of_Z 0) in
      (* build inner subsubtree *)
      inner ← build_tree self depth' state sum_mom_i sum_weight_i stats h_init;
      if terminate inner then
        mret {| terminate := true; edge_i := PNone; edge_o := PNone;
                proposal := PNone; sum_mom' := sum_mom;
                sum_weight' := sum_weight; stats' := stats' inner |}
      else
      let state_i := edge_i inner in
      let state := edge_o inner in
      let state_pi := proposal inner in
      (* build outer subsubtree *)
      outer ← build_tree self depth' state sum_mom_o sum_weight_o
                (stats' inner) h_init;
      if terminate outer then
        mret {| terminate := true; edge_i := PNone; edge_o := PNone;
                proposal := PNone; sum_mom' := sum_mom;
                sum_weight' := sum_weight; stats' := stats' outer |}
      else
      let state_o := edge_o outer in
      let state_po := proposal outer in
      (* independently sample proposal from 2 subsubtrees by relative
         weights *)
      let sum_weight_s := lrf_add (sum_weight' inner) (sum_weight' outer) in
      let accept_o_prob := lrf_div (sum_weight' outer) sum_weight_s in
      u ← rng_uniform;
      let state_p := if float_lt_lrf u accept_o_prob then state_po
                     else state_pi in
      (* update overall tree weight *)
      let sum_weight := lrf_add sum_weight sum_weight_s in
      (* calculate termination criteria for subtree *)
      let sum_mom_s := vec_add (sum_mom' inner) (sum_mom' outer) in
      terminate_s ← termination_criterion state_i state_o sum_mom_s;
      (* update overall tree summed momentum *)
      let sum_mom := vec_add sum_mom sum_mom_s in
      mret {| terminate := terminate_s; edge_i := state_i;
              edge_o := state_o; proposal := state_p;
              sum_mom' := sum_mom; sum_weight' := sum_weight;
              stats' := stats' outer |}
  end.

(** The local variables of [sample_dynamics_transition] the doubling loop
    assigns; [depth] is unbound until the loop has started. *)
Record locals := {
  var_depth : option nat;
  var_state_n : pyval;
  var_state_l : pyval;
  var_state_r : pyval;
  var_sum_mom : Vec;
  var_sum_weight : LogRepFloat;
  var_stats : dict;
}.

(** [for depth in range(self.max_tree_depth): ...] *)
Fixpoint doubling_loop (self : self) (state : pyval) (h_init : F)
    (depths : list nat) (v : locals) : M locals :=
  match depths with
  | [] => mret v
  | depth :: rest =>
      (* uniformly sample direction to expand tree in *)
      u ← rng_uniform;
      let direction := 2 * (if fltb u fhalf then 1 else 0) - 1 in
      s ← deref state;
      let sum_mom_s := np_zeros (n_dim s) in
      let sum_weight_s := lrf_val (of_Z 0) in
      b ← (if direction =? 1 then
             (* expand tree by adding subtree to right edge *)
             build_tree self depth (var_state_r v) sum_mom_s sum_weight_s
               (var_stats v) h_init
           else
             (* expand tree by adding subtree to left edge *)
             build_tree self depth (var_state_l v) sum_mom_s sum_weight_s
               (var_stats v) h_init);
      let state_r := if direction =? 1 then edge_o b else var_state_r v in
      let state_l := if direction =? 1 then var_state_l v else edge_o b in
      let state_p := proposal b in
      if terminate b then
        (* break *)
        mret {| var_depth := Some depth; var_state_n := var_state_n v;
                var_state_l := state_l; var_state_r := state_r;
                var_sum_mom := var_sum_mom v; var_sum_weight := var_sum_weight v;
                var_stats := stats' b |}
      else
      (* progressively sample new state, biasing towards the new subtree
         proposal *)
      u ← rng_uniform;
      let state_n :=
        if float_lt_lrf u (lrf_div (sum_weight' b) (var_sum_weight v))
        then state_p else var_state_n v in
      let sum_weight := lrf_add (var_sum_weight v) (sum_weight' b) in
      let sum_mom := vec_add (var_sum_mom v) (sum_mom' b) in
      let v' := {| var_depth := Some depth; var_state_n := state_n;
                   var_state_l := state_l; var_state_r := state_r;
                   var_sum_mom := sum_mom; var_sum_weight := sum_weight;
                   var_stats := stats' b |} in
      stop ← termination_criterion state_l state_r sum_mom;
      if (stop : bool) then mret v' (* break *)
      else doubling_loop self state h_init rest v'
  end.

(** [stats[k] = v] *)
Definition stats_set (stats : dict) (k : string) (v : val) : dict :=
  <[k := v]> stats.

Definition sample_dynamics_transition (self : self) (state : pyval)
    : M (pyval * dict) :=
  h_init ← BaseHamiltonianMonteCarlo.system_h state;
  s ← deref state;
  sum_mom ← (match mom s with
             | Some m => mret m          (* state.mom.copy() *)
             | None => raise AttributeError
             end);
  let sum_weight := lrf_log_val (fneg h_init) in
  let stats : dict :=
    <["n_step" := VInt 0]>
    (<["divergent" := VBool false]>
    (<["sum_acc_prob" := VFloat (of_Z 0)]> ∅)) in
  state_l ← copy state;
  state_r ← copy state;
  (* set integration directions of initial left and right tree leaves *)
  update state_l (set_dir (-1));;
  update state_r (set_dir 1);;
  v ← doubling_loop self state h_init
        (seq 0 (Z.to_nat (max_tree_depth self)))
        {| var_depth := None; var_state_n := state; var_state_l := state_l;
           var_state_r := state_r; var_sum_mom := sum_mom;
           var_sum_weight := sum_weight; var_stats := stats |};
  n_step ← getitem (var_stats v) "n_step";
  stats ← (if val_positive n_step then
             sum_acc_prob ← getitem (var_stats v) "sum_acc_prob";
             mret (stats_set (var_stats v) "accept_prob"
                     (val_truediv sum_acc_prob n_step))
           else mret (stats_set (var_stats v) "accept_prob" (VFloat (of_Z 0))));
  hamiltonian ← BaseHamiltonianMonteCarlo.system_h (var_state_n v);
  let stats := stats_set stats "hamiltonian" (VFloat hamiltonian) in
  match var_depth v with
  | None => raise (UnboundLocalError "depth")
  | Some depth =>
      let stats := stats_set stats "tree_depth" (VInt (Z.of_nat depth)) in
      mret (var_state_n v, stats)
  end.

Definition methods (self : self) : BaseHamiltonianMonteCarlo.methods := {|
  BaseHamiltonianMonteCarlo.self_sample_momentum_transition :=
    BaseHamiltonianMonteCarlo.sample_momentum_transition;
  BaseHamiltonianMonteCarlo.self_sample_dynamics_transition :=
    sample_dynamics_transition self;
  BaseHamiltonianMonteCarlo.self_initialise_chain_stats :=
    initialise_chain_stats;
  BaseHamiltonianMonteCarlo.self_update_chain_stats :=
    update_chain_stats;
|}.
End Methods.
End DynamicMultinomialHMC.

(** ** A concrete setting

    Exact rational arithmetic, a one dimensional standard Gaussian target
    with Gaussian momentum, a leapfrog integrator that gives up when the
    position leaves a box, and a generator that replays a recorded list of
    draws.  The examples below run the samplers in this setting. *)

Module Example1D.
(** [sum_{k < n} x^k / k!], the exponential up to the [n]-th term. *)
Fixpoint exp_series (n : nat) (x term acc : Q) (k : Z) : Q :=
  match n with
  | O => Qred acc
  | S n' => exp_series n' x (Qred (term * x / inject_Z k)) (Qred (acc + term))
              (k + 1)
  end.

(** Newton's iteration for the square root. *)
Fixpoint sqrt_newton (n : nat) (x y : Q) : Q :=
  match n with
  | O => y
  | S n' => sqrt_newton n' x (Qred ((y + x / y) / 2))
  end.

#[export] Instance rational : Float64 := {|
  F := Q;
  of_Z := inject_Z;
  fhalf := 1 # 2;
  fadd x y := Qred (x + y);
  fsub x y := Qred (x - y);
  fmul x y := Qred (x * y);
  fdiv x y := Qred (x / y);
  fneg x := Qred (- x);
  fexp x := exp_series 12 x 1 0 1;
  fpow x y :=
    if Qeq_bool y (1 # 2) then sqrt_newton 8 x 1
    else Qred (Qpower x (Qfloor y));
  fltb x y := negb (Qle_bool y x);
  feqb := Qeq_bool;
  to_Z x := Z.quot (Qnum x) (Z.pos (Qden x));
|}.

(** The value itself stands for its logarithmic representation. *)
#[export] Instance direct : LogRepFloatOps := {|
  LogRepFloat := Q;
  lrf_val x := x;
  lrf_log_val x := fexp x;
  lrf_add x y := Qred (x + y);
  lrf_div x y := Qred (x / y);
  float_lt_lrf u a := negb (Qle_bool a u);
|}.

(** The generator hands out the recorded draws in order, and [0] once
    they are used up. *)
Definition next_uniform (r : list Q) : Q * list Q :=
  match r with
  | [] => (0%Q, [])
  | u :: r' => (u, r')
  end.

#[export] Instance replay : RandomStateOps := {|
  RandomState := list Q;
  uniform := next_uniform;
  random_integers lo hi r :=
    let '(u, r') := next_uniform r in
    (lo + Qfloor (u * inject_Z (hi - lo + 1)), r');
|}.

Definition half_square (x : Q) : Q := Qred (x * x / 2).

#[export] Instance gaussian : System := {|
  h s := Qred (foldr Qplus 0%Q (map half_square (pos s))
               + foldr Qplus 0%Q (map half_square (default [] (mom s))));
  dh_dmom s := default [] (mom s);
  sample_momentum s r :=
    foldr (λ _ '(m, r), let '(u, r') := next_uniform r in
                        (Qred (2 * u - 1) :: m, r'))
          ([], r) (pos s);
|}.

(** One leapfrog step of size [1/2] in the direction of the state; the
    step is refused when the new position leaves [[-2, 2]]. *)
Definition leapfrog (s : ChainState) : string + ChainState :=
  let dt := (inject_Z (dir s) * (1 # 2))%Q in
  let m := default [] (mom s) in
  let m1 := zip_with (λ p q, Qred (p - dt / 2 * q)) m (pos s) in
  let q1 := zip_with (λ q p, Qred (q + dt * p)) (pos s) m1 in
  let m2 := zip_with (λ p q, Qred (p - dt / 2 * q)) m1 q1 in
  if forallb (λ q, Qle_bool (-2) q && Qle_bool q 2) q1 then
    inr {| pos := q1; mom := Some m2; dir := dir s; n_dim := n_dim s |}
  else inl "position out of bounds"%string.

#[export] Instance bounded_leapfrog : Integrator := {| step := leapfrog |}.

(** A state at position [1] with momentum [2] (energy [5/2]), and one at
    position [1] with momentum [1/2]. *)
Definition fast : ChainState :=
  {| pos := [1%Q]; mom := Some [2%Q]; dir := 1; n_dim := 1 |}.
Definition slow : ChainState :=
  {| pos := [1%Q]; mom := Some [1 # 2]; dir := 1; n_dim := 1 |}.

Definition world (s : ChainState) (draws : list Q) : World :=
  {| objects := [s]; rng := draws; warnings := [] |}.

Definition slow_1 : ChainState :=
  {| pos := [9 # 8]; mom := Some [-1 # 32]; dir := 1; n_dim := 1 |}.
Definition fast_1 : ChainState :=
  {| pos := [15 # 8]; mom := Some [41 # 32]; dir := 1; n_dim := 1 |}.

Definition fast_back : ChainState := set_dir (-1) fast.

Definition tree_self : DynamicMultinomialHMC.self :=
  {| DynamicMultinomialHMC.max_tree_depth := 2;
     DynamicMultinomialHMC.max_delta_h := 0%Q |}.

Definition default_tree_self : DynamicMultinomialHMC.self :=
  DynamicMultinomialHMC.__init__ None None.
Definition zero_tree_self : DynamicMultinomialHMC.self :=
  DynamicMultinomialHMC.__init__ (Some 0) None.

Definition no_stats : dict :=
  <["n_step" := VInt 0]>
  (<["divergent" := VBool false]>
  (<["sum_acc_prob" := VFloat 0%Q]> ∅)).

(** A leaf built forward from position [1], momentum [2], with
    [max_delta_h = 0] and no step taken so far. *)
Definition divergent_leaf : Res DynamicMultinomialHMC.built :=
  DynamicMultinomialHMC.build_tree tree_self 0 (PState 0) (np_zeros 1)
    (lrf_val (of_Z 0)) no_stats (h fast) (world fast []).

(** A subtree of depth 1 built backward from position [1], momentum [2]
    with [max_delta_h = 0], and its two halves. *)
Definition back_subtree : Res DynamicMultinomialHMC.built :=
  DynamicMultinomialHMC.build_tree tree_self 1 (PState 0) (np_zeros 1)
    (lrf_val (of_Z 0)) no_stats (h fast_back) (world fast_back [1 # 2]).
Definition back_inner : Res DynamicMultinomialHMC.built :=
  DynamicMultinomialHMC.build_tree tree_self 0 (PState 0) (np_zeros 1)
    (lrf_val (of_Z 0)) no_stats (h fast_back) (world fast_back [1 # 2]).
Definition back_outer : Res DynamicMultinomialHMC.built :=
  match back_inner with
  | Ok inner w1 =>
      DynamicMultinomialHMC.build_tree tree_self 0
        (DynamicMultinomialHMC.edge_o inner) (np_zeros 1) (lrf_val (of_Z 0))
        (DynamicMultinomialHMC.stats' inner) (h fast_back) w1
  | Raise e w1 => Raise e w1
  end.

(** A chain of three samples with the static sampler, one step per
    transition, from position [1] and momentum [1/2]. *)
Definition static_chain : Res (list (ndarray Vec) * chain_stats_t) :=
  BaseHamiltonianMonteCarlo.sample_chain
    (StaticMetropolisHMC.methods {| StaticMetropolisHMC.n_step := 1 |})
    3 (PState 0) [BaseHamiltonianMonteCarlo.extract_pos]
    (world slow [1 # 4; 1 # 2; 3 # 4; 1 # 2]).

(** A random integration time sampler that takes one or two steps. *)
Definition one_or_two : RandomMetropolisHMC.self :=
  {| RandomMetropolisHMC.n_step_range := (1, 2) |}.

(** A state at position [1] that has no momentum yet. *)
Definition still : ChainState :=
  {| pos := [1%Q]; mom := None; dir := 1; n_dim := 1 |}.
End Example1D.

(** ** Vocabulary of the statements *)

Section RunVocabulary.
Context `{RandomStateOps}.

(** Whether a run returned. *)
Definition returned {A} (r : Res A) : bool :=
  match r with Ok _ _ => true | Raise _ _ => false end.

(** The number of cells of the statistics array [key] of a run. *)
Definition stat_len (key : string)
    (r : Res (list (ndarray Vec) * chain_stats_t)) : option nat :=
  match r with
  | Ok (_, chain_stats) _ =>
      match chain_stats !! key with
      | Some (_, a) => Some (len a)
      | None => None
      end
  | Raise _ _ => None
  end.

End RunVocabulary.

Section TreeVocabulary.
Context `{System} `{!Integrator} `{!LogRepFloatOps}.
Import DynamicMultinomialHMC.

(** A variable that holds a state object of the store. *)
Definition live (w : World) (v : pyval) : Prop :=
  ∃ l s, v = PState l ∧ objects w !! l = Some s.

(** The most steps the doublings at the given depths can take. *)
Definition sum_pow2 (depths : list nat) : Z :=
  foldr (λ d acc, 2 ^ Z.of_nat d + acc) 0 depths.

(** The statistics a leaf leaves behind when its step succeeded with
    energy [e], starting from [n] steps and the sum [a]. *)
Definition leaf_stats (self : self) (stats : dict) (h_init e : F) (n : Z)
    (a : val) : dict :=
  let counted :=
    <["n_step" := VInt (n + 1)]>
      (<["sum_acc_prob" :=
           val_add a (VFloat (fmin_1 (fexp (fsub h_init e))))]> stats) in
  if fltb (max_delta_h self) (fsub e h_init)
  then <["divergent" := VBool true]> counted
  else counted.

(** The variables of a transition when the doubling loop starts. *)
Definition initial_locals (l : nat) (s : ChainState) (m : Vec) (w : World)
    : locals :=
  {| var_depth := None;
     var_state_n := PState l;
     var_state_l := PState (length (objects w));
     var_state_r := PState (S (length (objects w)));
     var_sum_mom := m;
     var_sum_weight := lrf_log_val (fneg (h s));
     var_stats := <["n_step" := VInt 0]>
                  (<["divergent" := VBool false]>
                  (<["sum_acc_prob" := VFloat (of_Z 0)]> ∅)) |}.

(** The store when the doubling loop starts: the two edge states are
    copies of the chain state, pointing backward and forward. *)
Definition initial_world (s : ChainState) (w : World) : World :=
  {| objects := objects w ++ [set_dir (-1) s; set_dir 1 s];
     rng := rng w; warnings := warnings w |}.

(** What remains of a transition once the doubling loop is done. *)
Definition finish (v : locals) : M (pyval * dict) :=
  n_step ← getitem (var_stats v) "n_step";
  stats ← (if val_positive n_step then
             sum_acc_prob ← getitem (var_stats v) "sum_acc_prob";
             mret (stats_set (var_stats v) "accept_prob"
                     (val_truediv sum_acc_prob n_step))
           else mret (stats_set (var_stats v) "accept_prob" (VFloat (of_Z 0))));
  hamiltonian ← BaseHamiltonianMonteCarlo.system_h (var_state_n v);
  let stats := stats_set stats "hamiltonian" (VFloat hamiltonian) in
  match var_depth v with
  | None => raise (UnboundLocalError "depth")
  | Some depth =>
      let stats := stats_set stats "tree_depth" (VInt (Z.of_nat depth)) in
      mret (var_state_n v, stats)
  end.

(** What a build reports: the termination flag, the proposal, the step
    count and the divergence flag. *)
Definition report (r : Res DynamicMultinomialHMC.built)
    : option (bool * pyval * option val * option val) :=
  match r with
  | Ok b _ =>
      Some (DynamicMultinomialHMC.terminate b,
            DynamicMultinomialHMC.proposal b,
            DynamicMultinomialHMC.stats' b !! "n_step",
            DynamicMultinomialHMC.stats' b !! "divergent")
  | Raise _ _ => None
  end.

End TreeVocabulary.

Section StatsVocabulary.
Context `{System}.

(** How often each cell of each statistics array was stored into. *)
Definition write_counts (chain_stats : chain_stats_t)
    : gmap string (list nat) :=
  (λ ta, length <$> cells ta.2) <$> chain_stats.

(** [n] cells, the first [k] stored into once, the others never. *)
Definition filled (k n : nat) : list nat :=
  replicate k 1%nat ++ replicate (n - k) 0%nat.

(** The sampler classes share two ways of keeping statistics. *)
Definition metropolis_stats (self : BaseHamiltonianMonteCarlo.methods)
    `{!Integrator} : Prop :=
  BaseHamiltonianMonteCarlo.self_initialise_chain_stats self
    = BaseMetropolisHMC.initialise_chain_stats ∧
  BaseHamiltonianMonteCarlo.self_update_chain_stats self
    = BaseMetropolisHMC.update_chain_stats.
Definition dynamic_stats (self : BaseHamiltonianMonteCarlo.methods)
    `{!Integrator} `{!LogRepFloatOps} : Prop :=
  BaseHamiltonianMonteCarlo.self_initialise_chain_stats self
    = DynamicMultinomialHMC.initialise_chain_stats ∧
  BaseHamiltonianMonteCarlo.self_update_chain_stats self
    = DynamicMultinomialHMC.update_chain_stats.

(** The counts of a Metropolis chain of [n] samples after [k]
    transitions. *)
Definition metropolis_counts (n k : nat) : gmap string (list nat) :=
  <["hamiltonian" := filled (S k) n]>
  (<["n_step" := filled k (n - 1)]>
  (<["accept_prob" := filled k (n - 1)]> ∅)).

(** The counts of a dynamic chain of [n] samples after [k] transitions. *)
Definition dynamic_counts (n k : nat) : gmap string (list nat) :=
  <["hamiltonian" := filled (S k) n]>
  (<["n_step" := filled k (n - 1)]>
  (<["accept_prob" := filled k (n - 1)]>
  (<["tree_depth" := filled k (n - 1)]>
  (<["divergent" := filled k (n - 1)]> ∅)))).

End StatsVocabulary.

(** ** Further vocabulary *)

Section TransitionVocabulary.
Context `{System}.

(** The statistics a Metropolis transition hands back. *)
Definition metropolis_trans_stats (hamiltonian : F) (accept_prob : val)
    (n_step : Z) : dict :=
  <["hamiltonian" := VFloat hamiltonian]>
  (<["accept_prob" := accept_prob]>
  (<["n_step" := VInt n_step]> (∅ : dict))).

(** A state with its direction negated, as [state.dir *= -1] leaves it. *)
Definition negated (s : ChainState) : ChainState :=
  set_dir (dir s * -1) s.

(** The acceptance probability of a proposal [sp] (before its direction is
    negated) from the state [s]. *)
Definition metropolis_accept_prob (s sp : ChainState) : val :=
  min_1 (fexp (fsub (h s) (h (negated sp)))).
End TransitionVocabulary.

Section ChainVocabulary.
Context `{System}.

(** The world after the first statement of [sample_chain]: a chain state
    without a momentum has been given one. *)
Definition with_momentum (l : nat) (s : ChainState) (w : World) : World :=
  match mom s with
  | Some _ => w
  | None =>
      {| objects := <[l := set_mom (sample_momentum s (rng w)).1 s]> (objects w);
         rng := (sample_momentum s (rng w)).2;
         warnings := warnings w |}
  end.

(** Functions for [chain_var_funcs] that have a value on every state. *)
Definition accepts_all (chain_var_funcs : list (ChainState → option Vec))
    : Prop :=
  ∀ f s, f ∈ chain_var_funcs → is_Some (f s).
End ChainVocabulary.

(** * Properties *)

(** ** Running monadic code *)

Section Running.
Context `{RandomStateOps}.

Lemma bind_Ok {A B} (m : M A) (k : A → M B) w a w' :
  m w = Ok a w' → (m ≫= k) w = k a w'.
Proof. intros E. unfold mbind, M_bind. by rewrite E. Qed.

Lemma bind_Raise {A B} (m : M A) (k : A → M B) w e w' :
  m w = Raise e w' → (m ≫= k) w = Raise e w'.
Proof. intros E. unfold mbind, M_bind. by rewrite E. Qed.

Lemma bind_Ok_inv {A B} (m : M A) (k : A → M B) w b w2 :
  (m ≫= k) w = Ok b w2 → ∃ a w1, m w = Ok a w1 ∧ k a w1 = Ok b w2.
Proof.
  unfold mbind, M_bind. destruct (m w) as [a w1|e w1]; [eauto | done].
Qed.

Lemma deref_Ok l s w :
  objects w !! l = Some s → deref (PState l) w = Ok s w.
Proof. intros E. unfold deref. by rewrite E. Qed.

Lemma update_Ok l s f w :
  objects w !! l = Some s →
  update (PState l) f w =
    Ok tt {| objects := <[l := f s]> (objects w);
             rng := rng w; warnings := warnings w |}.
Proof. intros E. unfold update. by rewrite E. Qed.

Lemma set_dir_twice (s : ChainState) :
  set_dir (dir (set_dir (dir s * -1) s) * -1) (set_dir (dir s * -1) s) = s.
Proof.
  destruct s as [p m d n]. unfold set_dir. simpl. f_equal. lia.
Qed.
End Running.

(** ** Construction of the random integration time sampler *)

(** C8. [RandomMetropolisHMC.__init__] fails its assertion on a range
    [(lo, hi)] with [lo >= hi] or [lo <= 0], and builds the sampler with
    that range for every [0 < lo < hi]. *)
Theorem random_metropolis_init_range (lo hi : Z) :
  (lo >= hi ∨ lo <= 0 →
     RandomMetropolisHMC.__init__ (lo, hi) = inl AssertionError) ∧
  (0 < lo < hi →
     RandomMetropolisHMC.__init__ (lo, hi) =
       inr {| RandomMetropolisHMC.n_step_range := (lo, hi) |}).
Proof.
  unfold RandomMetropolisHMC.__init__. split.
  - intros Hbad.
    destruct (Z.gtb_spec lo 0), (Z.ltb_spec lo hi); simpl; try done; lia.
  - intros [Hlo Hhi].
    destruct (Z.gtb_spec lo 0), (Z.ltb_spec lo hi); simpl; try done; lia.
Qed.

Lemma random_metropolis_init_range_witness :
  RandomMetropolisHMC.__init__ (5, 3) = inl AssertionError ∧
  RandomMetropolisHMC.__init__ (0, 5) = inl AssertionError ∧
  RandomMetropolisHMC.__init__ (3, 5) =
    inr {| RandomMetropolisHMC.n_step_range := (3, 5) |}.
Proof.
  split; [| split].
  - apply (random_metropolis_init_range 5 3). left. lia.
  - apply (random_metropolis_init_range 0 5). right. lia.
  - apply (random_metropolis_init_range 3 5). lia.
Defined.

(** ** The Metropolis transition *)

Section Metropolis.
Context `{System} `{!Integrator}.
Import BaseMetropolisHMC.

Lemma system_h_Ok l s w :
  objects w !! l = Some s →
  BaseHamiltonianMonteCarlo.system_h (PState l) w = Ok (h s) w.
Proof.
  intros Hl. unfold BaseHamiltonianMonteCarlo.system_h.
  by rewrite (bind_Ok _ _ _ _ _ (deref_Ok _ _ _ Hl)).
Qed.

Lemma negate_dir_Ok l s w :
  objects w !! l = Some s →
  negate_dir (PState l) w =
    Ok tt {| objects := <[l := set_dir (dir s * -1) s]> (objects w);
             rng := rng w; warnings := warnings w |}.
Proof. intros Hl. unfold negate_dir. by rewrite (update_Ok _ _ _ _ Hl). Qed.

Lemma rng_uniform_Ok w :
  rng_uniform w =
    Ok (uniform (rng w)).1
       {| objects := objects w; rng := (uniform (rng w)).2;
          warnings := warnings w |}.
Proof. unfold rng_uniform, draw. by destruct (uniform (rng w)). Qed.

Lemma integrator_step_Ok l s s' w :
  objects w !! l = Some s → step s = inr s' →
  integrator_step (PState l) w =
    Ok (PState (length (objects w)))
       {| objects := objects w ++ [s']; rng := rng w;
          warnings := warnings w |}.
Proof.
  intros Hl Hs. unfold integrator_step.
  rewrite (bind_Ok _ _ _ _ _ (deref_Ok _ _ _ Hl)). by rewrite Hs.
Qed.

Lemma integrator_step_Raise l s msg w :
  objects w !! l = Some s → step s = inl msg →
  integrator_step (PState l) w = Raise (RuntimeError msg) w.
Proof.
  intros Hl Hs. unfold integrator_step.
  rewrite (bind_Ok _ _ _ _ _ (deref_Ok _ _ _ Hl)). by rewrite Hs.
Qed.

(** A loop whose steps all succeed ends with the last state the
    integrator made, a new object unless the range was empty; the objects
    that were there are untouched. *)
Lemma integrate_Completed s_range : ∀ l s w sp,
  objects w !! l = Some s →
  run_steps (length s_range) s = inr sp →
  ∃ lp extra,
    integrate s_range (PState l) w =
      Ok (Completed (PState lp))
         {| objects := objects w ++ extra; rng := rng w;
            warnings := warnings w |} ∧
    (objects w ++ extra) !! lp = Some sp ∧
    (s_range = [] → lp = l ∧ extra = []) ∧
    (s_range ≠ [] → (length (objects w) ≤ lp)%nat).
Proof.
  induction s_range as [|i rest IH]; intros l s w sp Hl Hrun.
  - simpl in Hrun. injection Hrun as <-. exists l, [].
    rewrite app_nil_r. destruct w; simpl in *. done.
  - simpl in Hrun. destruct (step s) as [msg|s1] eqn:Hs; [done|].
    set (w1 := {| objects := objects w ++ [s1]; rng := rng w;
                  warnings := warnings w |}).
    assert (Hl1 : objects w1 !! length (objects w) = Some s1).
    { simpl. rewrite lookup_app_r by lia. by rewrite Nat.sub_diag. }
    destruct (IH _ _ w1 sp Hl1 Hrun) as (lp & extra & Hi & Hlp & Hnil & Hcons).
    exists lp, (s1 :: extra). simpl in Hi, Hlp.
    rewrite <- app_assoc in Hi, Hlp. simpl in Hi, Hlp.
    split; [|split; [done|split; [done|]]].
    + simpl. unfold mbind at 1, M_bind, try_RuntimeError.
      rewrite (integrator_step_Ok _ _ _ _ Hl Hs). exact Hi.
    + intros _. destruct rest as [|j rest'].
      * destruct (Hnil eq_refl) as [-> _]. lia.
      * assert (Hne : j :: rest' ≠ []) by done.
        specialize (Hcons Hne). simpl in Hcons.
        rewrite length_app in Hcons. simpl in Hcons. lia.
Qed.

(** A loop whose step number [k] (counting from 0) is the first to fail
    ends in the handler with the loop variable at the [k]-th element of
    the range. *)
Lemma integrate_Failed s_range : ∀ l s w k sk msg i,
  objects w !! l = Some s →
  s_range !! k = Some i →
  run_steps k s = inr sk →
  step sk = inl msg →
  ∃ extra,
    integrate s_range (PState l) w =
      Ok (Failed i msg)
         {| objects := objects w ++ extra; rng := rng w;
            warnings := warnings w |}.
Proof.
  induction s_range as [|j rest IH]; intros l s w k sk msg i Hl Hk Hrun Hf.
  - done.
  - destruct k as [|k'].
    + simpl in Hk, Hrun. injection Hk as ->. injection Hrun as <-.
      exists []. simpl. unfold mbind at 1, M_bind, try_RuntimeError.
      rewrite (integrator_step_Raise _ _ _ _ Hl Hf).
      rewrite app_nil_r. by destruct w.
    + simpl in Hk, Hrun. destruct (step s) as [?|s1] eqn:Hs; [done|].
      set (w1 := {| objects := objects w ++ [s1]; rng := rng w;
                    warnings := warnings w |}).
      assert (Hl1 : objects w1 !! length (objects w) = Some s1).
      { simpl. rewrite lookup_app_r by lia. by rewrite Nat.sub_diag. }
      destruct (IH _ _ w1 _ _ _ _ Hl1 Hk Hrun Hf) as (extra & Hi).
      exists (s1 :: extra). simpl in Hi. rewrite <- app_assoc in Hi.
      simpl. unfold mbind at 1, M_bind, try_RuntimeError.
      rewrite (integrator_step_Ok _ _ _ _ Hl Hs). exact Hi.
Qed.

Lemma run_steps_dir k : ∀ s sp,
  (∀ a b, step a = inr b → dir b = dir a) →
  run_steps k s = inr sp → dir sp = dir s.
Proof.
  induction k as [|k IH]; intros s sp Hkeep Hrun; simpl in Hrun.
  - by injection Hrun as <-.
  - destruct (step s) as [?|s1] eqn:Hs; [done|].
    rewrite (IH _ _ Hkeep Hrun). by apply Hkeep.
Qed.

(** C9. A static transition with [n_step = 0] on a state object returns
    normally, and returns that same object with position, momentum and
    direction as they were: the direction is negated twice, whatever the
    accept decision. *)
Theorem static_zero_steps_noop l s w :
  objects w !! l = Some s →
  ∃ stats w',
    StaticMetropolisHMC.sample_dynamics_transition
      {| StaticMetropolisHMC.n_step := 0 |} (PState l) w
    = Ok (PState l, stats) w' ∧
    objects w' = objects w ∧
    objects w' !! l = Some s ∧
    stats !! "n_step" = Some (VInt 0).
Proof.
  intros Hl.
  unfold StaticMetropolisHMC.sample_dynamics_transition,
    _sample_dynamics_transition.
  rewrite (bind_Ok _ _ _ _ _ (system_h_Ok _ _ _ Hl)).
  change (integrate (seqZ 0 (StaticMetropolisHMC.n_step _)) (PState l))
    with (mret (M := M) (Completed (PState l))).
  unfold mbind at 1, M_bind. unfold mret at 1, M_ret.
  rewrite (bind_Ok _ _ _ _ _ (negate_dir_Ok _ _ _ Hl)).
  set (s1 := set_dir (dir s * -1) s).
  set (w1 := {| objects := <[l:=s1]> (objects w); rng := rng w;
                warnings := warnings w |}).
  assert (Hlen : (l < length (objects w))%nat) by by eapply lookup_lt_Some.
  assert (Hl1 : objects w1 !! l = Some s1).
  { simpl. by apply list_lookup_insert_eq. }
  rewrite (bind_Ok _ _ _ _ _ (system_h_Ok _ _ _ Hl1)).
  rewrite (bind_Ok _ _ _ _ _ (rng_uniform_Ok _)).
  set (u := (uniform (rng w1)).1). set (r := (uniform (rng w1)).2).
  set (w2 := {| objects := objects w1; rng := r; warnings := warnings w1 |}).
  assert (Hsame :
    (if float_lt_val u (min_1 (fexp (fsub (h s) (h s1))))
     then PState l else PState l) = PState l) by by destruct float_lt_val.
  rewrite Hsame.
  assert (Hl2 : objects w2 !! l = Some s1) by done.
  rewrite (bind_Ok _ _ _ _ _ (negate_dir_Ok _ _ _ Hl2)).
  assert (Hback : <[l:=set_dir (dir s1 * -1) s1]> (objects w2) = objects w).
  { change (objects w2) with (<[l:=s1]> (objects w)).
    rewrite list_insert_insert_eq. unfold s1. rewrite set_dir_twice.
    by apply list_insert_id. }
  rewrite Hback.
  change (warnings w2) with (warnings w). change (rng w2) with r.
  set (w3 := {| objects := objects w; rng := r; warnings := warnings w |}).
  assert (Hl3 : objects w3 !! l = Some s) by done.
  rewrite (bind_Ok _ _ _ _ _ (system_h_Ok _ _ _ Hl3)).
  unfold mret, M_ret. eexists _, _. split; [reflexivity|].
  split; [done|]. split; [done|].
  by rewrite lookup_insert_ne, lookup_insert_ne, lookup_insert_eq.
Qed.

(** C3. A Metropolis transition of [n_step >= 1] steps, none of which
    fails, with an integrator whose steps keep the direction: the draw [u]
    is compared with [min(1, exp(h_init - h_final))]; when the proposal is
    accepted the returned state is the proposal and its direction is the
    one the chain state had before the transition, when it is rejected the
    returned state is the chain state with its direction negated. *)
Theorem metropolis_direction_bookkeeping l s n_step w sp :
  (∀ a b, step a = inr b → dir b = dir a) →
  1 ≤ n_step →
  objects w !! l = Some s →
  run_steps (Z.to_nat n_step) s = inr sp →
  let accept_prob :=
    min_1 (fexp (fsub (h s) (h (set_dir (dir sp * -1) sp)))) in
  let u := (uniform (rng w)).1 in
  ∃ state' stats w' s',
    _sample_dynamics_transition (PState l) n_step w = Ok (state', stats) w' ∧
    stats !! "accept_prob" = Some accept_prob ∧
    deref state' w' = Ok s' w' ∧
    (float_lt_val u accept_prob = true →
       state' ≠ PState l ∧ dir s' = dir s) ∧
    (float_lt_val u accept_prob = false →
       state' = PState l ∧ dir s' = - dir s).
Proof.
  intros Hkeep Hn Hl Hrun accept_prob u.
  assert (Hlen : (l < length (objects w))%nat) by by eapply lookup_lt_Some.
  assert (Hrun' : run_steps (length (seqZ 0 n_step)) s = inr sp)
    by by rewrite length_seqZ.
  destruct (integrate_Completed _ _ _ _ _ Hl Hrun')
    as (lp & extra & Hi & Hlp & _ & Hfresh).
  assert (Hne : seqZ 0 n_step ≠ []).
  { intros E. apply (f_equal length) in E. rewrite length_seqZ in E.
    simpl in E. lia. }
  specialize (Hfresh Hne).
  assert (Hdir : dir sp = dir s) by by eapply run_steps_dir.
  unfold _sample_dynamics_transition.
  rewrite (bind_Ok _ _ _ _ _ (system_h_Ok _ _ _ Hl)).
  rewrite (bind_Ok _ _ _ _ _ Hi).
  set (w1 := {| objects := objects w ++ extra; rng := rng w;
                warnings := warnings w |}) in *.
  assert (Hlp1 : objects w1 !! lp = Some sp) by done.
  rewrite (bind_Ok _ _ _ _ _ (negate_dir_Ok _ _ _ Hlp1)).
  set (sp1 := set_dir (dir sp * -1) sp).
  set (w2 := {| objects := <[lp:=sp1]> (objects w1); rng := rng w1;
                warnings := warnings w1 |}).
  assert (Hlplen : (lp < length (objects w1))%nat) by by eapply lookup_lt_Some.
  assert (Hlp2 : objects w2 !! lp = Some sp1).
  { simpl. by apply list_lookup_insert_eq. }
  assert (Hl2 : objects w2 !! l = Some s).
  { simpl. rewrite list_lookup_insert_ne by lia.
    by apply lookup_app_l_Some. }
  rewrite (bind_Ok _ _ _ _ _ (system_h_Ok _ _ _ Hlp2)).
  rewrite (bind_Ok _ _ _ _ _ (rng_uniform_Ok _)).
  change (uniform (rng w2)).1 with u.
  change (min_1 (fexp (fsub (h s) (h sp1)))) with accept_prob.
  set (w3 := {| objects := objects w2; rng := (uniform (rng w2)).2;
                warnings := warnings w2 |}).
  destruct (float_lt_val u accept_prob) eqn:Hacc; cbv beta iota.
  - (* accepted *)
    assert (Hlp3 : objects w3 !! lp = Some sp1) by done.
    rewrite (bind_Ok _ _ _ _ _ (negate_dir_Ok _ _ _ Hlp3)).
    set (sp2 := set_dir (dir sp1 * -1) sp1).
    set (w4 := {| objects := <[lp:=sp2]> (objects w3); rng := rng w3;
                  warnings := warnings w3 |}).
    assert (Hlp4 : objects w4 !! lp = Some sp2).
    { simpl. apply list_lookup_insert_eq. by rewrite length_insert. }
    rewrite (bind_Ok _ _ _ _ _ (system_h_Ok _ _ _ Hlp4)).
    eexists (PState lp), _, w4, sp2. split; [reflexivity|].
    split; [by rewrite lookup_insert_ne, lookup_insert_eq|].
    split; [by apply deref_Ok|]. split; [|done].
    intros _. split; [intros [= ->]; lia|].
    unfold sp2, sp1. simpl. lia.
  - (* rejected *)
    assert (Hl3 : objects w3 !! l = Some s) by done.
    rewrite (bind_Ok _ _ _ _ _ (negate_dir_Ok _ _ _ Hl3)).
    set (s1 := set_dir (dir s * -1) s).
    set (w4 := {| objects := <[l:=s1]> (objects w3); rng := rng w3;
                  warnings := warnings w3 |}).
    assert (Hl4 : objects w4 !! l = Some s1).
    { simpl. apply list_lookup_insert_eq. rewrite length_insert.
      rewrite length_app. lia. }
    rewrite (bind_Ok _ _ _ _ _ (system_h_Ok _ _ _ Hl4)).
    eexists (PState l), _, w4, s1. split; [reflexivity|].
    split; [by rewrite lookup_insert_ne, lookup_insert_eq|].
    split; [by apply deref_Ok|]. split; [done|].
    intros _. split; [done|]. unfold s1. simpl. lia.
Qed.

(** C4. When the integrator fails at the step after [k] completed ones
    ([0 <= k < n_step]), the Metropolis transition returns normally: it
    hands back the chain state it was given, an object whose position,
    momentum and direction are as before, reports the initial energy, the
    acceptance probability [0] and [n_step = k], and has logged one warning
    with the integrator's message. *)
Theorem metropolis_integrator_failure l s n_step w k sk msg :
  objects w !! l = Some s →
  0 ≤ k < n_step →
  run_steps (Z.to_nat k) s = inr sk →
  step sk = inl msg →
  ∃ w',
    _sample_dynamics_transition (PState l) n_step w =
      Ok (PState l,
          <["hamiltonian" := VFloat (h s)]>
          (<["accept_prob" := VInt 0]>
          (<["n_step" := VInt k]> (∅ : dict)))) w' ∧
    objects w' !! l = Some s ∧
    rng w' = rng w ∧
    warnings w' = TrajectoryIntegratorError msg :: warnings w.
Proof.
  intros Hl Hk Hrun Hfail.
  assert (Hidx : seqZ 0 n_step !! Z.to_nat k = Some k).
  { rewrite lookup_seqZ. split; lia. }
  destruct (integrate_Failed _ _ _ _ _ _ _ _ Hl Hidx Hrun Hfail)
    as (extra & Hi).
  unfold _sample_dynamics_transition.
  rewrite (bind_Ok _ _ _ _ _ (system_h_Ok _ _ _ Hl)).
  rewrite (bind_Ok _ _ _ _ _ Hi).
  eexists. split; [reflexivity|]. simpl.
  split; [by apply lookup_app_l_Some|done].
Qed.
(** Both Metropolis samplers run [_sample_dynamics_transition]: the static
    one with its fixed number of steps, the random one with a number drawn
    from its range. *)
Lemma static_transition_unfold self state :
  StaticMetropolisHMC.sample_dynamics_transition self state =
    _sample_dynamics_transition state (StaticMetropolisHMC.n_step self).
Proof. reflexivity. Qed.

Lemma random_transition_unfold self state w :
  let lo := (RandomMetropolisHMC.n_step_range self).1 in
  let hi := (RandomMetropolisHMC.n_step_range self).2 in
  RandomMetropolisHMC.sample_dynamics_transition self state w =
    _sample_dynamics_transition state (random_integers lo hi (rng w)).1
      {| objects := objects w; rng := (random_integers lo hi (rng w)).2;
         warnings := warnings w |}.
Proof.
  intros lo hi. unfold RandomMetropolisHMC.sample_dynamics_transition.
  unfold mbind at 1, M_bind, rng_random_integers, draw. fold lo hi.
  by destruct (random_integers lo hi (rng w)).
Qed.
End Metropolis.

(** ** The tree builder *)

Section Tree.
Context `{System} `{!Integrator} `{!LogRepFloatOps}.
Import DynamicMultinomialHMC.

Lemma stats_iadd_Ok (stats : dict) k old v w :
  stats !! k = Some old →
  stats_iadd stats k v w = Ok (<[k := val_add old v]> stats) w.
Proof. intros E. unfold stats_iadd, getitem. by rewrite E. Qed.

Lemma leaf_Ok self l s s' m w sum_mom sum_weight stats h_init n a :
  objects w !! l = Some s →
  step s = inr s' →
  mom s' = Some m →
  stats !! "n_step" = Some (VInt n) →
  stats !! "sum_acc_prob" = Some a →
  leaf self (PState l) sum_mom sum_weight stats h_init w =
    Ok {| terminate := fltb (max_delta_h self) (fsub (h s') h_init);
          edge_i := PState (length (objects w));
          edge_o := PState (length (objects w));
          proposal := PState (length (objects w));
          sum_mom' := vec_add sum_mom m;
          sum_weight' := lrf_add sum_weight (lrf_log_val (fneg (h s')));
          stats' := leaf_stats self stats h_init (h s') n a |}
       {| objects := objects w ++ [s'];
          rng := rng w;
          warnings :=
            if fltb (max_delta_h self) (fsub (h s') h_init)
            then BuildTreeDivergence (fsub (h s') h_init) :: warnings w
            else warnings w |}.
Proof.
  intros Hl Hs Hm Hn Ha. unfold leaf.
  rewrite (bind_Ok _ _ _ _ _ (integrator_step_Ok _ _ _ _ Hl Hs)).
  set (w1 := {| objects := objects w ++ [s']; rng := rng w;
                warnings := warnings w |}).
  assert (Hl1 : objects w1 !! length (objects w) = Some s').
  { simpl. rewrite lookup_app_r by lia. by rewrite Nat.sub_diag. }
  rewrite (bind_Ok _ _ _ _ _ (system_h_Ok _ _ _ Hl1)).
  rewrite (bind_Ok _ _ _ _ _ (deref_Ok _ _ _ Hl1)).
  rewrite Hm. rewrite (bind_Ok (mret _) _ _ _ _ eq_refl).
  rewrite (bind_Ok _ _ _ _ _ (stats_iadd_Ok _ _ _ _ _ Ha)).
  assert (Hn1 : <["sum_acc_prob" :=
                    val_add a (VFloat (fmin_1 (fexp (fsub h_init (h s')))))]>
                  stats !! "n_step" = Some (VInt n))
    by by rewrite lookup_insert_ne.
  rewrite (bind_Ok _ _ _ _ _ (stats_iadd_Ok _ _ _ _ _ Hn1)).
  unfold leaf_stats. change (val_add (VInt n) (VInt 1)) with (VInt (n + 1)).
  destruct (fltb (max_delta_h self) (fsub (h s') h_init)); reflexivity.
Qed.

Lemma leaf_Raise self l s msg w sum_mom sum_weight stats h_init :
  objects w !! l = Some s →
  step s = inl msg →
  leaf self (PState l) sum_mom sum_weight stats h_init w =
    Raise (RuntimeError msg) w.
Proof.
  intros Hl Hs. unfold leaf.
  by rewrite (bind_Raise _ _ _ _ _ (integrator_step_Raise _ _ _ _ Hl Hs)).
Qed.

(** C2, as the code has it.  A leaf whose step succeeds with
    [h_leaf - h_init > max_delta_h] ends the build at once: [build_tree]
    at depth 0 returns with the termination flag set, the statistics'
    [divergent] entry is [True], a warning is logged, and the divergent
    step is counted: [n_step] is one more than before the call. *)
Theorem build_tree_divergent_leaf self l s s' m w sum_mom sum_weight stats
    h_init n a :
  objects w !! l = Some s →
  step s = inr s' →
  mom s' = Some m →
  stats !! "n_step" = Some (VInt n) →
  stats !! "sum_acc_prob" = Some a →
  fltb (max_delta_h self) (fsub (h s') h_init) = true →
  ∃ b w',
    build_tree self 0 (PState l) sum_mom sum_weight stats h_init w = Ok b w' ∧
    terminate b = true ∧
    stats' b !! "divergent" = Some (VBool true) ∧
    stats' b !! "n_step" = Some (VInt (n + 1)) ∧
    warnings w' = BuildTreeDivergence (fsub (h s') h_init) :: warnings w.
Proof.
  intros Hl Hs Hm Hn Ha Hdiv. simpl.
  unfold mbind at 1, M_bind, try_RuntimeError.
  rewrite (leaf_Ok _ _ _ _ _ _ _ _ _ _ _ _ Hl Hs Hm Hn Ha).
  unfold mret, M_ret. eexists _, _. split; [reflexivity|].
  simpl. unfold leaf_stats. rewrite Hdiv.
  split; [done|]. split; [by rewrite lookup_insert_eq|].
  split; [|done].
  by rewrite lookup_insert_ne, lookup_insert_eq.
Qed.

Lemma bind_mret_Ok {A B} (a : A) (k : A → M B) w :
  (mret a ≫= k) w = k a w.
Proof. reflexivity. Qed.

Lemma live_app w w' extra v :
  objects w' = objects w ++ extra → live w v → live w' v.
Proof.
  intros E (l & s & -> & Hl). exists l, s. split; [done|].
  rewrite E. by apply lookup_app_l_Some.
Qed.

Lemma termination_criterion_Ok l1 s1 l2 s2 sum_mom w :
  objects w !! l1 = Some s1 →
  objects w !! l2 = Some s2 →
  ∃ t, termination_criterion (PState l1) (PState l2) sum_mom w = Ok t w.
Proof.
  intros H1' H2'. unfold termination_criterion.
  rewrite (bind_Ok _ _ _ _ _ (deref_Ok _ _ _ H1')).
  destruct (fltb (vec_dot (dh_dmom s1) sum_mom) (of_Z 0)).
  - by eexists.
  - rewrite (bind_Ok _ _ _ _ _ (deref_Ok _ _ _ H2')). by eexists.
Qed.

Lemma leaf_stats_n_step self stats h_init e n a :
  leaf_stats self stats h_init e n a !! "n_step" = Some (VInt (n + 1)).
Proof.
  unfold leaf_stats. destruct fltb.
  - by rewrite lookup_insert_ne, lookup_insert_eq.
  - by rewrite lookup_insert_eq.
Qed.

Lemma leaf_stats_sum_acc_prob self stats h_init e n a :
  is_Some (leaf_stats self stats h_init e n a !! "sum_acc_prob").
Proof.
  unfold leaf_stats. destruct fltb.
  - rewrite lookup_insert_ne, lookup_insert_ne, lookup_insert_eq by done.
    by eexists.
  - rewrite lookup_insert_ne, lookup_insert_eq by done. by eexists.
Qed.

(** [build_tree] returns, whatever the depth: it only adds objects, counts
    at most [2^depth] steps, and the states of a tree that did not
    terminate are live objects. *)
Lemma build_tree_total self h_init d : ∀ l s w sum_mom sum_weight stats n a,
  (∀ x y, step x = inr y → is_Some (mom y)) →
  objects w !! l = Some s →
  stats !! "n_step" = Some (VInt n) →
  stats !! "sum_acc_prob" = Some a →
  ∃ b w' extra n',
    build_tree self d (PState l) sum_mom sum_weight stats h_init w
      = Ok b w' ∧
    objects w' = objects w ++ extra ∧
    stats' b !! "n_step" = Some (VInt n') ∧
    n ≤ n' ≤ n + 2 ^ Z.of_nat d ∧
    is_Some (stats' b !! "sum_acc_prob") ∧
    (terminate b = false →
       live w' (edge_i b) ∧ live w' (edge_o b) ∧ live w' (proposal b)).
Proof.
  induction d as [|d IH]; intros l s w sum_mom sum_weight stats n a
    Hmom Hl Hn Ha.
  - cbn [build_tree]. unfold mbind at 1, M_bind, try_RuntimeError.
    destruct (step s) as [msg|s1] eqn:Hs.
    + rewrite (leaf_Raise _ _ _ _ _ _ _ _ _ Hl Hs).
      eexists _, _, [], n. split; [reflexivity|]. simpl.
      rewrite app_nil_r. repeat split; first [done | lia | by eexists].
    + destruct (Hmom _ _ Hs) as [m Hm].
      rewrite (leaf_Ok _ _ _ _ _ _ _ _ _ _ _ _ Hl Hs Hm Hn Ha).
      eexists _, _, [s1], (n + 1). split; [reflexivity|]. simpl.
      split; [done|]. split; [apply leaf_stats_n_step|].
      split; [lia|]. split; [apply leaf_stats_sum_acc_prob|].
      intros _.
      assert (live {| objects := objects w ++ [s1]; rng := rng w;
                      warnings := if fltb (max_delta_h self)
                                        (fsub (h s1) h_init)
                                  then BuildTreeDivergence
                                         (fsub (h s1) h_init) :: warnings w
                                  else warnings w |}
                   (PState (length (objects w)))).
      { exists (length (objects w)), s1. split; [done|]. simpl.
        rewrite lookup_app_r by lia. by rewrite Nat.sub_diag. }
      done.
  - cbn [build_tree].
    rewrite (bind_Ok _ _ _ _ _ (deref_Ok _ _ _ Hl)).
    destruct (IH l s w (np_zeros (n_dim s)) (lrf_val (of_Z 0)) stats n a
                Hmom Hl Hn Ha)
      as (inner & w1 & extra1 & n1 & Hinner & Hobj1 & Hn1 & Hle1 & [a1 Ha1]
          & Hlive1).
    rewrite (bind_Ok _ _ _ _ _ Hinner).
    assert (Hpow : 2 ^ Z.of_nat (S d) = 2 * 2 ^ Z.of_nat d).
    { rewrite Nat2Z.inj_succ. apply Z.pow_succ_r. lia. }
    assert (Hpos : 0 < 2 ^ Z.of_nat d) by (apply Z.pow_pos_nonneg; lia).
    destruct (terminate inner) eqn:Hti.
    + eexists _, w1, extra1, n1. split; [reflexivity|]. simpl.
      repeat split; first [done | lia | by eexists].
    + destruct (Hlive1 eq_refl)
        as (Hli & (lo & so & Heo & Hlo) & Hlp).
      rewrite Heo.
      destruct (IH lo so w1 (np_zeros (n_dim s)) (lrf_val (of_Z 0))
                  (stats' inner) n1 a1 Hmom Hlo Hn1 Ha1)
        as (outer & w2 & extra2 & n2 & Houter & Hobj2 & Hn2 & Hle2 & Ha2
            & Hlive2).
      rewrite (bind_Ok _ _ _ _ _ Houter).
      destruct (terminate outer) eqn:Hto.
      * eexists _, w2, (extra1 ++ extra2), n2. split; [reflexivity|].
        simpl. rewrite Hobj2, Hobj1, app_assoc.
        repeat split; first [done | lia | by eexists].
      * destruct (Hlive2 eq_refl) as (_ & Hlo2 & Hlp2).
        rewrite (bind_Ok _ _ _ _ _ (rng_uniform_Ok _)).
        set (w3 := {| objects := objects w2; rng := (uniform (rng w2)).2;
                      warnings := warnings w2 |}).
        assert (Hobj3 : objects w3 = objects w1 ++ extra2) by done.
        pose proof (live_app _ _ _ _ Hobj3 Hli) as (li & si & Hei & Hli3).
        assert (Hobj23 : objects w3 = objects w2 ++ []) by
          by rewrite app_nil_r.
        pose proof (live_app _ _ _ _ Hobj23 Hlo2) as (lo2 & so2 & Heo2 & Hlo3).
        rewrite Hei, Heo2.
        destruct (termination_criterion_Ok li si lo2 so2
                    (vec_add (sum_mom' inner) (sum_mom' outer)) w3 Hli3 Hlo3)
          as [t Ht].
        rewrite (bind_Ok _ _ _ _ _ Ht).
        eexists _, w3, (extra1 ++ extra2), n2. split; [reflexivity|].
        simpl. rewrite Hobj2, Hobj1, app_assoc.
        split; [done|]. split; [done|]. split; [lia|]. split; [done|].
        intros _. split; [by exists li, si|].
        split; [by exists lo2, so2|].
        destruct float_lt_lrf.
        -- eapply live_app; [exact Hobj23 | exact Hlp2].
        -- eapply live_app; [exact Hobj3 | exact Hlp].
Qed.

(** Whatever the doubling loop did, the loop variable it leaves behind is
    one of the depths it was given, unless there was none. *)
Lemma doubling_loop_depth self state h_init depths : ∀ v w v' w',
  doubling_loop self state h_init depths v w = Ok v' w' →
  (depths = [] ∧ v' = v) ∨ (∃ d, d ∈ depths ∧ var_depth v' = Some d).
Proof.
  induction depths as [|d rest IH]; intros v w v' w' Hrun.
  - left. by injection Hrun as <- _.
  - right. cbn [doubling_loop] in Hrun.
    apply bind_Ok_inv in Hrun as (u & w1 & _ & Hrun).
    apply bind_Ok_inv in Hrun as (s & w2 & _ & Hrun).
    apply bind_Ok_inv in Hrun as (b & w3 & _ & Hrun).
    destruct (terminate b).
    { injection Hrun as <- _. exists d. split; [left|done]. }
    apply bind_Ok_inv in Hrun as (u' & w4 & _ & Hrun).
    apply bind_Ok_inv in Hrun as (stop & w5 & _ & Hrun).
    destruct stop.
    { injection Hrun as <- _. exists d. split; [left|done]. }
    apply IH in Hrun as [[-> ->]|(d' & Hd' & Hv')].
    + exists d. split; [left|done].
    + exists d'. split; [by right|done].
Qed.

(** The depth a transition records, when it returns, is the loop variable:
    one of [0, ..., max_tree_depth - 1]. *)
Lemma transition_tree_depth self state w state' stats w' :
  sample_dynamics_transition self state w = Ok (state', stats) w' →
  ∃ d : nat, stats !! "tree_depth" = Some (VInt (Z.of_nat d)) ∧
             (d < Z.to_nat (max_tree_depth self))%nat.
Proof.
  unfold sample_dynamics_transition. intros Hrun.
  apply bind_Ok_inv in Hrun as (h_init & w1 & _ & Hrun).
  apply bind_Ok_inv in Hrun as (s & w2 & _ & Hrun).
  apply bind_Ok_inv in Hrun as (sum_mom & w3 & _ & Hrun).
  apply bind_Ok_inv in Hrun as (state_l & w4 & _ & Hrun).
  apply bind_Ok_inv in Hrun as (state_r & w5 & _ & Hrun).
  apply bind_Ok_inv in Hrun as ([] & w6 & _ & Hrun).
  apply bind_Ok_inv in Hrun as ([] & w7 & _ & Hrun).
  apply bind_Ok_inv in Hrun as (v & w8 & Hloop & Hrun).
  apply bind_Ok_inv in Hrun as (n_step & w9 & _ & Hrun).
  apply bind_Ok_inv in Hrun as (stats1 & w10 & _ & Hrun).
  apply bind_Ok_inv in Hrun as (hamiltonian & w11 & _ & Hrun).
  apply doubling_loop_depth in Hloop as [[_ ->]|(d & Hd & Hv)].
  - done.
  - rewrite Hv in Hrun. injection Hrun as _ <- _.
    exists d. split; [apply lookup_insert_eq|].
    apply elem_of_seq in Hd. lia.
Qed.

Lemma sum_pow2_nonneg depths : 0 ≤ sum_pow2 depths.
Proof.
  induction depths as [|d rest IH]; simpl; [lia|].
  assert (0 < 2 ^ Z.of_nat d) by (apply Z.pow_pos_nonneg; lia). lia.
Qed.

Lemma sum_pow2_seq k : ∀ a,
  sum_pow2 (seq a k) = 2 ^ Z.of_nat (a + k) - 2 ^ Z.of_nat a.
Proof.
  induction k as [|k IH]; intros a; simpl.
  - rewrite Nat.add_0_r. lia.
  - rewrite IH. replace (a + S k)%nat with (S a + k)%nat by lia.
    replace (Z.of_nat (S a)) with (Z.succ (Z.of_nat a)) by lia.
    rewrite (Z.pow_succ_r 2 (Z.of_nat a)) by lia. lia.
Qed.

(** The doubling loop returns, with a live candidate state and a step
    count bounded by the sizes of the trees it may have built. *)
Lemma doubling_loop_total self h_init l s depths : ∀ v w n,
  (∀ x y, step x = inr y → is_Some (mom y)) →
  objects w !! l = Some s →
  live w (var_state_l v) → live w (var_state_r v) → live w (var_state_n v) →
  var_stats v !! "n_step" = Some (VInt n) →
  is_Some (var_stats v !! "sum_acc_prob") →
  ∃ v' w' n',
    doubling_loop self (PState l) h_init depths v w = Ok v' w' ∧
    live w' (var_state_n v') ∧
    var_stats v' !! "n_step" = Some (VInt n') ∧
    n ≤ n' ≤ n + sum_pow2 depths ∧
    is_Some (var_stats v' !! "sum_acc_prob").
Proof.
  induction depths as [|d rest IH]; intros v w n Hmom Hl Hvl Hvr Hvn Hn Ha.
  - exists v, w, n. simpl. split; [done|]. split; [done|].
    split; [done|]. split; [lia|done].
  - cbn [doubling_loop].
    pose proof (sum_pow2_nonneg rest) as Hrest.
    assert (Hpos : 0 < 2 ^ Z.of_nat d) by (apply Z.pow_pos_nonneg; lia).
    change (sum_pow2 (d :: rest)) with (2 ^ Z.of_nat d + sum_pow2 rest).
    rewrite (bind_Ok _ _ _ _ _ (rng_uniform_Ok _)).
    set (u := (uniform (rng w)).1).
    set (w1 := {| objects := objects w; rng := (uniform (rng w)).2;
                  warnings := warnings w |}).
    assert (Hl1 : objects w1 !! l = Some s) by done.
    rewrite (bind_Ok _ _ _ _ _ (deref_Ok _ _ _ Hl1)).
    set (right := 2 * (if fltb u fhalf then 1 else 0) - 1 =? 1).
    assert (Hedge : live w1 (if right then var_state_r v else var_state_l v))
      by by destruct right.
    destruct Ha as [a Ha].
    assert (Hbuild : ∃ b w2 extra n1,
      (if right
       then build_tree self d (var_state_r v) (np_zeros (n_dim s))
              (lrf_val (of_Z 0)) (var_stats v) h_init
       else build_tree self d (var_state_l v) (np_zeros (n_dim s))
              (lrf_val (of_Z 0)) (var_stats v) h_init) w1 = Ok b w2 ∧
      objects w2 = objects w1 ++ extra ∧
      stats' b !! "n_step" = Some (VInt n1) ∧
      n ≤ n1 ≤ n + 2 ^ Z.of_nat d ∧
      is_Some (stats' b !! "sum_acc_prob") ∧
      (terminate b = false →
         live w2 (edge_i b) ∧ live w2 (edge_o b) ∧ live w2 (proposal b))).
    { destruct Hedge as (le & se & He & Hle).
      destruct right; rewrite He;
        exact (build_tree_total self h_init d le se w1 _ _ _ n a
                 Hmom Hle Hn Ha). }
    destruct Hbuild as (b & w2 & extra & n1 & Hb & Hobj2 & Hn1 & Hle1 & Ha1
                        & Hlive).
    rewrite (bind_Ok _ _ _ _ _ Hb).
    destruct (terminate b) eqn:Ht.
    + eexists _, w2, n1. split; [reflexivity|]. simpl.
      split; [by eapply live_app|]. split; [done|]. split; [lia|done].
    + destruct (Hlive eq_refl) as (_ & Hlo & Hlp).
      rewrite (bind_Ok _ _ _ _ _ (rng_uniform_Ok _)).
      set (w3 := {| objects := objects w2; rng := (uniform (rng w2)).2;
                    warnings := warnings w2 |}).
      assert (Hobj3 : objects w3 = objects w1 ++ extra) by done.
      assert (Hobj23 : objects w3 = objects w2 ++ []) by
        by rewrite app_nil_r.
      assert (Hnl : live w3 (if right then var_state_l v else edge_o b)).
      { destruct right; [eapply live_app; [exact Hobj3|done]|].
        eapply live_app; [exact Hobj23|done]. }
      assert (Hnr : live w3 (if right then edge_o b else var_state_r v)).
      { destruct right; [|eapply live_app; [exact Hobj3|done]].
        eapply live_app; [exact Hobj23|done]. }
      destruct Hnl as (l1 & s1 & He1 & Hl1'). destruct Hnr as (l2 & s2 & He2 & Hl2').
      rewrite He1, He2.
      destruct (termination_criterion_Ok l1 s1 l2 s2
                  (vec_add (var_sum_mom v) (sum_mom' b)) w3 Hl1' Hl2')
        as [t Hterm].
      rewrite (bind_Ok _ _ _ _ _ Hterm).
      set (state_n :=
        if float_lt_lrf (uniform (rng w2)).1
             (lrf_div (sum_weight' b) (var_sum_weight v))
        then proposal b else var_state_n v).
      assert (Hnn : live w3 state_n).
      { unfold state_n. destruct float_lt_lrf.
        - eapply live_app; [exact Hobj23|done].
        - eapply live_app; [exact Hobj3|done]. }
      destruct t.
      * eexists _, w3, n1. split; [reflexivity|]. simpl.
        split; [done|]. split; [done|]. split; [lia|done].
      * set (v1 := {| var_depth := Some d; var_state_n := state_n;
                      var_state_l := PState l1; var_state_r := PState l2;
                      var_sum_mom := vec_add (var_sum_mom v) (sum_mom' b);
                      var_sum_weight :=
                        lrf_add (var_sum_weight v) (sum_weight' b);
                      var_stats := stats' b |}).
        assert (Hl3 : objects w3 !! l = Some s).
        { rewrite Hobj3. by apply lookup_app_l_Some. }
        destruct (IH v1 w3 n1 Hmom Hl3) as (v' & w' & n' & Hloop & Hvn' & Hn'
                                           & Hle' & Ha');
          [by exists l1, s1 | by exists l2, s2 | done | done | done |].
        exists v', w', n'. split; [exact Hloop|].
        split; [done|]. split; [done|]. split; [lia|done].
Qed.

Lemma copy_Ok l s w :
  objects w !! l = Some s →
  copy (PState l) w =
    Ok (PState (length (objects w)))
       {| objects := objects w ++ [s]; rng := rng w;
          warnings := warnings w |}.
Proof.
  intros Hl. unfold copy. by rewrite (bind_Ok _ _ _ _ _ (deref_Ok _ _ _ Hl)).
Qed.

(** On a chain state with a momentum, a transition is the doubling loop
    from the initial variables followed by the final bookkeeping. *)
Lemma transition_unfold self l s m w :
  objects w !! l = Some s →
  mom s = Some m →
  sample_dynamics_transition self (PState l) w =
    (doubling_loop self (PState l) (h s)
       (seq 0 (Z.to_nat (max_tree_depth self))) (initial_locals l s m w)
     ≫= finish) (initial_world s w).
Proof.
  intros Hl Hm. unfold sample_dynamics_transition.
  assert (Hlen : (l < length (objects w))%nat) by by eapply lookup_lt_Some.
  rewrite (bind_Ok _ _ _ _ _ (system_h_Ok _ _ _ Hl)).
  rewrite (bind_Ok _ _ _ _ _ (deref_Ok _ _ _ Hl)).
  rewrite Hm, bind_mret_Ok.
  rewrite (bind_Ok _ _ _ _ _ (copy_Ok _ _ _ Hl)).
  set (w1 := {| objects := objects w ++ [s]; rng := rng w;
                warnings := warnings w |}).
  assert (Hl1 : objects w1 !! l = Some s) by by apply lookup_app_l_Some.
  rewrite (bind_Ok _ _ _ _ _ (copy_Ok _ _ _ Hl1)).
  set (w2 := {| objects := objects w1 ++ [s]; rng := rng w1;
                warnings := warnings w1 |}).
  assert (Hobj2 : objects w2 = objects w ++ [s; s]).
  { simpl. by rewrite <- app_assoc. }
  assert (Hll : objects w2 !! length (objects w) = Some s).
  { rewrite Hobj2, lookup_app_r by lia. by rewrite Nat.sub_diag. }
  rewrite (bind_Ok _ _ _ _ _ (update_Ok _ _ _ _ Hll)).
  set (w3 := {| objects := <[length (objects w):=set_dir (-1) s]> (objects w2);
                rng := rng w2; warnings := warnings w2 |}).
  assert (Hobj3 : objects w3 = objects w ++ [set_dir (-1) s; s]).
  { unfold w3. cbn [objects]. rewrite Hobj2.
    rewrite insert_app_r_alt by lia. by rewrite Nat.sub_diag. }
  assert (Hlr : objects w3 !! length (objects w1) = Some s).
  { rewrite Hobj3. simpl. rewrite length_app. simpl.
    rewrite lookup_app_r by lia.
    by replace (length (objects w) + 1 - length (objects w))%nat
      with 1%nat by lia. }
  rewrite (bind_Ok _ _ _ _ _ (update_Ok _ _ _ _ Hlr)).
  assert (Hobj4 : <[length (objects w1):=set_dir 1 s]> (objects w3)
                  = objects w ++ [set_dir (-1) s; set_dir 1 s]).
  { rewrite Hobj3. simpl. rewrite length_app. simpl.
    rewrite insert_app_r_alt by lia.
    by replace (length (objects w) + 1 - length (objects w))%nat
      with 1%nat by lia. }
  rewrite Hobj4.
  replace (length (objects w1)) with (S (length (objects w)))
    by (simpl; rewrite length_app; simpl; lia).
  reflexivity.
Qed.

Lemma initial_world_live l s m w :
  objects w !! l = Some s →
  objects (initial_world s w) !! l = Some s ∧
  live (initial_world s w) (var_state_l (initial_locals l s m w)) ∧
  live (initial_world s w) (var_state_r (initial_locals l s m w)) ∧
  live (initial_world s w) (var_state_n (initial_locals l s m w)).
Proof.
  intros Hl.
  assert (Hl0 : objects (initial_world s w) !! l = Some s)
    by by apply lookup_app_l_Some.
  split; [done|]. split; [|split].
  - exists (length (objects w)), (set_dir (-1) s). split; [done|]. simpl.
    rewrite lookup_app_r by lia. by rewrite Nat.sub_diag.
  - exists (S (length (objects w))), (set_dir 1 s). split; [done|]. simpl.
    rewrite lookup_app_r by lia.
    by replace (S (length (objects w)) - length (objects w))%nat
      with 1%nat by lia.
  - by exists l, s.
Qed.

Lemma finish_stats v state' stats w w' :
  finish v w = Ok (state', stats) w' →
  stats !! "n_step" = var_stats v !! "n_step".
Proof.
  unfold finish. intros Hrun.
  apply bind_Ok_inv in Hrun as (n_step & w1 & _ & Hrun).
  apply bind_Ok_inv in Hrun as (stats1 & w2 & Hs1 & Hrun).
  apply bind_Ok_inv in Hrun as (hamiltonian & w3 & _ & Hrun).
  assert (Hs : stats1 !! "n_step" = var_stats v !! "n_step").
  { destruct (val_positive n_step).
    - apply bind_Ok_inv in Hs1 as (sa & w4 & _ & Hs1).
      injection Hs1 as <- _. by apply lookup_insert_ne.
    - injection Hs1 as <- _. by apply lookup_insert_ne. }
  destruct (var_depth v); [|done]. injection Hrun as _ <- _.
  unfold stats_set. by rewrite !lookup_insert_ne.
Qed.

Lemma finish_Ok v d n w :
  var_depth v = Some d →
  live w (var_state_n v) →
  var_stats v !! "n_step" = Some (VInt n) →
  is_Some (var_stats v !! "sum_acc_prob") →
  ∃ stats, finish v w = Ok (var_state_n v, stats) w.
Proof.
  intros Hd (l & s & He & Hl) Hn [a Ha]. unfold finish, getitem.
  rewrite Hn, Ha, Hd, He, bind_mret_Ok.
  destruct (val_positive (VInt n));
    unfold mbind, M_bind, mret, M_ret;
    rewrite (system_h_Ok _ _ _ Hl); by eexists.
Qed.

(** C7. The doubling loop runs over the depths
    [0, ..., max_tree_depth - 1]: a transition that returns has recorded
    one of them as the tree depth, never more than [max_tree_depth]; and
    on a chain state with a momentum, with [max_tree_depth >= 1] and an
    integrator whose states carry a momentum, the transition does return,
    having taken at most [2^max_tree_depth - 1] integrator steps. *)
Theorem tree_depth_bounded self :
  (∀ state w state' stats w',
     sample_dynamics_transition self state w = Ok (state', stats) w' →
     ∃ d, stats !! "tree_depth" = Some (VInt d) ∧
          0 ≤ d ≤ max_tree_depth self - 1 ∧ d ≤ max_tree_depth self) ∧
  (∀ l s m w,
     1 ≤ max_tree_depth self →
     (∀ x y, step x = inr y → is_Some (mom y)) →
     objects w !! l = Some s →
     mom s = Some m →
     ∃ state' stats w' d n,
       sample_dynamics_transition self (PState l) w = Ok (state', stats) w' ∧
       stats !! "tree_depth" = Some (VInt d) ∧
       0 ≤ d ≤ max_tree_depth self - 1 ∧
       stats !! "n_step" = Some (VInt n) ∧
       0 ≤ n ≤ 2 ^ max_tree_depth self - 1).
Proof.
  split.
  - intros state w state' stats w' Hrun.
    apply transition_tree_depth in Hrun as (d & Hd & Hlt).
    exists (Z.of_nat d). split; [done|]. lia.
  - intros l s m w Hmtd Hmom Hl Hm.
    rewrite (transition_unfold _ _ _ _ _ Hl Hm).
    destruct (initial_world_live l s m w Hl) as (Hl0 & Hvl & Hvr & Hvn).
    destruct (doubling_loop_total self (h s) l s
                (seq 0 (Z.to_nat (max_tree_depth self)))
                (initial_locals l s m w) (initial_world s w) 0
                Hmom Hl0 Hvl Hvr Hvn)
      as (v & w' & n & Hloop & Hn' & Hn & Hle & Ha); [done|by eexists|].
    rewrite (bind_Ok _ _ _ _ _ Hloop).
    rewrite sum_pow2_seq in Hle. simpl in Hle.
    rewrite Z2Nat.id in Hle by lia.
    destruct (doubling_loop_depth _ _ _ _ _ _ _ _ Hloop)
      as [[Hnil _]|(d & Hd & Hv)].
    { apply (f_equal length) in Hnil. rewrite length_seq in Hnil.
      simpl in Hnil. lia. }
    destruct (finish_Ok v d n w' Hv Hn' Hn Ha) as [stats Hfin].
    exists (var_state_n v), stats, w', (Z.of_nat d), n.
    split; [done|].
    pose proof (finish_stats _ _ _ _ _ Hfin) as Hsn.
    unfold finish in Hfin.
    apply bind_Ok_inv in Hfin as (? & ? & _ & Hfin).
    apply bind_Ok_inv in Hfin as (? & ? & _ & Hfin).
    apply bind_Ok_inv in Hfin as (? & ? & _ & Hfin).
    rewrite Hv in Hfin. injection Hfin as <- _.
    split; [apply lookup_insert_eq|].
    apply elem_of_seq in Hd.
    split; [lia|]. split; [by rewrite <- Hn, <- Hsn|lia].
Qed.

(** C10. A transition returns only if [max_tree_depth >= 1]; with
    [max_tree_depth = 0] (or less) the loop body never runs, and on a
    chain state with a momentum the transition ends in the unbound
    variable error for [depth], raised after the two edge states were
    made and before anything is returned. *)
Theorem zero_max_tree_depth_unbound self :
  (∀ state w result w',
     sample_dynamics_transition self state w = Ok result w' →
     1 ≤ max_tree_depth self) ∧
  (∀ l s m w,
     max_tree_depth self ≤ 0 →
     objects w !! l = Some s →
     mom s = Some m →
     sample_dynamics_transition self (PState l) w =
       Raise (UnboundLocalError "depth") (initial_world s w)).
Proof.
  split.
  - intros state w [state' stats] w' Hrun.
    apply transition_tree_depth in Hrun as (d & _ & Hlt). lia.
  - intros l s m w Hmtd Hl Hm.
    rewrite (transition_unfold _ _ _ _ _ Hl Hm).
    replace (Z.to_nat (max_tree_depth self)) with 0%nat by lia.
    cbn [seq doubling_loop]. rewrite bind_mret_Ok.
    destruct (initial_world_live l s m w Hl) as (Hl0 & _).
    unfold finish, getitem. cbn [var_stats initial_locals].
    rewrite lookup_insert_eq, bind_mret_Ok.
    change (val_positive (VInt 0)) with false. cbv iota.
    rewrite bind_mret_Ok. cbn [var_state_n].
    by rewrite (bind_Ok _ _ _ _ _ (system_h_Ok _ _ _ Hl0)).
Qed.

(** C5, as the code has it.  In the recursive case the inner half is built
    first, from empty accumulators.  If it signals termination the call
    returns at once with the termination flag and no states, in the very
    world the inner build left: nothing of the outer half exists.  If the
    inner half went through, the outer half is built from the inner
    half's far edge; if that signals termination the call returns
    likewise, without a proposal.  If neither terminated, the next
    uniform draw [u] decides the proposal: the outer half's when
    [u < weight_outer / (weight_inner + weight_outer)], the inner half's
    otherwise, the weights being what the two halves accumulated. *)
Theorem build_tree_recursive_case self h_init d l s w sum_mom sum_weight
    stats n a :
  (∀ x y, step x = inr y → is_Some (mom y)) →
  objects w !! l = Some s →
  stats !! "n_step" = Some (VInt n) →
  stats !! "sum_acc_prob" = Some a →
  let subtree :=
    build_tree self (S d) (PState l) sum_mom sum_weight stats h_init w in
  let stop (stats : dict) :=
    {| terminate := true; edge_i := PNone; edge_o := PNone;
       proposal := PNone; sum_mom' := sum_mom; sum_weight' := sum_weight;
       stats' := stats |} in
  ∃ inner w1,
    build_tree self d (PState l) (np_zeros (n_dim s)) (lrf_val (of_Z 0))
      stats h_init w = Ok inner w1 ∧
    if terminate inner then subtree = Ok (stop (stats' inner)) w1
    else
      ∃ outer w2,
        build_tree self d (edge_o inner) (np_zeros (n_dim s))
          (lrf_val (of_Z 0)) (stats' inner) h_init w1 = Ok outer w2 ∧
        if terminate outer then subtree = Ok (stop (stats' outer)) w2
        else
          ∃ b w3,
            subtree = Ok b w3 ∧
            let u := (uniform (rng w2)).1 in
            let weight_inner := sum_weight' inner in
            let weight_outer := sum_weight' outer in
            proposal b =
              (if float_lt_lrf u
                    (lrf_div weight_outer (lrf_add weight_inner weight_outer))
               then proposal outer else proposal inner) ∧
            sum_weight' b =
              lrf_add sum_weight (lrf_add weight_inner weight_outer).
Proof.
  intros Hmom Hl Hn Ha subtree stop. unfold subtree. cbn [build_tree].
  rewrite (bind_Ok _ _ _ _ _ (deref_Ok _ _ _ Hl)).
  destruct (build_tree_total self h_init d l s w (np_zeros (n_dim s))
              (lrf_val (of_Z 0)) stats n a Hmom Hl Hn Ha)
    as (inner & w1 & extra1 & n1 & Hinner & Hobj1 & Hn1 & _ & [a1 Ha1]
        & Hlive1).
  exists inner, w1. split; [exact Hinner|].
  rewrite (bind_Ok _ _ _ _ _ Hinner).
  destruct (terminate inner) eqn:Hti; [reflexivity|].
  destruct (Hlive1 eq_refl) as (Hli & (lo & so & Heo & Hlo) & _).
  rewrite Heo.
  destruct (build_tree_total self h_init d lo so w1 (np_zeros (n_dim s))
              (lrf_val (of_Z 0)) (stats' inner) n1 a1 Hmom Hlo Hn1 Ha1)
    as (outer & w2 & extra2 & n2 & Houter & Hobj2 & _ & _ & _ & Hlive2).
  exists outer, w2. split; [exact Houter|].
  rewrite (bind_Ok _ _ _ _ _ Houter).
  destruct (terminate outer) eqn:Hto; [reflexivity|].
  destruct (Hlive2 eq_refl) as (_ & Hlo2 & _).
  rewrite (bind_Ok _ _ _ _ _ (rng_uniform_Ok _)).
  set (w3 := {| objects := objects w2; rng := (uniform (rng w2)).2;
                warnings := warnings w2 |}).
  assert (Hobj3 : objects w3 = objects w1 ++ extra2) by done.
  pose proof (live_app _ _ _ _ Hobj3 Hli) as (li & si & Hei & Hli3).
  destruct Hlo2 as (lo2 & so2 & Heo2 & Hlo3).
  rewrite Hei, Heo2.
  destruct (termination_criterion_Ok li si lo2 so2
              (vec_add (sum_mom' inner) (sum_mom' outer)) w3 Hli3 Hlo3)
    as [t Ht].
  rewrite (bind_Ok _ _ _ _ _ Ht).
  eexists _, w3. split; [reflexivity|]. done.
Qed.
End Tree.

(** ** The correlated momentum refresh *)

Section Correlated.
Context `{System}.
Import BaseCorrelatedMomentumHMC.

(** Whatever the coefficient, the refresh returns with its first
    statement: the value is the freshly drawn momentum, not the state,
    and no object has changed. *)
Lemma correlated_refresh_returns_draw self l s w :
  objects w !! l = Some s →
  sample_momentum_transition self (PState l) w =
    Ok (PArray (sample_momentum s (rng w)).1)
       {| objects := objects w; rng := (sample_momentum s (rng w)).2;
          warnings := warnings w |}.
Proof.
  intros Hl. unfold sample_momentum_transition, def, then_, return_,
    BaseHamiltonianMonteCarlo.system_sample_momentum.
  unfold mbind, M_bind, mret, M_ret.
  rewrite (deref_Ok _ _ _ Hl). unfold draw.
  by destruct (sample_momentum s (rng w)).
Qed.

(** The dynamics transition of the two composed classes is the one of
    the Metropolis class they inherit from. *)
Lemma composed_dynamics_inherited `{!Integrator} cm sm rm :
  BaseHamiltonianMonteCarlo.self_sample_dynamics_transition
    (StaticMetropolisCorrelatedMomentumHMC.methods cm sm)
  = StaticMetropolisHMC.sample_dynamics_transition sm ∧
  BaseHamiltonianMonteCarlo.self_sample_dynamics_transition
    (RandomMetropolisCorrelatedMomentumHMC.methods cm rm)
  = RandomMetropolisHMC.sample_dynamics_transition rm.
Proof. done. Qed.
End Correlated.

(** ** Runs in the concrete setting *)

Section Examples.
Import Example1D.

Lemma leapfrog_keeps_dir (a b : ChainState) :
  step a = inr b → dir b = dir a.
Proof.
  simpl. unfold leapfrog. destruct (forallb _ _); [|done].
  by intros [= <-].
Qed.

Lemma leapfrog_has_mom (a b : ChainState) :
  step a = inr b → is_Some (mom b).
Proof.
  simpl. unfold leapfrog. destruct (forallb _ _); [|done].
  intros [= <-]. by eexists.
Qed.

(** C1. The refresh of the correlated momentum sampler on a state with
    momentum [1/2], the next draw giving the momentum [-1/2]: for the
    coefficients [0], [1/2] and [1] alike the call returns the drawn
    momentum array instead of the state, and the momentum of the state is
    still [1/2]. *)
Theorem correlated_refresh_early_return :
  ∀ c, c ∈ [0%Q; 1 # 2; 1%Q] →
    BaseCorrelatedMomentumHMC.sample_momentum_transition
      {| BaseCorrelatedMomentumHMC.mom_resample_coeff := c |}
      (PState 0) (world slow [1 # 4; 3 # 4])
    = Ok (PArray [-1 # 2])
         {| objects := [slow]; rng := [3 # 4]; warnings := [] |}.
Proof.
  intros c _.
  by rewrite (correlated_refresh_returns_draw _ 0%nat slow).
Qed.

Lemma correlated_refresh_early_return_witness :
  BaseCorrelatedMomentumHMC.sample_momentum_transition
    {| BaseCorrelatedMomentumHMC.mom_resample_coeff := 0%Q |}
    (PState 0) (world slow [1 # 4; 3 # 4])
  = Ok (PArray [-1 # 2])
       {| objects := [slow]; rng := [3 # 4]; warnings := [] |}.
Proof.
  apply (correlated_refresh_early_return 0%Q). left.
Defined.

(** C2, counterexample.  The step of [divergent_leaf] succeeds and raises
    the energy: the build terminates with the divergence flag set; no
    step was completed before it, and yet [n_step] is [1], not [0]. *)
Lemma divergent_step_not_counted_counterexample :
  no_stats !! "n_step" = Some (VInt 0) ∧
  report divergent_leaf
    = Some (true, PState 1, Some (VInt 1), Some (VBool true)) ∧
  ¬ (∀ b w', divergent_leaf = Ok b w' →
       DynamicMultinomialHMC.terminate b = true ∧
       DynamicMultinomialHMC.stats' b !! "divergent" = Some (VBool true) ∧
       DynamicMultinomialHMC.stats' b !! "n_step" = no_stats !! "n_step").
Proof.
  assert (Hrep : report divergent_leaf
                 = Some (true, PState 1, Some (VInt 1), Some (VBool true)))
    by reflexivity.
  split; [reflexivity|]. split; [exact Hrep|].
  intros Hall. destruct divergent_leaf as [b w'|e w'] eqn:Hrun; [|done].
  destruct (Hall b w' eq_refl) as (_ & _ & Hn).
  injection Hrep as _ _ Hone _. rewrite Hone in Hn. discriminate Hn.
Qed.

(** C5, counterexample.  The inner leaf of [back_subtree] goes through,
    the outer leaf diverges, and the subtree returns no proposal: neither
    the outer leaf's nor the inner leaf's. *)
Lemma subtree_proposal_counterexample :
  ∃ p_inner p_outer p,
    (fst ∘ fst) <$> report back_inner = Some (false, p_inner) ∧
    (fst ∘ fst) <$> report back_outer = Some (true, p_outer) ∧
    (fst ∘ fst) <$> report back_subtree = Some (true, p) ∧
    p ≠ p_outer ∧ p ≠ p_inner.
Proof.
  exists (PState 1), (PState 2), PNone.
  split; [reflexivity|].
  split; [reflexivity|].
  split; [reflexivity|].
  split; discriminate.
Qed.

Lemma static_zero_steps_noop_witness :
  ∃ stats w',
    StaticMetropolisHMC.sample_dynamics_transition
      {| StaticMetropolisHMC.n_step := 0 |} (PState 0) (world fast [1 # 2])
    = Ok (PState 0, stats) w' ∧
    objects w' = objects (world fast [1 # 2]) ∧
    objects w' !! 0%nat = Some fast ∧
    stats !! "n_step" = Some (VInt 0).
Proof.
  exact (static_zero_steps_noop 0%nat fast (world fast [1 # 2]) eq_refl).
Defined.

Lemma metropolis_direction_bookkeeping_witness :
  let accept_prob :=
    min_1 (fexp (fsub (h slow) (h (set_dir (dir slow_1 * -1) slow_1)))) in
  ∃ state' stats w' s',
    BaseMetropolisHMC._sample_dynamics_transition (PState 0) 1
      (world slow [1 # 2]) = Ok (state', stats) w' ∧
    stats !! "accept_prob" = Some accept_prob ∧
    deref state' w' = Ok s' w' ∧
    (float_lt_val (1 # 2) accept_prob = true →
       state' ≠ PState 0 ∧ dir s' = dir slow) ∧
    (float_lt_val (1 # 2) accept_prob = false →
       state' = PState 0 ∧ dir s' = - dir slow).
Proof.
  assert (Hrun : run_steps (Z.to_nat 1) slow = inr slow_1)
    by reflexivity.
  exact (metropolis_direction_bookkeeping 0%nat slow 1 (world slow [1 # 2])
           slow_1 leapfrog_keeps_dir ltac:(lia) eq_refl Hrun).
Defined.

Lemma metropolis_integrator_failure_witness :
  ∃ w',
    BaseMetropolisHMC._sample_dynamics_transition (PState 0) 3
      (world fast [1 # 2]) =
      Ok (PState 0,
          <["hamiltonian" := VFloat (h fast)]>
          (<["accept_prob" := VInt 0]>
          (<["n_step" := VInt 1]> (∅ : dict)))) w' ∧
    objects w' !! 0%nat = Some fast ∧
    rng w' = rng (world fast [1 # 2]) ∧
    warnings w' =
      TrajectoryIntegratorError "position out of bounds"
        :: warnings (world fast [1 # 2]).
Proof.
  assert (Hrun : run_steps (Z.to_nat 1) fast = inr fast_1)
    by reflexivity.
  assert (Hfail : step fast_1 = inl "position out of bounds"%string)
    by reflexivity.
  exact (metropolis_integrator_failure 0%nat fast 3 (world fast [1 # 2]) 1
           fast_1 "position out of bounds" eq_refl ltac:(lia) Hrun Hfail).
Defined.

Lemma build_tree_divergent_leaf_witness :
  ∃ b w',
    DynamicMultinomialHMC.build_tree tree_self 0 (PState 0) (np_zeros 1)
      (lrf_val (of_Z 0)) no_stats (h fast) (world fast []) = Ok b w' ∧
    DynamicMultinomialHMC.terminate b = true ∧
    DynamicMultinomialHMC.stats' b !! "divergent" = Some (VBool true) ∧
    DynamicMultinomialHMC.stats' b !! "n_step" = Some (VInt (0 + 1)) ∧
    warnings w' =
      BuildTreeDivergence (fsub (h fast_1) (h fast))
        :: warnings (world fast []).
Proof.
  assert (Hstep : step fast = inr fast_1) by reflexivity.
  assert (Hdiv : fltb (DynamicMultinomialHMC.max_delta_h tree_self)
                   (fsub (h fast_1) (h fast)) = true)
    by reflexivity.
  exact (build_tree_divergent_leaf tree_self 0%nat fast fast_1 [41 # 32]
           (world fast []) (np_zeros 1) (lrf_val (of_Z 0)) no_stats (h fast)
           0 (VFloat 0%Q) eq_refl Hstep eq_refl eq_refl eq_refl Hdiv).
Defined.

Lemma build_tree_recursive_case_witness :
  let subtree :=
    DynamicMultinomialHMC.build_tree default_tree_self 1 (PState 0)
      (np_zeros 1) (lrf_val (of_Z 0)) no_stats (h slow)
      (world slow [1 # 2]) in
  let stop (stats : dict) :=
    {| DynamicMultinomialHMC.terminate := true;
       DynamicMultinomialHMC.edge_i := PNone;
       DynamicMultinomialHMC.edge_o := PNone;
       DynamicMultinomialHMC.proposal := PNone;
       DynamicMultinomialHMC.sum_mom' := np_zeros 1;
       DynamicMultinomialHMC.sum_weight' := lrf_val (of_Z 0);
       DynamicMultinomialHMC.stats' := stats |} in
  ∃ inner w1,
    DynamicMultinomialHMC.build_tree default_tree_self 0 (PState 0)
      (np_zeros (n_dim slow)) (lrf_val (of_Z 0)) no_stats (h slow)
      (world slow [1 # 2]) = Ok inner w1 ∧
    if DynamicMultinomialHMC.terminate inner
    then subtree = Ok (stop (DynamicMultinomialHMC.stats' inner)) w1
    else
      ∃ outer w2,
        DynamicMultinomialHMC.build_tree default_tree_self 0
          (DynamicMultinomialHMC.edge_o inner) (np_zeros (n_dim slow))
          (lrf_val (of_Z 0)) (DynamicMultinomialHMC.stats' inner) (h slow)
          w1 = Ok outer w2 ∧
        if DynamicMultinomialHMC.terminate outer
        then subtree = Ok (stop (DynamicMultinomialHMC.stats' outer)) w2
        else
          ∃ b w3,
            subtree = Ok b w3 ∧
            let u := (uniform (rng w2)).1 in
            let weight_inner := DynamicMultinomialHMC.sum_weight' inner in
            let weight_outer := DynamicMultinomialHMC.sum_weight' outer in
            DynamicMultinomialHMC.proposal b =
              (if float_lt_lrf u
                    (lrf_div weight_outer (lrf_add weight_inner weight_outer))
               then DynamicMultinomialHMC.proposal outer
               else DynamicMultinomialHMC.proposal inner) ∧
            DynamicMultinomialHMC.sum_weight' b =
              lrf_add (lrf_val (of_Z 0)) (lrf_add weight_inner weight_outer).
Proof.
  exact (build_tree_recursive_case default_tree_self (h slow) 0 0%nat
           slow (world slow [1 # 2]) (np_zeros 1) (lrf_val (of_Z 0))
           no_stats 0 (VFloat 0%Q) leapfrog_has_mom eq_refl eq_refl
           eq_refl).
Defined.

Lemma tree_depth_bounded_witness :
  ∃ state' stats w' d n,
    DynamicMultinomialHMC.sample_dynamics_transition tree_self (PState 0)
      (world slow [1 # 2; 1 # 3; 3 # 4; 1 # 5]) = Ok (state', stats) w' ∧
    stats !! "tree_depth" = Some (VInt d) ∧
    0 ≤ d ≤ DynamicMultinomialHMC.max_tree_depth tree_self - 1 ∧
    stats !! "n_step" = Some (VInt n) ∧
    0 ≤ n ≤ 2 ^ DynamicMultinomialHMC.max_tree_depth tree_self - 1.
Proof.
  destruct (proj2 (tree_depth_bounded tree_self) 0%nat slow [1 # 2]
              (world slow [1 # 2; 1 # 3; 3 # 4; 1 # 5])
              ltac:(simpl; lia) leapfrog_has_mom eq_refl eq_refl)
    as (state' & stats & w' & d & n & Hrun & Hd & Hdle & Hn & Hnle).
  destruct (proj1 (tree_depth_bounded tree_self) _ _ _ _ _ Hrun)
    as (d' & Hd' & _ & _).
  exists state', stats, w', d, n.
  exact (conj Hrun (conj Hd (conj Hdle (conj Hn Hnle)))).
Defined.

Lemma zero_max_tree_depth_unbound_witness :
  1 ≤ DynamicMultinomialHMC.max_tree_depth tree_self ∧
  DynamicMultinomialHMC.sample_dynamics_transition zero_tree_self (PState 0)
    (world slow [1 # 2])
  = Raise (UnboundLocalError "depth") (initial_world slow (world slow [1 # 2])).
Proof.
  split.
  - destruct (DynamicMultinomialHMC.sample_dynamics_transition tree_self
                (PState 0) (world slow [1 # 2; 1 # 3; 3 # 4; 1 # 5]))
      as [result w'|e w'] eqn:Hrun.
    + exact (proj1 (zero_max_tree_depth_unbound tree_self) _ _ _ _ Hrun).
    + assert (Hret : returned
                (DynamicMultinomialHMC.sample_dynamics_transition tree_self
                   (PState 0) (world slow [1 # 2; 1 # 3; 3 # 4; 1 # 5]))
              = true) by reflexivity.
      rewrite Hrun in Hret. discriminate Hret.
  - exact (proj2 (zero_max_tree_depth_unbound zero_tree_self) 0%nat slow
             [1 # 2] (world slow [1 # 2]) ltac:(simpl; lia) eq_refl eq_refl).
Defined.
End Examples.

(** ** The statistics arrays of a chain *)

Section ChainStats.
Context `{System}.

Lemma filled_alter k n :
  (k < n)%nat → alter S k (filled k n) = filled (S k) n.
Proof.
  intros Hk. unfold filled.
  replace (n - k)%nat with (S (n - S k)) by lia.
  rewrite alter_app_r_alt by (rewrite length_replicate; lia).
  rewrite length_replicate, Nat.sub_diag.
  rewrite (replicate_S_end k 1%nat), <- app_assoc. done.
Qed.

Lemma filled_length k n : length (filled k n) = (k + (n - k))%nat.
Proof. unfold filled. by rewrite length_app, !length_replicate. Qed.

Lemma filled_full n i :
  (i < n)%nat → filled n n !! i = Some 1%nat.
Proof.
  intros Hi. unfold filled. rewrite Nat.sub_diag, app_nil_r.
  by apply lookup_replicate_2.
Qed.

Lemma np_empty_inv {A} (n : Z) w (a : ndarray A) w' :
  np_empty n w = Ok a w' →
  0 ≤ n ∧ a = mkArray (replicate (Z.to_nat n) []) ∧ w' = w.
Proof.
  unfold np_empty. destruct (Z.ltb_spec n 0); [done|].
  by intros [= <- <-].
Qed.

Lemma setitem_inv {A} (a : ndarray A) (j : nat) x w a' w' :
  setitem a (Z.of_nat j) x w = Ok a' w' →
  (j < len a)%nat ∧ cells a' = alter (cons x) j (cells a) ∧ w' = w.
Proof.
  unfold setitem, py_index.
  destruct (Z.leb_spec 0 (Z.of_nat j)); [|lia].
  destruct (Z.ltb_spec (Z.of_nat j) (Z.of_nat (len a))); [|done].
  rewrite Nat2Z.id. intros [= <- <-]. split; [lia|done].
Qed.

Lemma getitem_inv (d : dict) k v w w' :
  getitem d k w = Ok v w' → w' = w.
Proof. unfold getitem. destruct (d !! k); [|done]. by intros [= _ <-]. Qed.

(** A store into a statistics array adds one to the count of its cell and
    leaves every other count as it is. *)
Lemma setstat_counts chain_stats key (j : nat) v w chain_stats' w' :
  setstat chain_stats key (Z.of_nat j) v w = Ok chain_stats' w' →
  ∃ c, write_counts chain_stats !! key = Some c ∧
       (j < length c)%nat ∧
       write_counts chain_stats' =
         <[key := alter S j c]> (write_counts chain_stats) ∧
       w' = w.
Proof.
  unfold setstat. intros Hrun.
  destruct (chain_stats !! key) as [[t a]|] eqn:Hkey; [|done].
  apply bind_Ok_inv in Hrun as (a' & w1 & Hset & Hret).
  apply setitem_inv in Hset as (Hj & Hcells & ->).
  injection Hret as <- <-.
  exists (length <$> cells a). unfold write_counts.
  rewrite lookup_fmap, Hkey. split; [done|].
  split; [by rewrite length_fmap|]. split; [|done].
  rewrite fmap_insert. f_equal. simpl. rewrite Hcells.
  apply list_fmap_alter. by apply Forall_true.
Qed.

Lemma system_h_inv state x w w' :
  BaseHamiltonianMonteCarlo.system_h state w = Ok x w' → w' = w.
Proof.
  unfold BaseHamiltonianMonteCarlo.system_h. intros Hrun.
  apply bind_Ok_inv in Hrun as (s & w1 & Hd & Hret).
  injection Hret as _ <-. unfold deref in Hd.
  destruct state as [|l|]; try done.
  destruct (objects w !! l); [|done]. by injection Hd as _ <-.
Qed.

Lemma empty_counts {A} (n : nat) :
  length <$> replicate n ([] : list A) = filled 0 n.
Proof.
  unfold filled. by rewrite fmap_replicate, Nat.sub_0_r.
Qed.

(** The statistics as [initialise_chain_stats] leaves them: the first
    energy is in, nothing else. *)
Lemma metropolis_init_counts `{!Integrator} state n w chain_stats w' :
  BaseMetropolisHMC.initialise_chain_stats state n w = Ok chain_stats w' →
  1 ≤ n ∧ write_counts chain_stats = metropolis_counts (Z.to_nat n) 0.
Proof.
  unfold BaseMetropolisHMC.initialise_chain_stats. intros Hrun.
  apply bind_Ok_inv in Hrun as (a1 & w1 & (Hn0 & -> & ->)%np_empty_inv & Hrun).
  apply bind_Ok_inv in Hrun as (a2 & w2 & (Hn1 & -> & ->)%np_empty_inv & Hrun).
  apply bind_Ok_inv in Hrun as (a3 & w3 & (_ & -> & ->)%np_empty_inv & Hrun).
  apply bind_Ok_inv in Hrun as (h0 & w4 & ->%system_h_inv & Hrun).
  change 0 with (Z.of_nat 0) in Hrun.
  apply setstat_counts in Hrun as (c & Hc & Hlen & -> & _).
  split; [lia|].
  unfold write_counts in *.
  rewrite !fmap_insert, fmap_empty in *. cbn [snd cells] in *.
  rewrite lookup_insert_eq in Hc. injection Hc as <-.
  rewrite !empty_counts in *. rewrite filled_length in Hlen.
  rewrite filled_alter by lia.
  replace (Z.to_nat (n - 1)) with (Z.to_nat n - 1)%nat by lia.
  unfold metropolis_counts. by rewrite insert_insert_eq.
Qed.

Lemma dynamic_init_counts `{!Integrator} `{!LogRepFloatOps} state n w
    chain_stats w' :
  DynamicMultinomialHMC.initialise_chain_stats state n w = Ok chain_stats w' →
  1 ≤ n ∧ write_counts chain_stats = dynamic_counts (Z.to_nat n) 0.
Proof.
  unfold DynamicMultinomialHMC.initialise_chain_stats. intros Hrun.
  apply bind_Ok_inv in Hrun as (a1 & w1 & (Hn0 & -> & ->)%np_empty_inv & Hrun).
  apply bind_Ok_inv in Hrun as (a2 & w2 & (Hn1 & -> & ->)%np_empty_inv & Hrun).
  apply bind_Ok_inv in Hrun as (a3 & w3 & (_ & -> & ->)%np_empty_inv & Hrun).
  apply bind_Ok_inv in Hrun as (a4 & w4 & (_ & -> & ->)%np_empty_inv & Hrun).
  apply bind_Ok_inv in Hrun as (a5 & w5 & (_ & -> & ->)%np_empty_inv & Hrun).
  apply bind_Ok_inv in Hrun as (h0 & w6 & ->%system_h_inv & Hrun).
  change 0 with (Z.of_nat 0) in Hrun.
  apply setstat_counts in Hrun as (c & Hc & Hlen & -> & _).
  split; [lia|].
  unfold write_counts in *.
  rewrite !fmap_insert, fmap_empty in *. cbn [snd cells] in *.
  rewrite lookup_insert_eq in Hc. injection Hc as <-.
  rewrite !empty_counts in *. rewrite filled_length in Hlen.
  rewrite filled_alter by lia.
  replace (Z.to_nat (n - 1)) with (Z.to_nat n - 1)%nat by lia.
  unfold dynamic_counts. by rewrite insert_insert_eq.
Qed.

(** One store, seen on the counts: the cell [j] of [key] goes from
    [filled j n] to [filled (S j) n]. *)
Lemma setstat_filled chain_stats key (j n : nat) v w chain_stats' w' :
  setstat chain_stats key (Z.of_nat j) v w = Ok chain_stats' w' →
  write_counts chain_stats !! key = Some (filled j n) →
  write_counts chain_stats' =
    <[key := filled (S j) n]> (write_counts chain_stats) ∧ w' = w.
Proof.
  intros Hrun Hkey.
  apply setstat_counts in Hrun as (c & Hc & Hlen & -> & ->).
  rewrite Hkey in Hc. injection Hc as <-.
  rewrite filled_length in Hlen. by rewrite filled_alter by lia.
Qed.

(** One call of [update_chain_stats] after [k] transitions fills the next
    cell of every array. *)
Lemma metropolis_update_counts `{!Integrator} n k chain_stats trans_stats w
    chain_stats' w' :
  write_counts chain_stats = metropolis_counts n k →
  BaseMetropolisHMC.update_chain_stats (Z.of_nat k + 1) chain_stats
    trans_stats w = Ok chain_stats' w' →
  write_counts chain_stats' = metropolis_counts n (S k).
Proof.
  intros Hc Hrun. unfold BaseMetropolisHMC.update_chain_stats in Hrun.
  replace (Z.of_nat k + 1 - 1) with (Z.of_nat k) in Hrun by lia.
  replace (Z.of_nat k + 1) with (Z.of_nat (S k)) in Hrun by lia.
  apply bind_Ok_inv in Hrun as (v1 & w1 & _ & Hrun).
  apply bind_Ok_inv in Hrun as (cs1 & w2 & H1' & Hrun).
  apply bind_Ok_inv in Hrun as (v2 & w3 & _ & Hrun).
  apply bind_Ok_inv in Hrun as (cs2 & w4 & H2' & Hrun).
  apply bind_Ok_inv in Hrun as (v3 & w5 & _ & Hrun).
  apply (setstat_filled _ _ _ n) in H1' as [Hc1 _];
    [|by rewrite Hc].
  apply (setstat_filled _ _ _ (n - 1)) in H2' as [Hc2 _];
    [|by rewrite Hc1, Hc].
  apply (setstat_filled _ _ _ (n - 1)) in Hrun as [Hc3 _];
    [|by rewrite Hc2, Hc1, Hc].
  rewrite Hc3, Hc2, Hc1, Hc. unfold metropolis_counts.
  generalize (filled k (n - 1)) (filled (S k) (n - 1)) (filled (S k) n)
    (filled (S (S k)) n).
  intros c0 c1 c2 c3. apply map_eq. intros key.
  repeat (rewrite lookup_insert; case_decide; subst; try done).
Qed.

Lemma dynamic_update_counts `{!Integrator} `{!LogRepFloatOps} n k
    chain_stats trans_stats w chain_stats' w' :
  write_counts chain_stats = dynamic_counts n k →
  DynamicMultinomialHMC.update_chain_stats (Z.of_nat k + 1) chain_stats
    trans_stats w = Ok chain_stats' w' →
  write_counts chain_stats' = dynamic_counts n (S k).
Proof.
  intros Hc Hrun. unfold DynamicMultinomialHMC.update_chain_stats in Hrun.
  replace (Z.of_nat k + 1 - 1) with (Z.of_nat k) in Hrun by lia.
  replace (Z.of_nat k + 1) with (Z.of_nat (S k)) in Hrun by lia.
  apply bind_Ok_inv in Hrun as (v1 & w1 & _ & Hrun).
  apply bind_Ok_inv in Hrun as (cs1 & w2 & H1' & Hrun).
  apply bind_Ok_inv in Hrun as (v2 & w3 & _ & Hrun).
  apply bind_Ok_inv in Hrun as (cs2 & w4 & H2' & Hrun).
  apply bind_Ok_inv in Hrun as (v3 & w5 & _ & Hrun).
  apply bind_Ok_inv in Hrun as (cs3 & w6 & H3' & Hrun).
  apply bind_Ok_inv in Hrun as (v4 & w7 & _ & Hrun).
  apply bind_Ok_inv in Hrun as (cs4 & w8 & H4' & Hrun).
  apply bind_Ok_inv in Hrun as (v5 & w9 & _ & Hrun).
  apply (setstat_filled _ _ _ n) in H1' as [Hc1 _];
    [|by rewrite Hc].
  apply (setstat_filled _ _ _ (n - 1)) in H2' as [Hc2 _];
    [|by rewrite Hc1, Hc].
  apply (setstat_filled _ _ _ (n - 1)) in H3' as [Hc3 _];
    [|by rewrite Hc2, Hc1, Hc].
  apply (setstat_filled _ _ _ (n - 1)) in H4' as [Hc4 _];
    [|by rewrite Hc3, Hc2, Hc1, Hc].
  apply (setstat_filled _ _ _ (n - 1)) in Hrun as [Hc5 _];
    [|by rewrite Hc4, Hc3, Hc2, Hc1, Hc].
  rewrite Hc5, Hc4, Hc3, Hc2, Hc1, Hc. unfold dynamic_counts.
  generalize (filled k (n - 1)) (filled (S k) (n - 1)) (filled (S k) n)
    (filled (S (S k)) n).
  intros c0 c1 c2 c3. apply map_eq. intros key.
  repeat (rewrite lookup_insert; case_decide; subst; try done).
Qed.

(** The main loop of [sample_chain] calls [update_chain_stats] once per
    iteration, with [s + 1]: whatever each call does to the counts, the
    loop does for every index of its range in turn. *)
Lemma chain_loop_counts self chain_var_funcs
    (counts : nat → gmap string (list nat)) :
  (∀ k chain_stats trans_stats w chain_stats' w',
     write_counts chain_stats = counts k →
     BaseHamiltonianMonteCarlo.self_update_chain_stats self
       (Z.of_nat k + 1) chain_stats trans_stats w = Ok chain_stats' w' →
     write_counts chain_stats' = counts (S k)) →
  ∀ m k state chain_stats var_chains w var_chains' chain_stats' w',
    write_counts chain_stats = counts k →
    BaseHamiltonianMonteCarlo.chain_loop self chain_var_funcs
      (seqZ (Z.of_nat k) (Z.of_nat m)) state chain_stats var_chains w
      = Ok (var_chains', chain_stats') w' →
    write_counts chain_stats' = counts (k + m)%nat.
Proof.
  intros Hstep. induction m as [|m IH];
    intros k state chain_stats var_chains w var_chains' chain_stats' w'
      Hc Hrun.
  - injection Hrun as _ <- _. by rewrite Nat.add_0_r.
  - rewrite seqZ_cons in Hrun by lia.
    replace (Z.succ (Z.of_nat k)) with (Z.of_nat (S k)) in Hrun by lia.
    replace (Z.pred (Z.of_nat (S m))) with (Z.of_nat m) in Hrun by lia.
    cbn [BaseHamiltonianMonteCarlo.chain_loop] in Hrun.
    apply bind_Ok_inv in Hrun as (state1 & w1 & _ & Hrun).
    apply bind_Ok_inv in Hrun as ([state2 trans_stats] & w2 & _ & Hrun).
    apply bind_Ok_inv in Hrun as (cs1 & w3 & Hupd & Hrun).
    apply bind_Ok_inv in Hrun as (recorded & w4 & _ & Hrun).
    apply (Hstep _ _ _ _ _ _ Hc) in Hupd.
    apply (IH _ _ _ _ _ _ _ _ Hupd) in Hrun.
    by replace (k + S m)%nat with (S k + m)%nat by lia.
Qed.

Lemma sample_chain_counts self chain_var_funcs n_sample
    (counts : nat → gmap string (list nat)) :
  (∀ state w chain_stats w',
     BaseHamiltonianMonteCarlo.self_initialise_chain_stats self state
       n_sample w = Ok chain_stats w' →
     1 ≤ n_sample ∧ write_counts chain_stats = counts 0%nat) →
  (∀ k chain_stats trans_stats w chain_stats' w',
     write_counts chain_stats = counts k →
     BaseHamiltonianMonteCarlo.self_update_chain_stats self
       (Z.of_nat k + 1) chain_stats trans_stats w = Ok chain_stats' w' →
     write_counts chain_stats' = counts (S k)) →
  ∀ state w var_chains chain_stats w',
    BaseHamiltonianMonteCarlo.sample_chain self n_sample state
      chain_var_funcs w = Ok (var_chains, chain_stats) w' →
    1 ≤ n_sample ∧
    write_counts chain_stats = counts (Z.to_nat n_sample - 1)%nat.
Proof.
  intros Hinit Hstep state w var_chains chain_stats w' Hrun.
  unfold BaseHamiltonianMonteCarlo.sample_chain in Hrun.
  apply bind_Ok_inv in Hrun as (s0 & w1 & _ & Hrun).
  apply bind_Ok_inv in Hrun as ([] & w2 & _ & Hrun).
  apply bind_Ok_inv in Hrun as (cs0 & w3 & [Hn Hc]%Hinit & Hrun).
  apply bind_Ok_inv in Hrun as (vcs0 & w4 & _ & Hrun).
  split; [done|].
  change 0 with (Z.of_nat 0) in Hrun.
  replace (n_sample - 1) with (Z.of_nat (Z.to_nat n_sample - 1)) in Hrun
    by lia.
  by apply (chain_loop_counts self chain_var_funcs counts Hstep) in Hrun.
Qed.

(** Every cell of an array whose counts are [filled n n] was stored into
    exactly once. *)
Lemma filled_written_once (a : ndarray val) n :
  length <$> cells a = filled n n →
  len a = n ∧ ∀ i, (i < len a)%nat → writes a i = Some 1%nat.
Proof.
  intros Ha.
  assert (Hlen : len a = n).
  { unfold len. rewrite <- (length_fmap length), Ha, filled_length. lia. }
  split; [done|]. intros i Hi. unfold writes.
  rewrite <- list_lookup_fmap, Ha. apply filled_full. lia.
Qed.

(** C6, as the code has it.  A chain run of [n_sample] samples that
    returns has [n_sample >= 1]; its statistics arrays are the ones
    [initialise_chain_stats] made at the start: [hamiltonian] with
    [n_sample] cells, every other array with [n_sample - 1] cells, one per
    transition; and every cell of every array was stored into exactly
    once.  This holds for every class that keeps the statistics of
    [BaseMetropolisHMC] and for those that keep the ones of
    [DynamicMultinomialHMC]. *)
Theorem chain_stats_written_once `{!Integrator} `{!LogRepFloatOps}
    self n_sample state chain_var_funcs w var_chains chain_stats w' :
  metropolis_stats self ∨ dynamic_stats self →
  BaseHamiltonianMonteCarlo.sample_chain self n_sample state
    chain_var_funcs w = Ok (var_chains, chain_stats) w' →
  1 ≤ n_sample ∧
  ∀ key t a,
    chain_stats !! key = Some (t, a) →
    len a = Z.to_nat (if bool_decide (key = "hamiltonian")
                      then n_sample else n_sample - 1) ∧
    ∀ i, (i < len a)%nat → writes a i = Some 1%nat.
Proof.
  intros Hself Hrun.
  assert (Hcounts : 1 ≤ n_sample ∧
    (write_counts chain_stats
       = metropolis_counts (Z.to_nat n_sample) (Z.to_nat n_sample - 1) ∨
     write_counts chain_stats
       = dynamic_counts (Z.to_nat n_sample) (Z.to_nat n_sample - 1))).
  { destruct Hself as [[Hi Hu]|[Hi Hu]].
    - destruct (sample_chain_counts self chain_var_funcs n_sample
                  (metropolis_counts (Z.to_nat n_sample))) with
        (1 := λ state w cs w' Hr,
                metropolis_init_counts state n_sample w cs w'
                  (eq_ind _ (λ f, f state n_sample w = Ok cs w') Hr _ Hi))
        (3 := Hrun) as [Hn Hc]; [|by split; [|left]].
      intros k cs ts w0 cs' w0' Hc Hr. rewrite Hu in Hr.
      by eapply metropolis_update_counts.
    - destruct (sample_chain_counts self chain_var_funcs n_sample
                  (dynamic_counts (Z.to_nat n_sample))) with
        (1 := λ state w cs w' Hr,
                dynamic_init_counts state n_sample w cs w'
                  (eq_ind _ (λ f, f state n_sample w = Ok cs w') Hr _ Hi))
        (3 := Hrun) as [Hn Hc]; [|by split; [|right]].
      intros k cs ts w0 cs' w0' Hc Hr. rewrite Hu in Hr.
      by eapply dynamic_update_counts. }
  destruct Hcounts as [Hn Hcounts]. split; [done|].
  intros key t a Hkey.
  assert (Ha : write_counts chain_stats !! key = Some (length <$> cells a)).
  { unfold write_counts. by rewrite lookup_fmap, Hkey. }
  replace (S (Z.to_nat n_sample - 1)) with (Z.to_nat n_sample)
    in * by lia.
  assert (Hfull : length <$> cells a =
    filled (Z.to_nat (if bool_decide (key = "hamiltonian")
                      then n_sample else n_sample - 1))
           (Z.to_nat (if bool_decide (key = "hamiltonian")
                      then n_sample else n_sample - 1))).
  { destruct Hcounts as [Hc|Hc]; rewrite Hc in Ha;
      unfold metropolis_counts, dynamic_counts in Ha;
      replace (S (Z.to_nat n_sample - 1)) with (Z.to_nat n_sample)
        in Ha by lia;
      replace (Z.to_nat n_sample - 1)%nat with (Z.to_nat (n_sample - 1))
        in Ha by lia;
      repeat (rewrite lookup_insert in Ha; case_decide; subst;
              [by injection Ha|]);
      by rewrite lookup_empty in Ha. }
  by apply filled_written_once.
Qed.
(** Which statistics each sampler class keeps. *)
Lemma sampler_classes_stats `{!Integrator} `{!LogRepFloatOps} sm rm cm dm :
  metropolis_stats (StaticMetropolisHMC.methods sm) ∧
  metropolis_stats (RandomMetropolisHMC.methods rm) ∧
  metropolis_stats (StaticMetropolisCorrelatedMomentumHMC.methods cm sm) ∧
  metropolis_stats (RandomMetropolisCorrelatedMomentumHMC.methods cm rm) ∧
  dynamic_stats (DynamicMultinomialHMC.methods dm).
Proof. by repeat split. Qed.
End ChainStats.

Section ChainExamples.
Import Example1D.

(** C6, counterexample.  In the chain of three samples the [hamiltonian]
    array has three cells, but the arrays [n_step] and [accept_prob]
    have two: not every statistics array has as many cells as samples
    were requested. *)
Lemma chain_stats_length_counterexample :
  stat_len "hamiltonian" static_chain = Some 3%nat ∧
  stat_len "n_step" static_chain = Some 2%nat ∧
  stat_len "accept_prob" static_chain = Some 2%nat ∧
  ¬ (∀ key n, stat_len key static_chain = Some n → n = 3%nat).
Proof.
  assert (Hn : stat_len "n_step" static_chain = Some 2%nat) by reflexivity.
  split; [reflexivity|]. split; [exact Hn|]. split; [reflexivity|].
  intros Hall. specialize (Hall _ _ Hn). discriminate Hall.
Qed.

Lemma chain_stats_written_once_witness :
  match static_chain with
  | Ok (_, chain_stats) _ =>
      ∀ key t a,
        chain_stats !! key = Some (t, a) →
        len a = Z.to_nat (if bool_decide (key = "hamiltonian")
                          then 3 else 3 - 1) ∧
        ∀ i, (i < len a)%nat → writes a i = Some 1%nat
  | Raise _ _ => False
  end.
Proof.
  destruct static_chain as [[var_chains chain_stats] w'|e w'] eqn:Hrun.
  - exact (proj2 (chain_stats_written_once
                    (StaticMetropolisHMC.methods
                       {| StaticMetropolisHMC.n_step := 1 |})
                    3 (PState 0) [BaseHamiltonianMonteCarlo.extract_pos]
                    (world slow [1 # 4; 1 # 2; 3 # 4; 1 # 2])
                    var_chains chain_stats w'
                    (or_introl (conj eq_refl eq_refl)) Hrun)).
  - assert (Hret : returned static_chain = true) by reflexivity.
    rewrite Hrun in Hret. discriminate Hret.
Defined.
End ChainExamples.

(** ** More on the Metropolis transition *)

Section MetropolisRuns.
Context `{System} `{!Integrator}.
Import BaseMetropolisHMC.

(** A trajectory that fails has a first failing step. *)
Lemma run_steps_fail k : ∀ s msg,
  run_steps k s = inl msg →
  ∃ j sj, (j < k)%nat ∧ run_steps j s = inr sj ∧ step sj = inl msg.
Proof.
  induction k as [|k IH]; intros s msg Hrun; simpl in Hrun; [done|].
  destruct (step s) as [msg'|s1] eqn:Hs.
  - injection Hrun as ->. exists 0%nat, s. split; [lia|done].
  - destruct (IH _ _ Hrun) as (j & sj & Hj & Hrj & Hf).
    exists (S j), sj. split; [lia|]. simpl. by rewrite Hs.
Qed.

(** With no step to take, the transition negates the direction of the one
    object twice. *)
Lemma metropolis_no_steps l s n_step w :
  n_step ≤ 0 →
  objects w !! l = Some s →
  _sample_dynamics_transition (PState l) n_step w =
    Ok (PState l, metropolis_trans_stats (h s) (metropolis_accept_prob s s)
                    n_step)
       {| objects := objects w; rng := (uniform (rng w)).2;
          warnings := warnings w |}.
Proof.
  intros Hn Hl. unfold _sample_dynamics_transition.
  rewrite (bind_Ok _ _ _ _ _ (system_h_Ok _ _ _ Hl)).
  rewrite seqZ_nil by done. cbn [integrate]. rewrite bind_mret_Ok.
  rewrite (bind_Ok _ _ _ _ _ (negate_dir_Ok _ _ _ Hl)).
  set (s1 := set_dir (dir s * -1) s).
  set (w1 := {| objects := <[l:=s1]> (objects w); rng := rng w;
                warnings := warnings w |}).
  assert (Hlen : (l < length (objects w))%nat) by by eapply lookup_lt_Some.
  assert (Hl1 : objects w1 !! l = Some s1).
  { simpl. by apply list_lookup_insert_eq. }
  rewrite (bind_Ok _ _ _ _ _ (system_h_Ok _ _ _ Hl1)).
  rewrite (bind_Ok _ _ _ _ _ (rng_uniform_Ok _)).
  set (u := (uniform (rng w1)).1).
  set (w2 := {| objects := objects w1; rng := (uniform (rng w1)).2;
                warnings := warnings w1 |}).
  assert (Hsame :
    (if float_lt_val u (min_1 (fexp (fsub (h s) (h s1))))
     then PState l else PState l) = PState l) by by destruct float_lt_val.
  rewrite Hsame.
  assert (Hl2 : objects w2 !! l = Some s1) by done.
  rewrite (bind_Ok _ _ _ _ _ (negate_dir_Ok _ _ _ Hl2)).
  assert (Hback : <[l:=set_dir (dir s1 * -1) s1]> (objects w2) = objects w).
  { change (objects w2) with (<[l:=s1]> (objects w)).
    rewrite list_insert_insert_eq. unfold s1. rewrite set_dir_twice.
    by apply list_insert_id. }
  rewrite Hback.
  set (w3 := {| objects := objects w; rng := rng w2;
                warnings := warnings w2 |}).
  assert (Hl3 : objects w3 !! l = Some s) by done.
  by rewrite (bind_Ok _ _ _ _ _ (system_h_Ok _ _ _ Hl3)).
Qed.

(** A trajectory of [n_step >= 1] steps that goes through: the proposal is
    a new object; when it is accepted the store is the old one with the
    states of the trajectory added, when it is rejected both the proposal
    and the chain state are left with their direction negated. *)
Lemma metropolis_completed_run l s n_step w sp :
  1 ≤ n_step →
  objects w !! l = Some s →
  run_steps (Z.to_nat n_step) s = inr sp →
  ∃ lp extra,
    (length (objects w) ≤ lp)%nat ∧
    (objects w ++ extra) !! lp = Some sp ∧
    _sample_dynamics_transition (PState l) n_step w =
      if float_lt_val (uniform (rng w)).1 (metropolis_accept_prob s sp)
      then
        Ok (PState lp,
            metropolis_trans_stats (h sp) (metropolis_accept_prob s sp) n_step)
           {| objects := objects w ++ extra; rng := (uniform (rng w)).2;
              warnings := warnings w |}
      else
        Ok (PState l,
            metropolis_trans_stats (h (negated s))
              (metropolis_accept_prob s sp) n_step)
           {| objects := <[l := negated s]>
                           (<[lp := negated sp]> (objects w ++ extra));
              rng := (uniform (rng w)).2; warnings := warnings w |}.
Proof.
  intros Hn Hl Hrun.
  assert (Hlen : (l < length (objects w))%nat) by by eapply lookup_lt_Some.
  assert (Hrun' : run_steps (length (seqZ 0 n_step)) s = inr sp)
    by by rewrite length_seqZ.
  destruct (integrate_Completed _ _ _ _ _ Hl Hrun')
    as (lp & extra & Hi & Hlp & _ & Hfresh).
  assert (Hne : seqZ 0 n_step ≠ []).
  { intros E. apply (f_equal length) in E. rewrite length_seqZ in E.
    simpl in E. lia. }
  specialize (Hfresh Hne). exists lp, extra. split; [done|]. split; [done|].
  unfold _sample_dynamics_transition.
  rewrite (bind_Ok _ _ _ _ _ (system_h_Ok _ _ _ Hl)).
  rewrite (bind_Ok _ _ _ _ _ Hi).
  set (w1 := {| objects := objects w ++ extra; rng := rng w;
                warnings := warnings w |}) in *.
  assert (Hlp1 : objects w1 !! lp = Some sp) by done.
  rewrite (bind_Ok _ _ _ _ _ (negate_dir_Ok _ _ _ Hlp1)).
  change (set_dir (dir sp * -1) sp) with (negated sp).
  set (w2 := {| objects := <[lp:=negated sp]> (objects w1); rng := rng w1;
                warnings := warnings w1 |}).
  assert (Hlplen : (lp < length (objects w1))%nat) by by eapply lookup_lt_Some.
  assert (Hlp2 : objects w2 !! lp = Some (negated sp)).
  { simpl. by apply list_lookup_insert_eq. }
  assert (Hl2 : objects w2 !! l = Some s).
  { simpl. rewrite list_lookup_insert_ne by lia.
    by apply lookup_app_l_Some. }
  rewrite (bind_Ok _ _ _ _ _ (system_h_Ok _ _ _ Hlp2)).
  rewrite (bind_Ok _ _ _ _ _ (rng_uniform_Ok _)).
  change (uniform (rng w2)) with (uniform (rng w)).
  change (min_1 (fexp (fsub (h s) (h (negated sp)))))
    with (metropolis_accept_prob s sp).
  set (w3 := {| objects := objects w2; rng := (uniform (rng w)).2;
                warnings := warnings w2 |}).
  destruct (float_lt_val (uniform (rng w)).1 (metropolis_accept_prob s sp));
    cbv beta iota.
  - assert (Hlp3 : objects w3 !! lp = Some (negated sp)) by done.
    rewrite (bind_Ok _ _ _ _ _ (negate_dir_Ok _ _ _ Hlp3)).
    assert (Hback : <[lp:=set_dir (dir (negated sp) * -1) (negated sp)]>
                       (objects w3) = objects w ++ extra).
    { change (objects w3) with (<[lp:=negated sp]> (objects w ++ extra)).
      rewrite list_insert_insert_eq. unfold negated. rewrite set_dir_twice.
      by apply list_insert_id. }
    rewrite Hback.
    set (w4 := {| objects := objects w ++ extra; rng := rng w3;
                  warnings := warnings w3 |}).
    assert (Hlp4 : objects w4 !! lp = Some sp) by done.
    by rewrite (bind_Ok _ _ _ _ _ (system_h_Ok _ _ _ Hlp4)).
  - assert (Hl3 : objects w3 !! l = Some s) by done.
    rewrite (bind_Ok _ _ _ _ _ (negate_dir_Ok _ _ _ Hl3)).
    change (set_dir (dir s * -1) s) with (negated s).
    set (w4 := {| objects := <[l:=negated s]> (objects w3); rng := rng w3;
                  warnings := warnings w3 |}).
    assert (Hl4 : objects w4 !! l = Some (negated s)).
    { simpl. apply list_lookup_insert_eq. rewrite length_insert.
      rewrite length_app. lia. }
    by rewrite (bind_Ok _ _ _ _ _ (system_h_Ok _ _ _ Hl4)).
Qed.

(** A trajectory whose step after [k] completed ones fails. *)
Lemma metropolis_failed_run l s n_step w k sk msg :
  objects w !! l = Some s →
  (k < Z.to_nat n_step)%nat →
  run_steps k s = inr sk →
  step sk = inl msg →
  ∃ extra,
    _sample_dynamics_transition (PState l) n_step w =
      Ok (PState l, metropolis_trans_stats (h s) (VInt 0) (Z.of_nat k))
         {| objects := objects w ++ extra; rng := rng w;
            warnings := TrajectoryIntegratorError msg :: warnings w |}.
Proof.
  intros Hl Hk Hrun Hfail.
  assert (Hidx : seqZ 0 n_step !! k = Some (Z.of_nat k)).
  { rewrite lookup_seqZ. split; lia. }
  destruct (integrate_Failed _ _ _ _ _ _ _ _ Hl Hidx Hrun Hfail)
    as (extra & Hi).
  exists extra. unfold _sample_dynamics_transition.
  rewrite (bind_Ok _ _ _ _ _ (system_h_Ok _ _ _ Hl)).
  by rewrite (bind_Ok _ _ _ _ _ Hi).
Qed.

Lemma metropolis_trans_stats_lookup hm a n :
  metropolis_trans_stats hm a n !! "hamiltonian" = Some (VFloat hm) ∧
  metropolis_trans_stats hm a n !! "accept_prob" = Some a ∧
  metropolis_trans_stats hm a n !! "n_step" = Some (VInt n) ∧
  dom (metropolis_trans_stats hm a n)
    = ({["hamiltonian"; "accept_prob"; "n_step"]} : gset string).
Proof.
  unfold metropolis_trans_stats. split; [by rewrite lookup_insert_eq|].
  split; [by rewrite lookup_insert_ne, lookup_insert_eq|].
  split.
  { rewrite lookup_insert_ne by done. rewrite lookup_insert_ne by done.
    by rewrite lookup_insert_eq. }
  rewrite !dom_insert_L, dom_empty_L. set_solver.
Qed.



(** X2. The Metropolis transition never writes a position or a momentum
    and never removes an object: every object that was in the store is
    still there, the objects other than the chain state are exactly as
    they were, and the chain state has its position, momentum and
    dimension, with its direction kept or negated. *)
Theorem metropolis_transition_store l s n_step w :
  objects w !! l = Some s →
  ∃ result w' s',
    _sample_dynamics_transition (PState l) n_step w = Ok result w' ∧
    (length (objects w) ≤ length (objects w'))%nat ∧
    (∀ j x, j ≠ l → objects w !! j = Some x → objects w' !! j = Some x) ∧
    objects w' !! l = Some s' ∧
    pos s' = pos s ∧ mom s' = mom s ∧ n_dim s' = n_dim s ∧
    (dir s' = dir s ∨ dir s' = dir s * -1).
Proof.
  intros Hl.
  assert (Hlen : (l < length (objects w))%nat) by by eapply lookup_lt_Some.
  destruct (Z.le_gt_cases n_step 0) as [Hn|Hn].
  { rewrite (metropolis_no_steps _ _ _ _ Hn Hl).
    eexists _, _, s. split; [reflexivity|]. simpl.
    split; [lia|]. split; [done|]. split; [done|].
    split; [done|]. split; [done|]. split; [done|by left]. }
  destruct (run_steps (Z.to_nat n_step) s) as [msg|sp] eqn:Hrun.
  - destruct (run_steps_fail _ _ _ Hrun) as (j & sj & Hj & Hrj & Hf).
    destruct (metropolis_failed_run _ _ _ w _ _ _ Hl Hj Hrj Hf) as [extra ->].
    eexists _, _, s. split; [reflexivity|]. simpl.
    split; [rewrite length_app; lia|].
    split; [intros j' x _ Hx; by apply lookup_app_l_Some|].
    split; [by apply lookup_app_l_Some|].
    split; [done|]. split; [done|]. split; [done|by left].
  - assert (Hn1 : 1 ≤ n_step) by lia.
    destruct (metropolis_completed_run _ _ _ w _ Hn1 Hl Hrun)
      as (lp & extra & Hfresh & Hlp & ->).
    destruct (float_lt_val _ _).
    + eexists _, _, s. split; [reflexivity|]. simpl.
      split; [rewrite length_app; lia|].
      split; [intros j' x _ Hx; by apply lookup_app_l_Some|].
      split; [by apply lookup_app_l_Some|].
      split; [done|]. split; [done|]. split; [done|by left].
    + eexists _, _, (negated s). split; [reflexivity|]. simpl.
      split; [rewrite !length_insert, length_app; lia|].
      split.
      { intros j' x Hj' Hx.
        assert (j' < length (objects w))%nat by by eapply lookup_lt_Some.
        rewrite list_lookup_insert_ne by done.
        rewrite list_lookup_insert_ne by lia.
        by apply lookup_app_l_Some. }
      split.
      { apply list_lookup_insert_eq. rewrite length_insert, length_app. lia. }
      split; [done|]. split; [done|]. split; [done|by right].
Qed.

(** X3. After a trajectory of [n_step >= 1] steps that goes through, an
    accepted proposal is returned as a new object holding exactly the state
    the integrator reached, direction included, while the chain state
    object is as it was; a rejected proposal returns the chain state
    object, with nothing but its direction changed.  Either way the
    reported energy is the one of the returned state, the generator has
    made exactly one uniform draw and nothing was logged. *)
Theorem metropolis_accept_reject l s n_step w sp :
  1 ≤ n_step →
  objects w !! l = Some s →
  run_steps (Z.to_nat n_step) s = inr sp →
  ∃ state' stats w',
    _sample_dynamics_transition (PState l) n_step w = Ok (state', stats) w' ∧
    rng w' = (uniform (rng w)).2 ∧
    warnings w' = warnings w ∧
    stats !! "n_step" = Some (VInt n_step) ∧
    stats !! "accept_prob" = Some (metropolis_accept_prob s sp) ∧
    if float_lt_val (uniform (rng w)).1 (metropolis_accept_prob s sp)
    then
      ∃ lp, state' = PState lp ∧ (length (objects w) ≤ lp)%nat ∧
            objects w' !! lp = Some sp ∧
            objects w' !! l = Some s ∧
            stats !! "hamiltonian" = Some (VFloat (h sp))
    else
      state' = PState l ∧
      objects w' !! l = Some (negated s) ∧
      stats !! "hamiltonian" = Some (VFloat (h (negated s))).
Proof.
  intros Hn Hl Hrun.
  assert (Hlen : (l < length (objects w))%nat) by by eapply lookup_lt_Some.
  destruct (metropolis_completed_run _ _ _ w _ Hn Hl Hrun)
    as (lp & extra & Hfresh & Hlp & ->).
  destruct (float_lt_val _ _).
  - destruct (metropolis_trans_stats_lookup (h sp)
                (metropolis_accept_prob s sp) n_step) as (Hh & Ha & Hk & _).
    eexists _, _, _. split; [reflexivity|].
    split; [done|]. split; [done|]. split; [done|]. split; [done|].
    exists lp. split; [done|]. split; [done|]. split; [done|].
    split; [by apply lookup_app_l_Some|done].
  - destruct (metropolis_trans_stats_lookup (h (negated s))
                (metropolis_accept_prob s sp) n_step) as (Hh & Ha & Hk & _).
    eexists _, _, _. split; [reflexivity|].
    split; [done|]. split; [done|]. split; [done|]. split; [done|].
    split; [done|]. split; [|done]. simpl.
    apply list_lookup_insert_eq. rewrite length_insert, length_app. lia.
Qed.

(** X4. Asked for a negative number of steps, the transition takes none:
    it returns the object it was given, the store is as it was, one uniform
    draw was made, and the statistics report the negative number itself as
    [n_step]. *)
Theorem metropolis_negative_steps l s n_step w :
  n_step < 0 →
  objects w !! l = Some s →
  ∃ stats w',
    _sample_dynamics_transition (PState l) n_step w = Ok (PState l, stats) w' ∧
    objects w' = objects w ∧
    rng w' = (uniform (rng w)).2 ∧
    warnings w' = warnings w ∧
    stats !! "n_step" = Some (VInt n_step) ∧
    stats !! "hamiltonian" = Some (VFloat (h s)).
Proof.
  intros Hn Hl. assert (Hn0 : n_step ≤ 0) by lia.
  rewrite (metropolis_no_steps _ _ _ _ Hn0 Hl).
  destruct (metropolis_trans_stats_lookup (h s) (metropolis_accept_prob s s)
              n_step) as (Hh & _ & Hk & _).
  eexists _, _. split; [reflexivity|]. by repeat split.
Qed.

(** X5. The random integration time sampler first draws the number of
    steps from its range, then runs the Metropolis transition with it: when
    the trajectory of that many steps goes through, the statistics report
    the number drawn, and the generator has made the integer draw followed
    by exactly one uniform draw. *)
Theorem random_transition_draw_order self l s w sp :
  let lo := (RandomMetropolisHMC.n_step_range self).1 in
  let hi := (RandomMetropolisHMC.n_step_range self).2 in
  let n := (random_integers lo hi (rng w)).1 in
  let r := (random_integers lo hi (rng w)).2 in
  objects w !! l = Some s →
  run_steps (Z.to_nat n) s = inr sp →
  ∃ state' stats w',
    RandomMetropolisHMC.sample_dynamics_transition self (PState l) w
      = Ok (state', stats) w' ∧
    stats !! "n_step" = Some (VInt n) ∧
    rng w' = (uniform r).2 ∧
    warnings w' = warnings w.
Proof.
  intros lo hi n r Hl Hrun.
  rewrite random_transition_unfold. fold lo hi. fold n r.
  set (w0 := {| objects := objects w; rng := r; warnings := warnings w |}).
  assert (Hl0 : objects w0 !! l = Some s) by done.
  destruct (Z.le_gt_cases n 0) as [Hn|Hn].
  - rewrite (metropolis_no_steps _ _ _ _ Hn Hl0).
    destruct (metropolis_trans_stats_lookup (h s) (metropolis_accept_prob s s)
                n) as (_ & _ & Hk & _).
    eexists _, _, _. split; [reflexivity|]. by repeat split.
  - assert (Hn1 : 1 ≤ n) by lia.
    destruct (metropolis_completed_run _ _ _ w0 _ Hn1 Hl0 Hrun)
      as (lp & extra & Hfresh & Hlp & ->).
    destruct (float_lt_val _ _).
    + destruct (metropolis_trans_stats_lookup (h sp)
                  (metropolis_accept_prob s sp) n) as (_ & _ & Hk & _).
      eexists _, _, _. split; [reflexivity|]. by repeat split.
    + destruct (metropolis_trans_stats_lookup (h (negated s))
                  (metropolis_accept_prob s sp) n) as (_ & _ & Hk & _).
      eexists _, _, _. split; [reflexivity|]. by repeat split.
Qed.
End MetropolisRuns.

(** ** More on the tree builder *)

Section TreeRuns.
Context `{System} `{!Integrator} `{!LogRepFloatOps}.
Import DynamicMultinomialHMC.

(** A first step that fails ends a build of any depth at once. *)
Lemma build_tree_first_fail self h_init msg d : ∀ l s w sum_mom sum_weight
    stats,
  objects w !! l = Some s →
  step s = inl msg →
  build_tree self d (PState l) sum_mom sum_weight stats h_init w =
    Ok {| terminate := true; edge_i := PNone; edge_o := PNone;
          proposal := PNone; sum_mom' := sum_mom; sum_weight' := sum_weight;
          stats' := stats |}
       {| objects := objects w; rng := rng w;
          warnings := BuildTreeIntegratorError msg :: warnings w |}.
Proof.
  induction d as [|d IH]; intros l s w sum_mom sum_weight stats Hl Hs.
  - cbn [build_tree]. unfold mbind at 1, M_bind, try_RuntimeError.
    by rewrite (leaf_Raise _ _ _ _ _ _ _ _ _ Hl Hs).
  - cbn [build_tree].
    rewrite (bind_Ok _ _ _ _ _ (deref_Ok _ _ _ Hl)).
    by rewrite (bind_Ok _ _ _ _ _ (IH _ _ _ _ _ _ Hl Hs)).
Qed.

Lemma leaf_stats_other self stats h_init e n a key :
  key ≠ "n_step" → key ≠ "sum_acc_prob" → key ≠ "divergent" →
  leaf_stats self stats h_init e n a !! key = stats !! key.
Proof.
  intros H1' H2' H3'. unfold leaf_stats.
  destruct fltb; by rewrite !lookup_insert_ne.
Qed.

Lemma leaf_stats_divergent self stats h_init e n a :
  fltb (max_delta_h self) (fsub e h_init) = false →
  leaf_stats self stats h_init e n a !! "divergent" = stats !! "divergent".
Proof.
  intros Hd. unfold leaf_stats. rewrite Hd. by rewrite !lookup_insert_ne.
Qed.

(** The books of [build_tree]: one new object and one count per step that
    succeeded, nothing else in the store touched. *)
Lemma build_tree_accounting self h_init d : ∀ l s w sum_mom sum_weight stats
    n a,
  (∀ x y, step x = inr y → is_Some (mom y)) →
  objects w !! l = Some s →
  stats !! "n_step" = Some (VInt n) →
  stats !! "sum_acc_prob" = Some a →
  ∃ b w' extra,
    build_tree self d (PState l) sum_mom sum_weight stats h_init w
      = Ok b w' ∧
    objects w' = objects w ++ extra ∧
    stats' b !! "n_step" = Some (VInt (n + Z.of_nat (length extra))) ∧
    (length extra ≤ 2 ^ d)%nat ∧
    is_Some (stats' b !! "sum_acc_prob") ∧
    (∀ key, key ≠ "n_step" → key ≠ "sum_acc_prob" → key ≠ "divergent" →
            stats' b !! key = stats !! key) ∧
    (stats' b !! "divergent" = stats !! "divergent" ∨
     stats' b !! "divergent" = Some (VBool true)) ∧
    (terminate b = false →
       length extra = (2 ^ d)%nat ∧
       warnings w' = warnings w ∧
       stats' b !! "divergent" = stats !! "divergent" ∧
       ∀ p, p ∈ [edge_i b; edge_o b; proposal b] →
            ∃ lp sp, p = PState lp ∧ (length (objects w) ≤ lp)%nat ∧
                     objects w' !! lp = Some sp).
Proof.
  induction d as [|d IH]; intros l s w sum_mom sum_weight stats n a
    Hmom Hl Hn Ha.
  - cbn [build_tree]. unfold mbind at 1, M_bind, try_RuntimeError.
    destruct (step s) as [msg|s1] eqn:Hs.
    + rewrite (leaf_Raise _ _ _ _ _ _ _ _ _ Hl Hs).
      eexists _, _, []. split; [reflexivity|]. simpl.
      rewrite app_nil_r, Z.add_0_r.
      split; [done|]. split; [done|]. split; [lia|].
      split; [by eexists|]. split; [done|]. split; [by left|done].
    + destruct (Hmom _ _ Hs) as [m Hm].
      rewrite (leaf_Ok _ _ _ _ _ _ _ _ _ _ _ _ Hl Hs Hm Hn Ha).
      eexists _, _, [s1]. split; [reflexivity|]. simpl.
      split; [done|]. split; [apply leaf_stats_n_step|].
      split; [lia|]. split; [apply leaf_stats_sum_acc_prob|].
      split; [intros key; apply leaf_stats_other|].
      split.
      { unfold leaf_stats. destruct fltb.
        - right. by rewrite lookup_insert_eq.
        - left. by rewrite !lookup_insert_ne. }
      intros Hterm. rewrite Hterm.
      split; [done|]. split; [done|].
      split; [by apply leaf_stats_divergent|].
      intros p Hp. exists (length (objects w)), s1.
      split.
      { apply list_elem_of_In in Hp. simpl in Hp.
        destruct Hp as [Hp|[Hp|[Hp|[]]]]; by rewrite <- Hp. }
      split; [lia|].
      rewrite lookup_app_r by lia. by rewrite Nat.sub_diag.
  - cbn [build_tree].
    rewrite (bind_Ok _ _ _ _ _ (deref_Ok _ _ _ Hl)).
    destruct (IH l s w (np_zeros (n_dim s)) (lrf_val (of_Z 0)) stats n a
                Hmom Hl Hn Ha)
      as (inner & w1 & extra1 & Hinner & Hobj1 & Hn1 & Hle1 & [a1 Ha1]
          & Hkeys1 & Hdiv1 & Hgo1).
    rewrite (bind_Ok _ _ _ _ _ Hinner).
    assert (Hpow : (2 ^ S d = 2 ^ d + 2 ^ d)%nat) by (simpl; lia).
    destruct (terminate inner) eqn:Hti.
    + eexists _, w1, extra1. split; [reflexivity|]. simpl.
      split; [done|]. split; [done|]. split; [lia|]. split; [by eexists|].
      split; [done|]. split; [done|done].
    + destruct (Hgo1 eq_refl) as (Hlen1 & Hlog1 & Hd1 & Hlive1).
      destruct (Hlive1 (edge_o inner)) as (lo & so & Heo & Hfresh_o & Hlo);
        [by repeat constructor|].
      rewrite Heo.
      destruct (IH lo so w1 (np_zeros (n_dim s)) (lrf_val (of_Z 0))
                  (stats' inner) _ a1 Hmom Hlo Hn1 Ha1)
        as (outer & w2 & extra2 & Houter & Hobj2 & Hn2 & Hle2 & Ha2
            & Hkeys2 & Hdiv2 & Hgo2).
      rewrite (bind_Ok _ _ _ _ _ Houter).
      assert (Hobj12 : objects w2 = objects w ++ extra1 ++ extra2)
        by by rewrite Hobj2, Hobj1, <- app_assoc.
      assert (Hn12 : stats' outer !! "n_step" =
                Some (VInt (n + Z.of_nat (length (extra1 ++ extra2))))).
      { rewrite Hn2. do 2 f_equal. rewrite length_app. lia. }
      assert (Hkeys12 : ∀ key, key ≠ "n_step" → key ≠ "sum_acc_prob" →
                key ≠ "divergent" → stats' outer !! key = stats !! key).
      { intros key K1 K2 K3. by rewrite Hkeys2, Hkeys1. }
      assert (Hdiv12 : stats' outer !! "divergent" = stats !! "divergent" ∨
                       stats' outer !! "divergent" = Some (VBool true)).
      { destruct Hdiv2 as [Hdiv2|Hdiv2]; [by rewrite Hdiv2|by right]. }
      destruct (terminate outer) eqn:Hto.
      * eexists _, w2, (extra1 ++ extra2). split; [reflexivity|]. simpl.
        split; [done|]. split; [done|].
        split; [rewrite length_app; lia|]. split; [done|].
        split; [done|]. split; [done|done].
      * destruct (Hgo2 eq_refl) as (Hlen2 & Hlog2 & Hd2 & Hlive2).
        rewrite (bind_Ok _ _ _ _ _ (rng_uniform_Ok _)).
        set (w3 := {| objects := objects w2; rng := (uniform (rng w2)).2;
                      warnings := warnings w2 |}).
        destruct (Hlive1 (edge_i inner)) as (li & si & Hei & Hfresh_i & Hli);
          [by repeat constructor|].
        destruct (Hlive2 (edge_o outer)) as (lo2 & so2 & Heo2 & Hfresh_o2
                                             & Hlo2); [by repeat constructor|].
        assert (Hli3 : objects w3 !! li = Some si).
        { simpl. rewrite Hobj2. by apply lookup_app_l_Some. }
        rewrite Hei, Heo2.
        destruct (termination_criterion_Ok li si lo2 so2
                    (vec_add (sum_mom' inner) (sum_mom' outer)) w3 Hli3 Hlo2)
          as [t Ht].
        rewrite (bind_Ok _ _ _ _ _ Ht).
        eexists _, w3, (extra1 ++ extra2). split; [reflexivity|]. simpl.
        split; [done|]. split; [done|].
        split; [rewrite length_app; lia|]. split; [done|].
        split; [done|]. split; [done|].
        intros _. split; [rewrite length_app; lia|].
        split; [by rewrite Hlog2|]. split; [by rewrite Hd2|].
        assert (Hw1 : (length (objects w) ≤ length (objects w1))%nat).
        { rewrite Hobj1, length_app. lia. }
        intros p Hp.
        assert (Hcases : p = PState li ∨ p = PState lo2 ∨
                         p = proposal outer ∨ p = proposal inner).
        { apply list_elem_of_In in Hp. simpl in Hp.
          destruct Hp as [<-|[<-|[<-|[]]]]; [by left|by right; left|].
          destruct float_lt_lrf; [by right; right; left|by right; right; right]. }
        destruct Hcases as [->|[->|[->| ->]]].
        -- by exists li, si.
        -- exists lo2, so2. split; [done|]. split; [lia|done].
        -- destruct (Hlive2 (proposal outer)) as (lp & sp & -> & Hf & Hlp);
             [by repeat constructor|].
           exists lp, sp. split; [done|]. split; [lia|done].
        -- destruct (Hlive1 (proposal inner)) as (lp & sp & -> & Hf & Hlp);
             [by repeat constructor|].
           exists lp, sp. split; [done|]. split; [done|].
           simpl. rewrite Hobj2. by apply lookup_app_l_Some.
Qed.

(** X6. [build_tree] keeps exact books: at any depth it returns, it only
    adds objects to the store, one for each integrator step that succeeded,
    and [n_step] grows by exactly that number, at most [2^depth]; a tree
    that does not signal termination took exactly [2^depth] steps, logged
    nothing and left the divergence flag as it was. *)
Theorem build_tree_counts_steps self h_init d l s w sum_mom sum_weight stats
    n a :
  (∀ x y, step x = inr y → is_Some (mom y)) →
  objects w !! l = Some s →
  stats !! "n_step" = Some (VInt n) →
  stats !! "sum_acc_prob" = Some a →
  ∃ b w' extra,
    build_tree self d (PState l) sum_mom sum_weight stats h_init w
      = Ok b w' ∧
    objects w' = objects w ++ extra ∧
    stats' b !! "n_step" = Some (VInt (n + Z.of_nat (length extra))) ∧
    (length extra ≤ 2 ^ d)%nat ∧
    (terminate b = false →
       length extra = (2 ^ d)%nat ∧
       warnings w' = warnings w ∧
       stats' b !! "divergent" = stats !! "divergent").
Proof.
  intros Hmom Hl Hn Ha.
  destruct (build_tree_accounting self h_init d l s w sum_mom sum_weight
              stats n a Hmom Hl Hn Ha)
    as (b & w' & extra & Hrun & Hobj & Hn' & Hle & _ & _ & _ & Hgo).
  exists b, w', extra. split; [done|]. split; [done|]. split; [done|].
  split; [done|]. intros Ht.
  destruct (Hgo Ht) as (Hlen & Hlog & Hd & _). done.
Qed.

(** X7. When the integrator fails on the very first step of a build, of
    whatever depth, the build signals termination and hands back no state;
    the failure is logged, but it is neither counted as a step nor flagged
    as a divergence: the statistics, the accumulators, the store and the
    generator are as they were. *)
Theorem build_tree_failed_first_step self h_init d l s msg w sum_mom
    sum_weight stats :
  objects w !! l = Some s →
  step s = inl msg →
  ∃ b w',
    build_tree self d (PState l) sum_mom sum_weight stats h_init w
      = Ok b w' ∧
    terminate b = true ∧
    edge_i b = PNone ∧ edge_o b = PNone ∧ proposal b = PNone ∧
    stats' b = stats ∧ sum_mom' b = sum_mom ∧ sum_weight' b = sum_weight ∧
    objects w' = objects w ∧ rng w' = rng w ∧
    warnings w' = BuildTreeIntegratorError msg :: warnings w.
Proof.
  intros Hl Hs. rewrite (build_tree_first_fail _ _ _ _ _ _ _ _ _ _ Hl Hs).
  eexists _, _. split; [reflexivity|]. by repeat split.
Qed.

(** The books of the doubling loop. *)
Lemma doubling_loop_accounting self h_init l s depths : ∀ v w n,
  (∀ x y, step x = inr y → is_Some (mom y)) →
  objects w !! l = Some s →
  live w (var_state_l v) → live w (var_state_r v) →
  var_stats v !! "n_step" = Some (VInt n) →
  is_Some (var_stats v !! "sum_acc_prob") →
  is_Some (var_stats v !! "divergent") →
  ∃ v' w' extra,
    doubling_loop self (PState l) h_init depths v w = Ok v' w' ∧
    objects w' = objects w ++ extra ∧
    var_stats v' !! "n_step" = Some (VInt (n + Z.of_nat (length extra))) ∧
    is_Some (var_stats v' !! "sum_acc_prob") ∧
    is_Some (var_stats v' !! "divergent") ∧
    (var_state_n v' = var_state_n v ∨
     ∃ lp sp, var_state_n v' = PState lp ∧ (length (objects w) ≤ lp)%nat ∧
              objects w' !! lp = Some sp).
Proof.
  induction depths as [|d rest IH]; intros v w n Hmom Hl Hvl Hvr Hn Ha Hdv.
  - exists v, w, []. simpl. rewrite app_nil_r, Z.add_0_r.
    split; [done|]. split; [done|]. split; [done|]. split; [done|].
    split; [done|by left].
  - cbn [doubling_loop].
    rewrite (bind_Ok _ _ _ _ _ (rng_uniform_Ok _)).
    set (u := (uniform (rng w)).1).
    set (w1 := {| objects := objects w; rng := (uniform (rng w)).2;
                  warnings := warnings w |}).
    assert (Hl1 : objects w1 !! l = Some s) by done.
    rewrite (bind_Ok _ _ _ _ _ (deref_Ok _ _ _ Hl1)).
    set (right := 2 * (if fltb u fhalf then 1 else 0) - 1 =? 1).
    assert (Hedge : live w1 (if right then var_state_r v else var_state_l v))
      by by destruct right.
    destruct Ha as [a Ha].
    assert (Hbuild : ∃ b w2 extra,
      (if right
       then build_tree self d (var_state_r v) (np_zeros (n_dim s))
              (lrf_val (of_Z 0)) (var_stats v) h_init
       else build_tree self d (var_state_l v) (np_zeros (n_dim s))
              (lrf_val (of_Z 0)) (var_stats v) h_init) w1 = Ok b w2 ∧
      objects w2 = objects w1 ++ extra ∧
      stats' b !! "n_step" = Some (VInt (n + Z.of_nat (length extra))) ∧
      is_Some (stats' b !! "sum_acc_prob") ∧
      is_Some (stats' b !! "divergent") ∧
      (terminate b = false →
         ∀ p, p ∈ [edge_i b; edge_o b; proposal b] →
              ∃ lp sp, p = PState lp ∧ (length (objects w1) ≤ lp)%nat ∧
                       objects w2 !! lp = Some sp)).
    { destruct Hedge as (le & se & He & Hle).
      destruct right; rewrite He;
        destruct (build_tree_accounting self h_init d le se w1
                    (np_zeros (n_dim s)) (lrf_val (of_Z 0)) (var_stats v)
                    n a Hmom Hle Hn Ha)
          as (b & w2 & extra & Hb & Hobj & Hn' & _ & Ha' & _ & Hdv' & Hgo);
        exists b, w2, extra; (split; [done|]); (split; [done|]);
        (split; [done|]); (split; [done|]);
        (split; [destruct Hdv' as [Hdv'|Hdv']; rewrite Hdv'; [done|by eexists]|]);
        intros Ht; by destruct (Hgo Ht) as (_ & _ & _ & Hlive). }
    destruct Hbuild as (b & w2 & extra & Hb & Hobj2 & Hn1 & Ha1 & Hdv1
                        & Hlive).
    rewrite (bind_Ok _ _ _ _ _ Hb).
    destruct (terminate b) eqn:Ht.
    + eexists _, w2, extra. split; [reflexivity|]. simpl.
      split; [done|]. split; [done|]. split; [done|]. split; [done|by left].
    + specialize (Hlive eq_refl).
      destruct (Hlive (edge_o b)) as (lo & so & Heo & Hfo & Hlo);
        [by repeat constructor|].
      destruct (Hlive (proposal b)) as (lp & sp & Hep & Hfp & Hlp);
        [by repeat constructor|].
      rewrite (bind_Ok _ _ _ _ _ (rng_uniform_Ok _)).
      set (w3 := {| objects := objects w2; rng := (uniform (rng w2)).2;
                    warnings := warnings w2 |}).
      assert (Hobj3 : objects w3 = objects w1 ++ extra) by done.
      assert (Hnl : live w3 (if right then var_state_l v else edge_o b)).
      { destruct right; [eapply live_app; [exact Hobj3|done]|].
        by exists lo, so. }
      assert (Hnr : live w3 (if right then edge_o b else var_state_r v)).
      { destruct right; [|eapply live_app; [exact Hobj3|done]].
        by exists lo, so. }
      destruct Hnl as (l1 & s1 & He1 & Hl1').
      destruct Hnr as (l2 & s2 & He2 & Hl2').
      rewrite He1, He2.
      destruct (termination_criterion_Ok l1 s1 l2 s2
                  (vec_add (var_sum_mom v) (sum_mom' b)) w3 Hl1' Hl2')
        as [t Hterm].
      rewrite (bind_Ok _ _ _ _ _ Hterm).
      set (state_n :=
        if float_lt_lrf (uniform (rng w2)).1
             (lrf_div (sum_weight' b) (var_sum_weight v))
        then proposal b else var_state_n v).
      assert (Hnn : state_n = var_state_n v ∨
                    ∃ lp sp, state_n = PState lp ∧
                             (length (objects w) ≤ lp)%nat ∧
                             objects w3 !! lp = Some sp).
      { unfold state_n. destruct float_lt_lrf; [right|by left].
        by exists lp, sp. }
      destruct t.
      * eexists _, w3, extra. split; [reflexivity|]. simpl.
        split; [done|]. split; [done|]. split; [done|]. split; [done|done].
      * set (v1 := {| var_depth := Some d; var_state_n := state_n;
                      var_state_l := PState l1; var_state_r := PState l2;
                      var_sum_mom := vec_add (var_sum_mom v) (sum_mom' b);
                      var_sum_weight :=
                        lrf_add (var_sum_weight v) (sum_weight' b);
                      var_stats := stats' b |}).
        assert (Hl3 : objects w3 !! l = Some s).
        { rewrite Hobj3. by apply lookup_app_l_Some. }
        destruct (IH v1 w3 (n + Z.of_nat (length extra)) Hmom Hl3) as (v' & w' & extra' & Hloop & Hobj'
                                           & Hn' & Ha' & Hdv' & Hsn');
          [by exists l1, s1 | by exists l2, s2 | exact Hn1 | done | done |].
        exists v', w', (extra ++ extra'). split; [exact Hloop|].
        split; [by rewrite Hobj', Hobj3, <- app_assoc|].
        split.
        { rewrite Hn'. do 2 f_equal. rewrite length_app. lia. }
        split; [done|]. split; [done|].
        assert (Hlen3 : length (objects w3)
                        = (length (objects w) + length extra)%nat)
          by by rewrite Hobj3, length_app.
        destruct Hsn' as [Heq|(lq & sq & Heq & Hfq & Hlq)].
        -- rewrite Heq. cbn [var_state_n v1].
           destruct Hnn as [Hnn|(lq & sq & Hnn & Hfq & Hlq)]; [by left|].
           right. exists lq, sq. split; [done|]. split; [done|].
           rewrite Hobj'. by apply lookup_app_l_Some.
        -- right. exists lq, sq. split; [done|]. split; [lia|done].
Qed.

(** The books of a whole transition. *)
Lemma dynamic_transition_accounting self l s m w :
  1 ≤ max_tree_depth self →
  (∀ x y, step x = inr y → is_Some (mom y)) →
  objects w !! l = Some s →
  mom s = Some m →
  ∃ l' s' stats w' extra,
    sample_dynamics_transition self (PState l) w = Ok (PState l', stats) w' ∧
    objects w' = objects w ++ [set_dir (-1) s; set_dir 1 s] ++ extra ∧
    stats !! "n_step" = Some (VInt (Z.of_nat (length extra))) ∧
    objects w' !! l' = Some s' ∧
    (l' = l ∨ (length (objects w) + 2 ≤ l')%nat) ∧
    (∀ key, key ∈ ["hamiltonian"; "n_step"; "accept_prob"; "tree_depth";
                   "divergent"] → is_Some (stats !! key)).
Proof.
  intros Hmtd Hmom Hl Hm.
  rewrite (transition_unfold _ _ _ _ _ Hl Hm).
  destruct (initial_world_live l s m w Hl) as (Hl0 & Hvl & Hvr & Hvn).
  destruct (doubling_loop_accounting self (h s) l s
              (seq 0 (Z.to_nat (max_tree_depth self)))
              (initial_locals l s m w) (initial_world s w) 0
              Hmom Hl0 Hvl Hvr)
    as (v & w' & extra & Hloop & Hobj & Hn & Ha & Hdv & Hsn);
    [done|by eexists|by eexists|].
  rewrite (bind_Ok _ _ _ _ _ Hloop).
  destruct (doubling_loop_depth _ _ _ _ _ _ _ _ Hloop)
    as [[Hnil _]|(d & Hd & Hv)].
  { apply (f_equal length) in Hnil. rewrite length_seq in Hnil.
    simpl in Hnil. lia. }
  assert (Hobj' : objects w' = objects w ++ [set_dir (-1) s; set_dir 1 s]
                                 ++ extra).
  { rewrite Hobj. simpl. by rewrite <- app_assoc. }
  assert (Hres : ∃ l' s', var_state_n v = PState l' ∧
                          objects w' !! l' = Some s' ∧
                          (l' = l ∨ (length (objects w) + 2 ≤ l')%nat)).
  { destruct Hsn as [Heq|(lq & sq & Heq & Hfq & Hlq)].
    - exists l, s. split; [by rewrite Heq|].
      split; [|by left]. rewrite Hobj'. by apply lookup_app_l_Some.
    - exists lq, sq. split; [done|]. split; [done|]. right.
      simpl in Hfq. rewrite length_app in Hfq. simpl in Hfq. lia. }
  destruct Hres as (l' & s' & Hret & Hl' & Hwhere).
  assert (Hlive : live w' (var_state_n v)) by by exists l', s'.
  destruct (finish_Ok v d _ w' Hv Hlive Hn Ha) as [stats Hfin].
  exists l', s', stats, w', extra. rewrite Hret in Hfin.
  split; [done|]. split; [done|].
  split.
  { rewrite (finish_stats _ _ _ _ _ Hfin), Hn. by rewrite Z.add_0_l. }
  split; [done|]. split; [done|].
  assert (Hns : is_Some (stats !! "n_step")).
  { rewrite (finish_stats _ _ _ _ _ Hfin), Hn. by eexists. }
  unfold finish in Hfin.
  apply bind_Ok_inv in Hfin as (n_step & w1 & _ & Hfin).
  apply bind_Ok_inv in Hfin as (stats1 & w2 & Hs1 & Hfin).
  apply bind_Ok_inv in Hfin as (hamiltonian & w3 & _ & Hfin).
  assert (Hs1' : ∃ x, stats1 = stats_set (var_stats v) "accept_prob" x).
  { destruct (val_positive n_step).
    - apply bind_Ok_inv in Hs1 as (sa & w4 & _ & Hs1).
      injection Hs1 as <- _. by eexists.
    - injection Hs1 as <- _. by eexists. }
  destruct Hs1' as [x ->].
  rewrite Hv in Hfin. injection Hfin as _ <- _.
  intros key Hkey. unfold stats_set.
  apply list_elem_of_In in Hkey. simpl in Hkey.
  destruct Hkey as [<-|[<-|[<-|[<-|[<-|[]]]]]].
  - rewrite lookup_insert_ne by done. rewrite lookup_insert_eq. by eexists.
  - done.
  - rewrite lookup_insert_ne by done. rewrite lookup_insert_ne by done.
    rewrite lookup_insert_eq. by eexists.
  - rewrite lookup_insert_eq. by eexists.
  - rewrite lookup_insert_ne by done. rewrite lookup_insert_ne by done.
    by rewrite lookup_insert_ne by done.
Qed.

(** X8. The dynamic transition works on copies: on a chain state with a
    momentum, with [max_tree_depth >= 1], it returns, and the store it
    leaves is the one it found with objects added: the two edge copies,
    then one state for each integrator step that succeeded, [n_step] being
    exactly their number.  No object that existed is changed, the chain
    state included, and the state returned is the chain state itself or one
    of the states made by the integrator during this transition. *)
Theorem dynamic_transition_store self l s m w :
  1 ≤ max_tree_depth self →
  (∀ x y, step x = inr y → is_Some (mom y)) →
  objects w !! l = Some s →
  mom s = Some m →
  ∃ l' s' stats w' extra,
    sample_dynamics_transition self (PState l) w = Ok (PState l', stats) w' ∧
    objects w' = objects w ++ [set_dir (-1) s; set_dir 1 s] ++ extra ∧
    stats !! "n_step" = Some (VInt (Z.of_nat (length extra))) ∧
    objects w' !! l' = Some s' ∧
    (l' = l ∨ (length (objects w) + 2 ≤ l')%nat).
Proof.
  intros Hmtd Hmom Hl Hm.
  destruct (dynamic_transition_accounting self l s m w Hmtd Hmom Hl Hm)
    as (l' & s' & stats & w' & extra & Hrun & Hobj & Hn & Hl' & Hwhere & _).
  by exists l', s', stats, w', extra.
Qed.

(** X9. When the first step of the first tree fails, the transition is
    over after one draw: it returns the chain state itself with
    [n_step = 0], [accept_prob = 0] (the division is skipped),
    [tree_depth = 0] and [divergent = False], having logged the failure.
    The draw picks the edge: below one half the forward copy is stepped,
    otherwise the backward one. *)
Theorem dynamic_first_step_failure self l s m msg w :
  1 ≤ max_tree_depth self →
  objects w !! l = Some s →
  mom s = Some m →
  step (set_dir (if fltb (uniform (rng w)).1 fhalf then 1 else -1) s)
    = inl msg →
  ∃ stats,
    sample_dynamics_transition self (PState l) w =
      Ok (PState l, stats)
         {| objects := objects w ++ [set_dir (-1) s; set_dir 1 s];
            rng := (uniform (rng w)).2;
            warnings := BuildTreeIntegratorError msg :: warnings w |} ∧
    stats !! "n_step" = Some (VInt 0) ∧
    stats !! "accept_prob" = Some (VFloat (of_Z 0)) ∧
    stats !! "tree_depth" = Some (VInt 0) ∧
    stats !! "divergent" = Some (VBool false) ∧
    stats !! "hamiltonian" = Some (VFloat (h s)).
Proof.
  intros Hmtd Hl Hm Hstep.
  rewrite (transition_unfold _ _ _ _ _ Hl Hm).
  destruct (initial_world_live l s m w Hl) as (Hl0 & _ & _ & _).
  destruct (Z.to_nat (max_tree_depth self)) as [|k] eqn:Hk; [lia|].
  cbn [seq].
  assert (Hloop :
    doubling_loop self (PState l) (h s) (0%nat :: seq 1 k)
      (initial_locals l s m w) (initial_world s w) =
    Ok {| var_depth := Some 0%nat; var_state_n := PState l;
          var_state_l :=
            if fltb (uniform (rng w)).1 fhalf
            then PState (length (objects w)) else PNone;
          var_state_r :=
            if fltb (uniform (rng w)).1 fhalf
            then PNone else PState (S (length (objects w)));
          var_sum_mom := m; var_sum_weight := lrf_log_val (fneg (h s));
          var_stats := var_stats (initial_locals l s m w) |}
       {| objects := objects w ++ [set_dir (-1) s; set_dir 1 s];
          rng := (uniform (rng w)).2;
          warnings := BuildTreeIntegratorError msg :: warnings w |}).
  { cbn [doubling_loop].
    rewrite (bind_Ok _ _ _ _ _ (rng_uniform_Ok _)).
    set (w1 := {| objects := objects (initial_world s w);
                  rng := (uniform (rng (initial_world s w))).2;
                  warnings := warnings (initial_world s w) |}).
    assert (Hl1 : objects w1 !! l = Some s) by done.
    rewrite (bind_Ok _ _ _ _ _ (deref_Ok _ _ _ Hl1)).
    change (uniform (rng (initial_world s w))) with (uniform (rng w)) in *.
    assert (Hleft : objects w1 !! length (objects w)
                    = Some (set_dir (-1) s)).
    { simpl. rewrite lookup_app_r by lia. by rewrite Nat.sub_diag. }
    assert (Hright : objects w1 !! S (length (objects w))
                     = Some (set_dir 1 s)).
    { simpl. rewrite lookup_app_r by lia.
      by replace (S (length (objects w)) - length (objects w))%nat
        with 1%nat by lia. }
    cbn [var_state_l var_state_r var_stats var_state_n var_sum_mom
         var_sum_weight initial_locals].
    destruct (fltb (uniform (rng w)).1 fhalf).
    - change (2 * 1 - 1 =? 1) with true. cbv iota.
      by rewrite (bind_Ok _ _ _ _ _
                    (build_tree_first_fail _ _ _ _ _ _ _ _ _ _ Hright Hstep)).
    - change (2 * 0 - 1 =? 1) with false. cbv iota.
      by rewrite (bind_Ok _ _ _ _ _
                    (build_tree_first_fail _ _ _ _ _ _ _ _ _ _ Hleft Hstep)). }
  rewrite (bind_Ok _ _ _ _ _ Hloop).
  pose (wf := {| objects := objects w ++ [set_dir (-1) s; set_dir 1 s];
                 rng := (uniform (rng w)).2;
                 warnings := BuildTreeIntegratorError msg :: warnings w |}).
  assert (Hl' : objects wf !! l = Some s) by by apply lookup_app_l_Some.
  unfold finish, getitem. cbn [var_stats var_state_n var_depth initial_locals].
  rewrite lookup_insert_eq, bind_mret_Ok.
  change (val_positive (VInt 0)) with false. cbv iota.
  rewrite bind_mret_Ok.
  rewrite (bind_Ok _ _ _ _ _ (system_h_Ok l s wf Hl')).
  eexists. split; [reflexivity|]. unfold stats_set.
  split; [by rewrite !lookup_insert_ne by done; apply lookup_insert_eq|].
  split; [by rewrite !lookup_insert_ne by done; apply lookup_insert_eq|].
  split; [apply lookup_insert_eq|].
  split; [by rewrite !lookup_insert_ne by done; apply lookup_insert_eq|].
  by rewrite lookup_insert_ne by done; apply lookup_insert_eq.
Qed.
End TreeRuns.

(** ** More on chains *)

Section ChainRuns.
Context `{System}.
Import BaseHamiltonianMonteCarlo.

Lemma np_empty_Ok {A} (n : Z) w :
  0 ≤ n → np_empty (A:=A) n w = Ok (mkArray (replicate (Z.to_nat n) [])) w.
Proof. intros Hn. unfold np_empty. by destruct (Z.ltb_spec n 0); [lia|]. Qed.

Lemma np_empty_Raise {A} (n : Z) w :
  n < 0 → np_empty (A:=A) n w = Raise ValueError w.
Proof. intros Hn. unfold np_empty. by destruct (Z.ltb_spec n 0); [|lia]. Qed.

Lemma setitem_Ok {A} (a : ndarray A) (j : nat) x w :
  (j < len a)%nat →
  setitem a (Z.of_nat j) x w = Ok (mkArray (alter (cons x) j (cells a))) w.
Proof.
  intros Hj. unfold setitem, py_index.
  destruct (Z.leb_spec 0 (Z.of_nat j)); [|lia].
  destruct (Z.ltb_spec (Z.of_nat j) (Z.of_nat (len a))); [|lia].
  by rewrite Nat2Z.id.
Qed.

Lemma alter_counts {A} (x : A) j (l : list (list A)) :
  length <$> alter (cons x) j l = alter S j (length <$> l).
Proof. apply list_fmap_alter. by apply Forall_true. Qed.

Lemma counts_len {A} (a : ndarray A) k n :
  length <$> cells a = filled k n → len a = (k + (n - k))%nat.
Proof.
  intros Ha. unfold len.
  by rewrite <- (length_fmap length), Ha, filled_length.
Qed.

(** Every row of an array whose counts are [filled n n] was stored into
    exactly once. *)
Lemma rows_written_once {A} (a : ndarray A) n :
  length <$> cells a = filled n n →
  len a = n ∧ ∀ i, (i < len a)%nat → writes a i = Some 1%nat.
Proof.
  intros Ha.
  assert (Hlen : len a = n) by (rewrite (counts_len _ _ _ Ha); lia).
  split; [done|]. intros i Hi. unfold writes.
  rewrite <- list_lookup_fmap, Ha. apply filled_full. lia.
Qed.

Lemma call_chain_func_Ok f l s var w :
  objects w !! l = Some s → f s = Some var →
  call_chain_func f (PState l) w = Ok var w.
Proof.
  intros Hl Hf. unfold call_chain_func.
  rewrite (bind_Ok _ _ _ _ _ (deref_Ok _ _ _ Hl)). by rewrite Hf.
Qed.

(** The arrays of the recorded variables as the first loop leaves them:
    one per function, the first row in. *)
Lemma init_var_chains_counts n funcs : ∀ state acc w vcs w',
  init_var_chains funcs n state acc w = Ok vcs w' →
  Forall (λ a, length <$> cells a = filled 1 (Z.to_nat n)) acc →
  length vcs = (length acc + length funcs)%nat ∧
  Forall (λ a, length <$> cells a = filled 1 (Z.to_nat n)) vcs ∧
  (funcs ≠ [] → 1 ≤ n).
Proof.
  induction funcs as [|f rest IH]; intros state acc w vcs w' Hrun Hacc;
    cbn [init_var_chains] in Hrun.
  - injection Hrun as <- _. split; [simpl; lia|]. split; done.
  - apply bind_Ok_inv in Hrun as (var & w1 & _ & Hrun).
    apply bind_Ok_inv in Hrun
      as (a & w2 & (Hn & -> & ->)%np_empty_inv & Hrun).
    apply bind_Ok_inv in Hrun as (a' & w3 & Hset & Hrun).
    change 0 with (Z.of_nat 0) in Hset.
    apply setitem_inv in Hset as (Hj & Hcells & ->).
    unfold len in Hj. simpl in Hj. rewrite length_replicate in Hj.
    apply IH in Hrun as (Hlen & Hall & _).
    + split; [rewrite Hlen, length_app; simpl; lia|].
      split; [done|]. intros _. lia.
    + apply Forall_app. split; [done|]. constructor; [|done].
      rewrite Hcells, alter_counts. simpl. rewrite empty_counts.
      apply filled_alter. lia.
Qed.

(** One pass of the inner loop stores the next row of every array it
    goes over. *)
Lemma record_vars_counts n k : ∀ pairs state w rec w',
  record_vars pairs (Z.of_nat k) state w = Ok rec w' →
  Forall (λ p, length <$> cells p.2 = filled (S k) n) pairs →
  length rec = length pairs ∧
  Forall (λ a, length <$> cells a = filled (S (S k)) n) rec.
Proof.
  induction pairs as [|[f a] rest IH]; intros state w rec w' Hrun Hall;
    cbn [record_vars] in Hrun.
  - by injection Hrun as <- _.
  - apply Forall_cons in Hall as [Ha Hall]. simpl in Ha.
    apply bind_Ok_inv in Hrun as (var & w1 & _ & Hrun).
    apply bind_Ok_inv in Hrun as (a' & w2 & Hset & Hrun).
    apply bind_Ok_inv in Hrun as (rest' & w3 & Hrest & Hrun).
    injection Hrun as <- _.
    replace (Z.of_nat k + 1) with (Z.of_nat (S k)) in Hset by lia.
    apply setitem_inv in Hset as (Hj & Hcells & ->).
    rewrite (counts_len _ _ _ Ha) in Hj.
    apply IH in Hrest as [Hlen Hrec]; [|done].
    split; [simpl; by rewrite Hlen|]. constructor; [|done].
    rewrite Hcells, alter_counts, Ha. apply filled_alter. lia.
Qed.

Lemma seqZ_to_nat (len : Z) : seqZ 0 len = seqZ 0 (Z.of_nat (Z.to_nat len)).
Proof. unfold seqZ. by rewrite Nat2Z.id. Qed.

(** The main loop stores one row per iteration into every array of the
    recorded variables. *)
Lemma chain_loop_var_counts self funcs n : ∀ m k state cs vcs w vcs' cs' w',
  chain_loop self funcs (seqZ (Z.of_nat k) (Z.of_nat m)) state cs vcs w
    = Ok (vcs', cs') w' →
  length vcs = length funcs →
  Forall (λ a, length <$> cells a = filled (S k) n) vcs →
  length vcs' = length funcs ∧
  Forall (λ a, length <$> cells a = filled (S (k + m)) n) vcs'.
Proof.
  induction m as [|m IH]; intros k state cs vcs w vcs' cs' w' Hrun Hlen Hall.
  - injection Hrun as <- _ _. by rewrite Nat.add_0_r.
  - rewrite seqZ_cons in Hrun by lia.
    replace (Z.succ (Z.of_nat k)) with (Z.of_nat (S k)) in Hrun by lia.
    replace (Z.pred (Z.of_nat (S m))) with (Z.of_nat m) in Hrun by lia.
    cbn [chain_loop] in Hrun.
    apply bind_Ok_inv in Hrun as (state1 & w1 & _ & Hrun).
    apply bind_Ok_inv in Hrun as ([state2 trans_stats] & w2 & _ & Hrun).
    apply bind_Ok_inv in Hrun as (cs1 & w3 & _ & Hrun).
    apply bind_Ok_inv in Hrun as (recorded & w4 & Hrec & Hrun).
    apply (record_vars_counts n) in Hrec as [Hrlen Hrall].
    + rewrite length_zip_with_l_eq in Hrlen by done.
      rewrite drop_ge, app_nil_r in Hrun by lia.
      apply IH in Hrun as [Hlen' Hall']; [|lia|done].
      by replace (k + S m)%nat with (S k + m)%nat by lia.
    + apply Forall_forall. intros [f a] Hin. apply elem_of_zip_r in Hin.
      rewrite Forall_forall in Hall. by apply Hall.
Qed.

(** X10. Whatever the sampler class, a chain run that returns hands back
    one array per function of [chain_var_funcs], each with [n_sample]
    rows, and every row of every array was stored into exactly once: the
    first by the loop that makes the arrays, the others by one iteration
    of the main loop each. *)
Theorem sample_chain_var_chains self n_sample state chain_var_funcs w
    var_chains chain_stats w' :
  sample_chain self n_sample state chain_var_funcs w
    = Ok (var_chains, chain_stats) w' →
  length var_chains = length chain_var_funcs ∧
  ∀ a, a ∈ var_chains →
    1 ≤ n_sample ∧ len a = Z.to_nat n_sample ∧
    ∀ i, (i < len a)%nat → writes a i = Some 1%nat.
Proof.
  intros Hrun. unfold sample_chain in Hrun.
  apply bind_Ok_inv in Hrun as (s0 & w1 & _ & Hrun).
  apply bind_Ok_inv in Hrun as ([] & w2 & _ & Hrun).
  apply bind_Ok_inv in Hrun as (cs0 & w3 & _ & Hrun).
  apply bind_Ok_inv in Hrun as (vcs0 & w4 & Hinit & Hrun).
  apply init_var_chains_counts in Hinit as (Hlen0 & Hall0 & Hn); [|done].
  rewrite seqZ_to_nat in Hrun. change 0 with (Z.of_nat 0) in Hrun.
  apply (chain_loop_var_counts self chain_var_funcs (Z.to_nat n_sample))
    in Hrun as [Hlen Hall]; [|done|done].
  split; [done|]. intros a Ha.
  assert (Hn1 : 1 ≤ n_sample).
  { apply Hn. intros ->. rewrite (nil_length_inv _ Hlen) in Ha.
    by apply elem_of_nil in Ha. }
  split; [done|].
  rewrite Forall_forall in Hall. specialize (Hall a Ha).
  replace (S (0 + Z.to_nat (n_sample - 1))) with (Z.to_nat n_sample)
    in Hall by lia.
  by apply rows_written_once.
Qed.

Lemma getitem_Ok (d : dict) k v w :
  d !! k = Some v → getitem d k w = Ok v w.
Proof. intros Hk. unfold getitem. by rewrite Hk. Qed.

(** A store into the next free cell of a statistics array goes through. *)
Lemma setstat_Ok chain_stats key (j n : nat) v w :
  write_counts chain_stats !! key = Some (filled j n) →
  (j < n)%nat →
  ∃ chain_stats',
    setstat chain_stats key (Z.of_nat j) v w = Ok chain_stats' w ∧
    write_counts chain_stats' =
      <[key := filled (S j) n]> (write_counts chain_stats).
Proof.
  intros Hkey Hj.
  assert (Hcs : ∃ t a, chain_stats !! key = Some (t, a) ∧
                       length <$> cells a = filled j n).
  { unfold write_counts in Hkey. rewrite lookup_fmap in Hkey.
    destruct (chain_stats !! key) as [[t a]|]; [|done].
    injection Hkey as Ha. by exists t, a. }
  destruct Hcs as (t & a & Hcs & Ha).
  assert (Hlen : (j < len a)%nat) by (rewrite (counts_len _ _ _ Ha); lia).
  assert (Hrun : setstat chain_stats key (Z.of_nat j) v w =
            Ok (<[key := (t, mkArray (alter (cons (cast t v)) j (cells a)))]>
                  chain_stats) w).
  { unfold setstat. rewrite Hcs.
    by rewrite (bind_Ok _ _ _ _ _ (setitem_Ok _ _ _ _ Hlen)). }
  eexists. split; [exact Hrun|].
  by apply (setstat_filled _ _ _ n) in Hrun as [Hc _].
Qed.

Lemma system_sample_momentum_Ok l s w :
  objects w !! l = Some s →
  system_sample_momentum (PState l) w =
    Ok (sample_momentum s (rng w)).1
       {| objects := objects w; rng := (sample_momentum s (rng w)).2;
          warnings := warnings w |}.
Proof.
  intros Hl. unfold system_sample_momentum.
  rewrite (bind_Ok _ _ _ _ _ (deref_Ok _ _ _ Hl)). unfold draw.
  by destruct (sample_momentum s (rng w)).
Qed.

(** The momentum refresh of the base class works in place. *)
Lemma momentum_transition_Ok l s w :
  objects w !! l = Some s →
  sample_momentum_transition (PState l) w =
    Ok (PState l)
       {| objects := <[l := set_mom (sample_momentum s (rng w)).1 s]>
                       (objects w);
          rng := (sample_momentum s (rng w)).2; warnings := warnings w |}.
Proof.
  intros Hl. unfold sample_momentum_transition.
  rewrite (bind_Ok _ _ _ _ _ (system_sample_momentum_Ok _ _ _ Hl)).
  set (w1 := {| objects := objects w; rng := (sample_momentum s (rng w)).2;
                warnings := warnings w |}).
  assert (Hl1 : objects w1 !! l = Some s) by done.
  by rewrite (bind_Ok _ _ _ _ _ (update_Ok _ _ _ _ Hl1)).
Qed.

(** The first statement of [sample_chain]. *)
Lemma chain_momentum_Ok l s w :
  objects w !! l = Some s →
  (if mom s is None
   then m ← system_sample_momentum (PState l); update (PState l) (set_mom m)
   else mret tt) w = Ok tt (with_momentum l s w) ∧
  ∃ s', objects (with_momentum l s w) !! l = Some s'.
Proof.
  intros Hl. unfold with_momentum. destruct (mom s) as [m|].
  - split; [done|by exists s].
  - rewrite (bind_Ok _ _ _ _ _ (system_sample_momentum_Ok _ _ _ Hl)).
    set (w1 := {| objects := objects w; rng := (sample_momentum s (rng w)).2;
                  warnings := warnings w |}).
    assert (Hl1 : objects w1 !! l = Some s) by done.
    rewrite (update_Ok _ _ _ _ Hl1). split; [done|].
    eexists. simpl. apply list_lookup_insert_eq. by eapply lookup_lt_Some.
Qed.

Lemma metropolis_init_Raise `{!Integrator} state n w :
  n ≤ 0 →
  BaseMetropolisHMC.initialise_chain_stats state n w = Raise ValueError w.
Proof.
  intros Hn. unfold BaseMetropolisHMC.initialise_chain_stats.
  destruct (Z.lt_ge_cases n 0) as [Hneg|Hzero].
  - by rewrite (bind_Raise _ _ _ _ _ (np_empty_Raise n w Hneg)).
  - rewrite (bind_Ok _ _ _ _ _ (np_empty_Ok n w Hzero)).
    assert (Hm : n - 1 < 0) by lia.
    by rewrite (bind_Raise _ _ _ _ _ (np_empty_Raise (n - 1) w Hm)).
Qed.

Lemma dynamic_init_Raise `{!Integrator} `{!LogRepFloatOps} state n w :
  n ≤ 0 →
  DynamicMultinomialHMC.initialise_chain_stats state n w = Raise ValueError w.
Proof.
  intros Hn. unfold DynamicMultinomialHMC.initialise_chain_stats.
  destruct (Z.lt_ge_cases n 0) as [Hneg|Hzero].
  - by rewrite (bind_Raise _ _ _ _ _ (np_empty_Raise n w Hneg)).
  - rewrite (bind_Ok _ _ _ _ _ (np_empty_Ok n w Hzero)).
    assert (Hm : n - 1 < 0) by lia.
    by rewrite (bind_Raise _ _ _ _ _ (np_empty_Raise (n - 1) w Hm)).
Qed.

(** X11. A chain of no samples is refused: for every class that keeps the
    statistics of [BaseMetropolisHMC] or of [DynamicMultinomialHMC],
    [sample_chain] with [n_sample <= 0] on a state object raises
    [ValueError] (from [np.empty] in [initialise_chain_stats]), whatever
    [chain_var_funcs]; by then a chain state that had no momentum has been
    given one, and the generator has moved on. *)
Theorem sample_chain_no_samples `{!Integrator} `{!LogRepFloatOps} self
    n_sample l s chain_var_funcs w :
  metropolis_stats self ∨ dynamic_stats self →
  n_sample ≤ 0 →
  objects w !! l = Some s →
  sample_chain self n_sample (PState l) chain_var_funcs w
    = Raise ValueError (with_momentum l s w).
Proof.
  intros Hself Hn Hl. unfold sample_chain.
  rewrite (bind_Ok _ _ _ _ _ (deref_Ok _ _ _ Hl)).
  destruct (chain_momentum_Ok l s w Hl) as [Hfirst _].
  rewrite (bind_Ok _ _ _ _ _ Hfirst).
  destruct Hself as [[Hi _]|[Hi _]]; rewrite Hi.
  - by rewrite (bind_Raise _ _ _ _ _
                  (metropolis_init_Raise _ n_sample _ Hn)).
  - by rewrite (bind_Raise _ _ _ _ _ (dynamic_init_Raise _ n_sample _ Hn)).
Qed.



Lemma dynamic_init_Ok `{!Integrator} `{!LogRepFloatOps} l s n w :
  1 ≤ n →
  objects w !! l = Some s →
  ∃ chain_stats,
    DynamicMultinomialHMC.initialise_chain_stats (PState l) n w
      = Ok chain_stats w ∧
    write_counts chain_stats = dynamic_counts (Z.to_nat n) 0.
Proof.
  intros Hn Hl.
  assert (Hn0 : 0 ≤ n) by lia. assert (Hn1 : 0 ≤ n - 1) by lia.
  assert (Hrun : ∃ chain_stats,
    DynamicMultinomialHMC.initialise_chain_stats (PState l) n w
      = Ok chain_stats w).
  { unfold DynamicMultinomialHMC.initialise_chain_stats.
    rewrite (bind_Ok _ _ _ _ _ (np_empty_Ok n w Hn0)).
    rewrite (bind_Ok _ _ _ _ _ (np_empty_Ok (n - 1) w Hn1)).
    rewrite (bind_Ok _ _ _ _ _ (np_empty_Ok (n - 1) w Hn1)).
    rewrite (bind_Ok _ _ _ _ _ (np_empty_Ok (n - 1) w Hn1)).
    rewrite (bind_Ok _ _ _ _ _ (np_empty_Ok (n - 1) w Hn1)).
    rewrite (bind_Ok _ _ _ _ _ (system_h_Ok _ _ _ Hl)).
    unfold setstat. rewrite lookup_insert_eq.
    change 0 with (Z.of_nat 0).
    assert (Hlen : (0 < len (mkArray (replicate (Z.to_nat n)
                                        ([] : list val))))%nat).
    { unfold len. simpl. rewrite length_replicate. lia. }
    rewrite (bind_Ok _ _ _ _ _ (setitem_Ok _ 0 _ _ Hlen)). by eexists. }
  destruct Hrun as [chain_stats Hrun]. exists chain_stats.
  split; [done|]. by apply dynamic_init_counts in Hrun as [_ Hc].
Qed.

Lemma dynamic_update_Ok `{!Integrator} `{!LogRepFloatOps} n k chain_stats
    trans_stats w :
  (S k < n)%nat →
  write_counts chain_stats = dynamic_counts n k →
  (∀ key, key ∈ ["hamiltonian"; "n_step"; "accept_prob"; "tree_depth";
                 "divergent"] → is_Some (trans_stats !! key)) →
  ∃ chain_stats',
    DynamicMultinomialHMC.update_chain_stats (Z.of_nat k + 1) chain_stats
      trans_stats w = Ok chain_stats' w ∧
    write_counts chain_stats' = dynamic_counts n (S k).
Proof.
  intros Hk Hc Hkeys.
  destruct (Hkeys "hamiltonian") as [v1 Hv1]; [by repeat constructor|].
  destruct (Hkeys "n_step") as [v2 Hv2]; [by repeat constructor|].
  destruct (Hkeys "accept_prob") as [v3 Hv3]; [by repeat constructor|].
  destruct (Hkeys "tree_depth") as [v4 Hv4]; [by repeat constructor|].
  destruct (Hkeys "divergent") as [v5 Hv5]; [by repeat constructor|].
  destruct (setstat_Ok chain_stats "hamiltonian" (S k) n v1 w)
    as (cs1 & Hs1 & Hc1); [by rewrite Hc|lia|].
  destruct (setstat_Ok cs1 "n_step" k (n - 1) v2 w)
    as (cs2 & Hs2 & Hc2); [by rewrite Hc1, Hc|lia|].
  destruct (setstat_Ok cs2 "accept_prob" k (n - 1) v3 w)
    as (cs3 & Hs3 & Hc3); [by rewrite Hc2, Hc1, Hc|lia|].
  destruct (setstat_Ok cs3 "tree_depth" k (n - 1) v4 w)
    as (cs4 & Hs4 & Hc4); [by rewrite Hc3, Hc2, Hc1, Hc|lia|].
  destruct (setstat_Ok cs4 "divergent" k (n - 1) v5 w)
    as (cs5 & Hs5 & Hc5); [by rewrite Hc4, Hc3, Hc2, Hc1, Hc|lia|].
  assert (Hrun : DynamicMultinomialHMC.update_chain_stats (Z.of_nat k + 1)
                   chain_stats trans_stats w = Ok cs5 w).
  { unfold DynamicMultinomialHMC.update_chain_stats.
    replace (Z.of_nat k + 1 - 1) with (Z.of_nat k) by lia.
    replace (Z.of_nat k + 1) with (Z.of_nat (S k)) by lia.
    rewrite (bind_Ok _ _ _ _ _ (getitem_Ok _ _ _ _ Hv1)).
    rewrite (bind_Ok _ _ _ _ _ Hs1).
    rewrite (bind_Ok _ _ _ _ _ (getitem_Ok _ _ _ _ Hv2)).
    rewrite (bind_Ok _ _ _ _ _ Hs2).
    rewrite (bind_Ok _ _ _ _ _ (getitem_Ok _ _ _ _ Hv3)).
    rewrite (bind_Ok _ _ _ _ _ Hs3).
    rewrite (bind_Ok _ _ _ _ _ (getitem_Ok _ _ _ _ Hv4)).
    rewrite (bind_Ok _ _ _ _ _ Hs4).
    by rewrite (bind_Ok _ _ _ _ _ (getitem_Ok _ _ _ _ Hv5)). }
  exists cs5. split; [done|]. by eapply dynamic_update_counts.
Qed.

(** The first loop of [sample_chain] goes through when the functions
    accept the chain state. *)
Lemma init_var_chains_Ok n l s w funcs : ∀ acc,
  1 ≤ n →
  objects w !! l = Some s →
  accepts_all funcs →
  ∃ vcs, init_var_chains funcs n (PState l) acc w = Ok vcs w.
Proof.
  induction funcs as [|f rest IH]; intros acc Hn Hl Hf;
    cbn [init_var_chains].
  - by eexists.
  - destruct (Hf f s) as [var Hvar]; [by left|].
    rewrite (bind_Ok _ _ _ _ _ (call_chain_func_Ok _ _ _ _ _ Hl Hvar)).
    assert (Hn0 : 0 ≤ n) by lia.
    rewrite (bind_Ok _ _ _ _ _ (np_empty_Ok n w Hn0)).
    change 0 with (Z.of_nat 0).
    assert (Hlen : (0 < len (mkArray (replicate (Z.to_nat n)
                                        ([] : list Vec))))%nat).
    { unfold len. simpl. rewrite length_replicate. lia. }
    rewrite (bind_Ok _ _ _ _ _ (setitem_Ok _ 0 _ _ Hlen)).
    apply IH; [done|done|]. intros g x Hg. apply Hf. by right.
Qed.

(** So does the inner loop, on arrays with a free row. *)
Lemma record_vars_Ok n k l s w : ∀ pairs,
  objects w !! l = Some s →
  (S k < n)%nat →
  Forall (λ p, is_Some (p.1 s) ∧ length <$> cells p.2 = filled (S k) n)
         pairs →
  ∃ rec, record_vars pairs (Z.of_nat k) (PState l) w = Ok rec w.
Proof.
  induction pairs as [|[f a] rest IH]; intros Hl Hk Hall;
    cbn [record_vars].
  - by eexists.
  - apply Forall_cons in Hall as [[[var Hvar] Ha] Hall]. simpl in *.
    rewrite (bind_Ok _ _ _ _ _ (call_chain_func_Ok _ _ _ _ _ Hl Hvar)).
    replace (Z.of_nat k + 1) with (Z.of_nat (S k)) by lia.
    assert (Hlen : (S k < len a)%nat)
      by (rewrite (counts_len _ _ _ Ha); lia).
    rewrite (bind_Ok _ _ _ _ _ (setitem_Ok _ _ _ _ Hlen)).
    destruct (IH Hl Hk Hall) as [rest' Hrest].
    rewrite (bind_Ok _ _ _ _ _ Hrest). by eexists.
Qed.

(** A chain returns when its parts do. *)
Section Returns.
Variable self : methods.
Variable chain_var_funcs : list (ChainState → option Vec).
Variable n : nat.
Variable counts : nat → gmap string (list nat).
Variable complete : dict → Prop.
Hypothesis momentum_returns : ∀ l s w,
  objects w !! l = Some s →
  ∃ s' w',
    self_sample_momentum_transition self (PState l) w = Ok (PState l) w' ∧
    objects w' !! l = Some s' ∧ is_Some (mom s').
Hypothesis dynamics_returns : ∀ l s w,
  objects w !! l = Some s →
  is_Some (mom s) →
  ∃ l' s' stats w',
    self_sample_dynamics_transition self (PState l) w
      = Ok (PState l', stats) w' ∧
    objects w' !! l' = Some s' ∧ complete stats.
Hypothesis update_returns : ∀ k chain_stats stats w,
  (S k < n)%nat →
  write_counts chain_stats = counts k →
  complete stats →
  ∃ chain_stats',
    self_update_chain_stats self (Z.of_nat k + 1) chain_stats stats w
      = Ok chain_stats' w ∧
    write_counts chain_stats' = counts (S k).
Hypothesis init_returns : ∀ l s w,
  objects w !! l = Some s →
  ∃ chain_stats,
    self_initialise_chain_stats self (PState l) (Z.of_nat n) w
      = Ok chain_stats w ∧
    write_counts chain_stats = counts 0%nat.
Hypothesis funcs_accept : accepts_all chain_var_funcs.

Lemma chain_loop_Ok : ∀ m k l s chain_stats var_chains w,
  (k + m < n)%nat →
  objects w !! l = Some s →
  write_counts chain_stats = counts k →
  length var_chains = length chain_var_funcs →
  Forall (λ a, length <$> cells a = filled (S k) n) var_chains →
  ∃ result w',
    chain_loop self chain_var_funcs (seqZ (Z.of_nat k) (Z.of_nat m))
      (PState l) chain_stats var_chains w = Ok result w'.
Proof.
  induction m as [|m IH]; intros k l s cs vcs w Hkm Hl Hc Hlen Hall.
  - by eexists _, _.
  - rewrite seqZ_cons by lia.
    replace (Z.succ (Z.of_nat k)) with (Z.of_nat (S k)) by lia.
    replace (Z.pred (Z.of_nat (S m))) with (Z.of_nat m) by lia.
    cbn [chain_loop].
    destruct (momentum_returns l s w Hl) as (s1 & w1 & Hm1 & Hl1 & Hmom1).
    rewrite (bind_Ok _ _ _ _ _ Hm1).
    destruct (dynamics_returns l s1 w1 Hl1 Hmom1)
      as (l2 & s2 & stats & w2 & Hd2 & Hl2 & Hstats).
    rewrite (bind_Ok _ _ _ _ _ Hd2).
    assert (Hk : (S k < n)%nat) by lia.
    destruct (update_returns k cs stats w2 Hk Hc Hstats)
      as (cs1 & Hu & Hc1).
    rewrite (bind_Ok _ _ _ _ _ Hu).
    assert (Hpairs :
      Forall (λ p, is_Some (p.1 s2) ∧
                   length <$> cells p.2 = filled (S k) n)
             (zip chain_var_funcs vcs)).
    { apply Forall_forall. intros [f a] Hin. simpl. split.
      - apply funcs_accept. by apply elem_of_zip_l in Hin.
      - apply elem_of_zip_r in Hin. rewrite Forall_forall in Hall.
        by apply Hall. }
    destruct (record_vars_Ok n k l2 s2 w2 _ Hl2 Hk Hpairs) as [rec Hrec].
    rewrite (bind_Ok _ _ _ _ _ Hrec).
    apply (record_vars_counts n) in Hrec as [Hrlen Hrall].
    + rewrite length_zip_with_l_eq in Hrlen by done.
      rewrite drop_ge, app_nil_r by lia.
      apply (IH (S k) l2 s2); [lia|done|done|lia|done].
    + eapply Forall_impl; [exact Hpairs|]. by intros p [_ Hp].
Qed.

Lemma sample_chain_Ok l s w :
  (1 ≤ n)%nat →
  objects w !! l = Some s →
  ∃ var_chains chain_stats w',
    sample_chain self (Z.of_nat n) (PState l) chain_var_funcs w
      = Ok (var_chains, chain_stats) w'.
Proof.
  intros Hn Hl. unfold sample_chain.
  rewrite (bind_Ok _ _ _ _ _ (deref_Ok _ _ _ Hl)).
  destruct (chain_momentum_Ok l s w Hl) as [Hfirst [s1 Hl1]].
  rewrite (bind_Ok _ _ _ _ _ Hfirst).
  destruct (init_returns l s1 _ Hl1) as (cs & Hinit & Hc).
  rewrite (bind_Ok _ _ _ _ _ Hinit).
  assert (Hn1 : 1 ≤ Z.of_nat n) by lia.
  destruct (init_var_chains_Ok (Z.of_nat n) l s1 (with_momentum l s w)
              chain_var_funcs [] Hn1 Hl1 funcs_accept) as [vcs Hvcs].
  rewrite (bind_Ok _ _ _ _ _ Hvcs).
  apply init_var_chains_counts in Hvcs as (Hlen & Hall & _); [|done].
  rewrite Nat2Z.id in Hall.
  replace (Z.of_nat n - 1) with (Z.of_nat (n - 1)) by lia.
  change 0 with (Z.of_nat 0).
  destruct (chain_loop_Ok (n - 1) 0 l s1 cs vcs (with_momentum l s w))
    as ([var_chains chain_stats] & w' & Hloop); [lia|done|done|done|done|].
  by exists var_chains, chain_stats, w'.
Qed.
End Returns.


(** X13. A chain of the dynamic sampler returns as well: for
    [n_sample >= 1] and [max_tree_depth >= 1], a state object, an
    integrator whose states carry a momentum and functions in
    [chain_var_funcs] that accept every state; failed steps and
    divergences end trees, never the chain. *)
Theorem dynamic_chain_returns `{!Integrator} `{!LogRepFloatOps} dm n_sample
    l s chain_var_funcs w :
  1 ≤ DynamicMultinomialHMC.max_tree_depth dm →
  (∀ x y, step x = inr y → is_Some (mom y)) →
  1 ≤ n_sample →
  objects w !! l = Some s →
  accepts_all chain_var_funcs →
  ∃ var_chains chain_stats w',
    sample_chain (DynamicMultinomialHMC.methods dm) n_sample (PState l)
      chain_var_funcs w = Ok (var_chains, chain_stats) w'.
Proof.
  intros Hmtd Hmom Hn Hl Hfuncs.
  rewrite <- (Z2Nat.id n_sample) by lia.
  apply (sample_chain_Ok (DynamicMultinomialHMC.methods dm) chain_var_funcs
           (Z.to_nat n_sample) (dynamic_counts (Z.to_nat n_sample))
           (λ stats, ∀ key, key ∈ ["hamiltonian"; "n_step"; "accept_prob";
                                   "tree_depth"; "divergent"] →
                            is_Some (stats !! key)))
    with (s := s); [| | | |done|lia|done].
  - intros l0 s0 w0 Hl0. simpl.
    rewrite (momentum_transition_Ok _ _ _ Hl0).
    eexists _, _. split; [reflexivity|]. simpl.
    split; [apply list_lookup_insert_eq; by eapply lookup_lt_Some|].
    by eexists.
  - intros l0 s0 w0 Hl0 [m Hm]. simpl.
    destruct (dynamic_transition_accounting dm l0 s0 m w0 Hmtd Hmom Hl0 Hm)
      as (l' & s' & stats & w' & extra & Hrun & _ & _ & Hl' & _ & Hkeys).
    by exists l', s', stats, w'.
  - intros k cs stats w0 Hk Hc Hstats. simpl.
    by apply dynamic_update_Ok.
  - intros l0 s0 w0 Hl0. simpl.
    destruct (dynamic_init_Ok l0 s0 (Z.of_nat (Z.to_nat n_sample)) w0)
      as (cs & Hrun & Hc); [lia|done|].
    exists cs. split; [done|]. by rewrite Nat2Z.id in Hc.
Qed.
End ChainRuns.

(** ** The further properties in the concrete setting *)

Section FurtherExamples.
Import Example1D.


Lemma metropolis_transition_store_witness :
  ∃ result w' s',
    BaseMetropolisHMC._sample_dynamics_transition (PState 0) 1
      (world slow [1 # 2]) = Ok result w' ∧
    (length (objects (world slow [1 # 2])) ≤ length (objects w'))%nat ∧
    (∀ j x, j ≠ 0%nat → objects (world slow [1 # 2]) !! j = Some x →
            objects w' !! j = Some x) ∧
    objects w' !! 0%nat = Some s' ∧
    pos s' = pos slow ∧ mom s' = mom slow ∧ n_dim s' = n_dim slow ∧
    (dir s' = dir slow ∨ dir s' = dir slow * -1).
Proof.
  exact (metropolis_transition_store 0%nat slow 1 (world slow [1 # 2])
           eq_refl).
Defined.

Lemma metropolis_accept_reject_witness :
  ∃ state' stats w',
    BaseMetropolisHMC._sample_dynamics_transition (PState 0) 1
      (world slow [1 # 2]) = Ok (state', stats) w' ∧
    rng w' = (uniform (rng (world slow [1 # 2]))).2 ∧
    warnings w' = warnings (world slow [1 # 2]) ∧
    stats !! "n_step" = Some (VInt 1) ∧
    stats !! "accept_prob" = Some (metropolis_accept_prob slow slow_1) ∧
    if float_lt_val (uniform (rng (world slow [1 # 2]))).1
         (metropolis_accept_prob slow slow_1)
    then
      ∃ lp, state' = PState lp ∧
            (length (objects (world slow [1 # 2])) ≤ lp)%nat ∧
            objects w' !! lp = Some slow_1 ∧
            objects w' !! 0%nat = Some slow ∧
            stats !! "hamiltonian" = Some (VFloat (h slow_1))
    else
      state' = PState 0 ∧
      objects w' !! 0%nat = Some (negated slow) ∧
      stats !! "hamiltonian" = Some (VFloat (h (negated slow))).
Proof.
  assert (Hn : 1 ≤ 1) by lia.
  assert (Hrun : run_steps (Z.to_nat 1) slow = inr slow_1) by reflexivity.
  exact (metropolis_accept_reject 0%nat slow 1 (world slow [1 # 2]) slow_1
           Hn eq_refl Hrun).
Defined.

Lemma metropolis_negative_steps_witness :
  ∃ stats w',
    BaseMetropolisHMC._sample_dynamics_transition (PState 0) (-2)
      (world slow [1 # 2]) = Ok (PState 0, stats) w' ∧
    objects w' = objects (world slow [1 # 2]) ∧
    rng w' = (uniform (rng (world slow [1 # 2]))).2 ∧
    warnings w' = warnings (world slow [1 # 2]) ∧
    stats !! "n_step" = Some (VInt (-2)) ∧
    stats !! "hamiltonian" = Some (VFloat (h slow)).
Proof.
  assert (Hn : -2 < 0) by lia.
  exact (metropolis_negative_steps 0%nat slow (-2) (world slow [1 # 2])
           Hn eq_refl).
Defined.

Lemma random_transition_draw_order_witness :
  ∃ state' stats w',
    RandomMetropolisHMC.sample_dynamics_transition one_or_two (PState 0)
      (world slow [1 # 4; 1 # 2]) = Ok (state', stats) w' ∧
    stats !! "n_step" = Some (VInt 1) ∧
    rng w' = [] ∧
    warnings w' = [].
Proof.
  assert (Hrun :
    run_steps
      (Z.to_nat (random_integers
                   (RandomMetropolisHMC.n_step_range one_or_two).1
                   (RandomMetropolisHMC.n_step_range one_or_two).2
                   (rng (world slow [1 # 4; 1 # 2]))).1) slow
    = inr slow_1) by reflexivity.
  exact (random_transition_draw_order one_or_two 0%nat slow
           (world slow [1 # 4; 1 # 2]) slow_1 eq_refl Hrun).
Defined.

Lemma build_tree_counts_steps_witness :
  ∃ b w' extra,
    DynamicMultinomialHMC.build_tree default_tree_self 1 (PState 0)
      (np_zeros 1) (lrf_val (of_Z 0)) no_stats (h slow) (world slow [1 # 2])
      = Ok b w' ∧
    objects w' = objects (world slow [1 # 2]) ++ extra ∧
    DynamicMultinomialHMC.stats' b !! "n_step"
      = Some (VInt (0 + Z.of_nat (length extra))) ∧
    (length extra ≤ 2 ^ 1)%nat ∧
    (DynamicMultinomialHMC.terminate b = false →
       length extra = (2 ^ 1)%nat ∧
       warnings w' = warnings (world slow [1 # 2]) ∧
       DynamicMultinomialHMC.stats' b !! "divergent"
         = no_stats !! "divergent").
Proof.
  exact (build_tree_counts_steps default_tree_self (h slow) 1 0%nat slow
           (world slow [1 # 2]) (np_zeros 1) (lrf_val (of_Z 0)) no_stats 0
           (VFloat 0%Q) leapfrog_has_mom eq_refl eq_refl eq_refl).
Defined.

Lemma build_tree_failed_first_step_witness :
  ∃ b w',
    DynamicMultinomialHMC.build_tree default_tree_self 2 (PState 0)
      (np_zeros 1) (lrf_val (of_Z 0)) no_stats (h fast_1) (world fast_1 [])
      = Ok b w' ∧
    DynamicMultinomialHMC.terminate b = true ∧
    DynamicMultinomialHMC.edge_i b = PNone ∧
    DynamicMultinomialHMC.edge_o b = PNone ∧
    DynamicMultinomialHMC.proposal b = PNone ∧
    DynamicMultinomialHMC.stats' b = no_stats ∧
    DynamicMultinomialHMC.sum_mom' b = np_zeros 1 ∧
    DynamicMultinomialHMC.sum_weight' b = lrf_val (of_Z 0) ∧
    objects w' = objects (world fast_1 []) ∧
    rng w' = rng (world fast_1 []) ∧
    warnings w' =
      BuildTreeIntegratorError "position out of bounds"
        :: warnings (world fast_1 []).
Proof.
  assert (Hfail : step fast_1 = inl "position out of bounds"%string)
    by reflexivity.
  exact (build_tree_failed_first_step default_tree_self (h fast_1) 2 0%nat
           fast_1 "position out of bounds" (world fast_1 []) (np_zeros 1)
           (lrf_val (of_Z 0)) no_stats eq_refl Hfail).
Defined.

Lemma dynamic_transition_store_witness :
  ∃ l' s' stats w' extra,
    DynamicMultinomialHMC.sample_dynamics_transition tree_self (PState 0)
      (world slow [1 # 2; 1 # 3; 3 # 4; 1 # 5])
      = Ok (PState l', stats) w' ∧
    objects w' =
      objects (world slow [1 # 2; 1 # 3; 3 # 4; 1 # 5])
        ++ [set_dir (-1) slow; set_dir 1 slow] ++ extra ∧
    stats !! "n_step" = Some (VInt (Z.of_nat (length extra))) ∧
    objects w' !! l' = Some s' ∧
    (l' = 0%nat ∨
     (length (objects (world slow [1 # 2; 1 # 3; 3 # 4; 1 # 5])) + 2
      ≤ l')%nat).
Proof.
  assert (Hd : 1 ≤ DynamicMultinomialHMC.max_tree_depth tree_self)
    by (simpl; lia).
  exact (dynamic_transition_store tree_self 0%nat slow [1 # 2]
           (world slow [1 # 2; 1 # 3; 3 # 4; 1 # 5]) Hd leapfrog_has_mom
           eq_refl eq_refl).
Defined.

Lemma dynamic_first_step_failure_witness :
  ∃ stats,
    DynamicMultinomialHMC.sample_dynamics_transition tree_self (PState 0)
      (world fast_1 [1 # 4]) =
      Ok (PState 0, stats)
         {| objects := [fast_1; set_dir (-1) fast_1; set_dir 1 fast_1];
            rng := [];
            warnings :=
              [BuildTreeIntegratorError "position out of bounds"] |} ∧
    stats !! "n_step" = Some (VInt 0) ∧
    stats !! "accept_prob" = Some (VFloat (of_Z 0)) ∧
    stats !! "tree_depth" = Some (VInt 0) ∧
    stats !! "divergent" = Some (VBool false) ∧
    stats !! "hamiltonian" = Some (VFloat (h fast_1)).
Proof.
  assert (Hd : 1 ≤ DynamicMultinomialHMC.max_tree_depth tree_self)
    by (simpl; lia).
  assert (Hfail :
    step (set_dir (if fltb (uniform (rng (world fast_1 [1 # 4]))).1 fhalf
                   then 1 else -1) fast_1)
    = inl "position out of bounds"%string) by reflexivity.
  exact (dynamic_first_step_failure tree_self 0%nat fast_1 [41 # 32]
           "position out of bounds" (world fast_1 [1 # 4]) Hd eq_refl
           eq_refl Hfail).
Defined.

Lemma extract_pos_accepts :
  accepts_all [BaseHamiltonianMonteCarlo.extract_pos].
Proof.
  intros f x Hf. apply list_elem_of_In in Hf. simpl in Hf.
  destruct Hf as [<-|[]]. eexists. reflexivity.
Qed.

Lemma sample_chain_var_chains_witness :
  match static_chain with
  | Ok (var_chains, _) _ =>
      length var_chains
        = length [BaseHamiltonianMonteCarlo.extract_pos] ∧
      ∀ a, a ∈ var_chains →
        1 ≤ 3 ∧ len a = Z.to_nat 3 ∧
        ∀ i, (i < len a)%nat → writes a i = Some 1%nat
  | Raise _ _ => False
  end.
Proof.
  destruct static_chain as [[var_chains chain_stats] w'|e w'] eqn:Hrun.
  - exact (sample_chain_var_chains
             (StaticMetropolisHMC.methods
                {| StaticMetropolisHMC.n_step := 1 |})
             3 (PState 0) [BaseHamiltonianMonteCarlo.extract_pos]
             (world slow [1 # 4; 1 # 2; 3 # 4; 1 # 2])
             var_chains chain_stats w' Hrun).
  - assert (Hret : returned static_chain = true) by reflexivity.
    rewrite Hrun in Hret. discriminate Hret.
Defined.

Lemma sample_chain_no_samples_witness :
  BaseHamiltonianMonteCarlo.sample_chain
    (StaticMetropolisHMC.methods {| StaticMetropolisHMC.n_step := 1 |})
    0 (PState 0) [BaseHamiltonianMonteCarlo.extract_pos]
    (world still [1 # 4])
  = Raise ValueError (with_momentum 0 still (world still [1 # 4])).
Proof.
  assert (Hn : 0 ≤ 0) by lia.
  exact (sample_chain_no_samples
           (StaticMetropolisHMC.methods
              {| StaticMetropolisHMC.n_step := 1 |})
           0 0%nat still [BaseHamiltonianMonteCarlo.extract_pos]
           (world still [1 # 4]) (or_introl (conj eq_refl eq_refl)) Hn
           eq_refl).
Defined.


Lemma dynamic_chain_returns_witness :
  ∃ var_chains chain_stats w',
    BaseHamiltonianMonteCarlo.sample_chain
      (DynamicMultinomialHMC.methods tree_self) 2 (PState 0)
      [BaseHamiltonianMonteCarlo.extract_pos]
      (world slow [1 # 4; 1 # 2; 1 # 3; 3 # 4; 1 # 5])
    = Ok (var_chains, chain_stats) w'.
Proof.
  assert (Hd : 1 ≤ DynamicMultinomialHMC.max_tree_depth tree_self)
    by (simpl; lia).
  assert (Hn : 1 ≤ 2) by lia.
  exact (dynamic_chain_returns tree_self 2 0%nat slow
           [BaseHamiltonianMonteCarlo.extract_pos]
           (world slow [1 # 4; 1 # 2; 1 # 3; 3 # 4; 1 # 5]) Hd
           leapfrog_has_mom Hn eq_refl extract_pos_accepts).
Defined.
End FurtherExamples.
